(** * Email authenticity checker: the scoring engine of
      [src/components/EmailDetector.tsx]

    The development embeds the pure function [detect], its helpers and the
    form state around it, and proves what the specification says of them.

    Conventions of the embedding.
    - Strings are byte strings read as ASCII text: [toLowerCase], [trim] and
      the classes [\s] and [\w] act on the ASCII range, and a byte above 127
      is a character like any other.  A theorem that measures a text of the
      caller with these functions takes the text to be of ASCII characters
      ([ascii_text]).
    - The score is an integer: the source adds small integer weights, which
      a JavaScript number holds exactly.  The threshold is an integer too
      (the form stores the result of [parseInt]).
    - [detect] keeps two accumulators, [reasons] and [score]; the embedding
      threads the pair [Acc] through the rule passes in the order of the
      source.
    - The regular expressions of the source are terms of [Regex.re], run by
      a backtracking matcher with the priorities of JavaScript (greedy and
      lazy stars, ordered alternatives, capture groups, [lastIndex] for the
      flag g).
    - The two foreign libraries the component calls (the WHATWG [URL]
      constructor and [tldts]) are an environment [Env]: every general
      theorem holds whatever those libraries answer, and the theorems on the
      two examples of the form state what they need of them.
    - [Throwing] embeds [detect] a second time with what the first
      embedding leaves out: the exception of the [URL] constructor and its
      handler, capture groups that may be undefined, the regular expression
      objects with their [lastIndex] and the loops over [exec], which run on
      fuel.  It is proved to return what the first embedding computes.
    - [Stateful] hands a store of RegExp objects from one call of [detect]
      to the next, so that what a call leaves behind can be told from what
      the next one reads.
    - The URLs of a text are also written down without the patterns, as the
      occurrences a reader finds from left to right ([Reading]); the
      extraction is compared with them.

    The other components of the application follow: the keyword detector,
    the password analyzer, the website detector, the URL detector and the
    quiz.  There
    - a handler is the function from what it reads to what it hands to its
      state setters;
    - [new URL], [getDomain] and the two [punycode] functions are variables
      of a section, so the theorems hold for every browser and library;
    - the quiz is a transition system on the five state values of
      [QuizShell], one transition for a click, where a click on a button
      that is disabled or not shown changes nothing;
    - the quotient [passed / rules.length] is an exact fraction. *)

From Stdlib Require Import ZArith List String Ascii Bool Arith Lia Sorted.
From Stdlib Require QArith.
Import ListNotations.

Open Scope string_scope.

(* ================================================================== *)
(** * JavaScript string built-ins used by the component *)
(* ================================================================== *)

Module JS.

Definition code (c : ascii) : nat := nat_of_ascii c.

Definition between (lo hi : nat) (c : ascii) : bool :=
  (lo <=? code c)%nat && (code c <=? hi)%nat.

(** White space of [trim] and of the class [\s]: TAB, LF, VT, FF, CR, SP. *)
Definition is_space (c : ascii) : bool :=
  between 9 13 c || (code c =? 32)%nat.

Definition is_upper (c : ascii) : bool := between 65 90 c.
Definition is_lower (c : ascii) : bool := between 97 122 c.
Definition is_digit (c : ascii) : bool := between 48 57 c.

(** The class [\w]. *)
Definition is_word (c : ascii) : bool :=
  is_upper c || is_lower c || is_digit c || (code c =? 95)%nat.

Definition lower_char (c : ascii) : ascii :=
  if is_upper c then ascii_of_nat (code c + 32) else c.

Fixpoint map_chars (f : ascii -> ascii) (s : string) : string :=
  match s with
  | EmptyString => EmptyString
  | String c t => String (f c) (map_chars f t)
  end.

Fixpoint all_chars (p : ascii -> bool) (s : string) : bool :=
  match s with
  | EmptyString => true
  | String c t => p c && all_chars p t
  end.

Definition toLowerCase (s : string) : string := map_chars lower_char s.

Fixpoint trimStart (s : string) : string :=
  match s with
  | EmptyString => EmptyString
  | String c t => if is_space c then trimStart t else s
  end.

Fixpoint trimEnd (s : string) : string :=
  match s with
  | EmptyString => EmptyString
  | String c t =>
      match trimEnd t with
      | EmptyString => if is_space c then EmptyString else String c EmptyString
      | t' => String c t'
      end
  end.

Definition trim (s : string) : string := trimEnd (trimStart s).

(** [pre] stands at the start of [s]. *)
Fixpoint prefix (pre s : string) {struct pre} : bool :=
  match pre with
  | EmptyString => true
  | String a pre' =>
      match s with
      | EmptyString => false
      | String b s' => Ascii.eqb a b && prefix pre' s'
      end
  end.

Fixpoint includes (s sub : string) : bool :=
  prefix sub s ||
  match s with
  | EmptyString => false
  | String _ t => includes t sub
  end.

Fixpoint endsWith (s suf : string) : bool :=
  String.eqb s suf ||
  match s with
  | EmptyString => false
  | String _ t => endsWith t suf
  end.

(** [s.split(sep)] for a one-character separator. *)
Fixpoint split (sep : ascii) (s : string) : list string :=
  match s with
  | EmptyString => [EmptyString]
  | String c t =>
      if Ascii.eqb c sep then EmptyString :: split sep t
      else match split sep t with
           | [] => [String c EmptyString]
           | x :: r => String c x :: r
           end
  end.

(** [s.replace(/C/g, rep)] for a pattern [C] that is one character class. *)
Fixpoint replaceAll (p : ascii -> bool) (rep : string) (s : string) : string :=
  match s with
  | EmptyString => EmptyString
  | String c t =>
      if p c then rep ++ replaceAll p rep t else String c (replaceAll p rep t)
  end.

(** Truthiness of a string: only the empty string is falsy. *)
Definition truthy (s : string) : bool :=
  match s with EmptyString => false | _ => true end.

(** [a || b] where [a] is a string or null. *)
Definition orElse (a : option string) (b : string) : string :=
  match a with
  | Some s => if truthy s then s else b
  | None => b
  end.

(** [a || null], kept as an option: a falsy string counts as absent. *)
Definition nonEmpty (a : option string) : option string :=
  match a with
  | Some s => if truthy s then Some s else None
  | None => None
  end.

(** [a || b] where both are a string or undefined. *)
Definition orOpt (a b : option string) : option string :=
  match nonEmpty a with
  | Some s => Some s
  | None => b
  end.

(** A set of strings in insertion order, and [urls.add(u)]. *)
Definition Set_add (urls : list string) (u : string) : list string :=
  if existsb (String.eqb u) urls then urls else (urls ++ [u])%list.

End JS.

(* ================================================================== *)
(** * A backtracking matcher for the regular expressions of the source *)
(* ================================================================== *)

Module Regex.

Inductive re : Type :=
| Chr (p : ascii -> bool)          (* one character of a class *)
| Eps
| Seq (a b : re)
| Alt (a b : re)                   (* a|b, left alternative first *)
| Star (greedy : bool) (a : re)    (* a* and a*? *)
| Grp (n : nat) (a : re)           (* capture group number n *)
| Bos                              (* ^ *)
| Eos.                             (* $ *)

Definition Plus (a : re) : re := Seq a (Star true a).
Definition Opt (a : re) : re := Alt a Eps.

Definition ch (c : ascii) : ascii -> bool := fun x => Ascii.eqb x c.
(** a literal character under the flag i *)
Definition chi (c : ascii) : ascii -> bool :=
  fun x => Ascii.eqb (JS.lower_char x) (JS.lower_char c).
Definition notc (p : ascii -> bool) : ascii -> bool := fun x => negb (p x).
Definition orc (p q : ascii -> bool) : ascii -> bool := fun x => p x || q x.

Fixpoint lit_with (f : ascii -> ascii -> bool) (s : string) : re :=
  match s with
  | EmptyString => Eps
  | String c EmptyString => Chr (f c)
  | String c t => Seq (Chr (f c)) (lit_with f t)
  end.

Definition lit : string -> re := lit_with ch.
Definition liti : string -> re := lit_with chi.

Fixpoint alts (l : list re) : re :=
  match l with
  | [] => Eps
  | [a] => a
  | a :: r => Alt a (alts r)
  end.

(** Matcher state: index in the input, the input from there on, captures. *)
Record MState : Type := mkM {
  pos : nat;
  rest : string;
  caps : list (nat * string)
}.

Definition K : Type := MState -> option MState.

Definition first_some (a : option MState) (b : unit -> option MState)
  : option MState :=
  match a with Some x => Some x | None => b tt end.

(** The loop of a star: [ma] matches the body once.  An iteration that reads
    nothing is refused, so the length of the rest bounds the iterations. *)
Fixpoint star_loop (g : bool) (ma : K -> K) (k : K) (fuel : nat) (st : MState)
  {struct fuel} : option MState :=
  match fuel with
  | O => k st
  | S f =>
      let again (_ : unit) :=
        ma (fun st' => if (pos st <? pos st')%nat then star_loop g ma k f st' else None) st in
      if g then first_some (again tt) (fun _ => k st)
      else first_some (k st) again
  end.

Fixpoint m (r : re) (k : K) (st : MState) {struct r} : option MState :=
  match r with
  | Chr p =>
      match rest st with
      | String c t => if p c then k (mkM (S (pos st)) t (caps st)) else None
      | EmptyString => None
      end
  | Eps => k st
  | Seq a b => m a (m b k) st
  | Alt a b => first_some (m a k st) (fun _ => m b k st)
  | Star g a => star_loop g (m a) k (S (String.length (rest st))) st
  | Grp n a =>
      m a (fun st' =>
             k (mkM (pos st') (rest st')
                    ((n, String.substring 0 (pos st' - pos st) (rest st)) :: caps st')))
        st
  | Bos => if (pos st =? 0)%nat then k st else None
  | Eos => match rest st with EmptyString => k st | _ => None end
  end.

(** A successful match: where it starts, its text, its groups. *)
Record Match : Type := mkMatch {
  index : nat;
  matched : string;
  groups : list (nat * string)
}.

Fixpoint lookup (n : nat) (l : list (nat * string)) : option string :=
  match l with
  | [] => None
  | (i, s) :: r => if (i =? n)%nat then Some s else lookup n r
  end.

Definition group (n : nat) (x : Match) : option string := lookup n (groups x).

(** One attempt at index [p], where [s] is the input from [p] on. *)
Definition exec_at (r : re) (s : string) (p : nat) : option Match :=
  match m r Some (mkM p s []) with
  | Some st => Some (mkMatch p (String.substring 0 (pos st - p) s) (caps st))
  | None => None
  end.

(** The leftmost match at or after [p]. *)
Fixpoint search_from (r : re) (s : string) (p : nat) : option Match :=
  match exec_at r s p with
  | Some x => Some x
  | None =>
      match s with
      | EmptyString => None
      | String _ t => search_from r t (S p)
      end
  end.

Definition exec (r : re) (s : string) : option Match := search_from r s 0.

Definition test (r : re) (s : string) : bool :=
  match exec r s with Some _ => true | None => false end.

(** Every match of a regular expression with the flag g, left to right,
    each search starting where the previous match ended (one further after
    an empty match).  [skip] counts the characters of the current match that
    are still to be passed. *)
Fixpoint scan (r : re) (s : string) (p skip : nat) {struct s} : list Match :=
  match skip with
  | S n =>
      match s with
      | EmptyString => []
      | String _ t => scan r t (S p) n
      end
  | O =>
      match exec_at r s p with
      | Some x =>
          x :: match s with
               | EmptyString => []
               | String _ t => scan r t (S p) (pred (String.length (matched x)))
               end
      | None =>
          match s with
          | EmptyString => []
          | String _ t => scan r t (S p) 0
          end
      end
  end.

Definition matchAll (r : re) (s : string) : list Match := scan r s 0 0.

End Regex.

(* ================================================================== *)
(** * The foreign libraries: the [URL] constructor and [tldts] *)
(* ================================================================== *)

(** What the component asks of its two libraries.  [URL_hostname s] is the
    [hostname] of [new URL(s)], or [None] when the constructor throws;
    [getDomain h] is the registered domain (eTLD+1) [tldts] finds for [h], or
    [None] for null; [parseTld_domain s] is the field [domain] of
    [parse(s)]. *)
Record Env : Type := mkEnv {
  URL_hostname : string -> option string;
  getDomain : string -> option string;
  parseTld_domain : string -> option string
}.

(** A small executable instance of [Env], used to run the examples: host
    names made of letters, digits, hyphens and dots, and an excerpt of the
    public suffix list with its default rule (an unlisted last label is a
    suffix).  It stands for the libraries only on such plain names. *)
Module Tldts.

Definition suffixes : list string :=
  ["com"; "net"; "org"; "cn"; "com.cn"; "net.cn"; "org.cn"; "uk"; "co.uk"].

Definition listed (s : string) : bool :=
  existsb (String.eqb s) suffixes.

Definition is_dot (c : ascii) : bool := Ascii.eqb c ".".

Fixpoint dropTrailingDots (s : string) : string :=
  match s with
  | EmptyString => EmptyString
  | String c t =>
      match dropTrailingDots t with
      | EmptyString => if is_dot c then EmptyString else String c EmptyString
      | t' => String c t'
      end
  end.

Definition host_char (c : ascii) : bool :=
  JS.is_lower c || JS.is_digit c || Ascii.eqb c "-" || Ascii.eqb c "." || Ascii.eqb c "_".

Definition join (ls : list string) : string := String.concat "." ls.

(** Walk the labels from the left; the first tail that is a listed suffix
    (or the last label, by the default rule) is the public suffix, and the
    label before it makes the registered domain. *)
Fixpoint registered (prev : option string) (ls : list string) : option string :=
  match ls with
  | [] => None
  | l :: r =>
      if listed (join ls) || match r with [] => true | _ => false end then
        match prev with
        | Some p => Some (p ++ "." ++ join ls)
        | None => None
        end
      else registered (Some l) r
  end.

Definition numeric (s : string) : bool :=
  JS.all_chars (fun c => JS.is_digit c || is_dot c) s.

Definition domainOfHost (h : string) : option string :=
  let h := dropTrailingDots (JS.toLowerCase h) in
  if JS.truthy h && JS.all_chars host_char h && negb (numeric h)
  then registered None (JS.split "." h)
  else None.

Definition stop_char (c : ascii) : bool :=
  Ascii.eqb c "/" || Ascii.eqb c "?" || Ascii.eqb c "#" || Ascii.eqb c ":".

Fixpoint takeUntil (p : ascii -> bool) (s : string) : string :=
  match s with
  | EmptyString => EmptyString
  | String c t => if p c then EmptyString else String c (takeUntil p t)
  end.

Definition afterScheme (s : string) : option string :=
  let l := JS.toLowerCase s in
  if JS.prefix "http://" l then Some (String.substring 7 (String.length s - 7) s)
  else if JS.prefix "https://" l then Some (String.substring 8 (String.length s - 8) s)
  else None.

Definition hostname (s : string) : option string :=
  match afterScheme s with
  | Some r =>
      let h := JS.toLowerCase (takeUntil stop_char r) in
      if JS.truthy h && JS.all_chars host_char h then Some h else None
  | None => None
  end.

Definition parseDomain (s : string) : option string :=
  match afterScheme s with
  | Some r => domainOfHost (takeUntil stop_char r)
  | None => domainOfHost (takeUntil stop_char s)
  end.

Definition env : Env := mkEnv hostname domainOfHost parseDomain.

End Tldts.

(* ================================================================== *)
(** * The component *)
(* ================================================================== *)

Module EmailDetector.
Import Regex.

(** ** Types *)

Record Options : Type := mkOptions {
  treatFreeProvidersAsSuspicious : bool;
  strictBrandLookalikes : bool;
  threshold : Z
}.

Record DetectionInput : Type := mkInput {
  subject : string;
  body : string;
  fromEmail : string;
  replyToEmail : string;
  authResults : string;
  attachments : list string;
  options : Options
}.

Inductive Category : Type := LikelySafe | NeedsReview | Suspicious.

Record DetectionResult : Type := mkResult {
  score : Z;
  reasons : list string;
  category : Category
}.

(** ** Configuration *)

Inductive Rule : Type :=
| keyword | suspiciousUrl | longDomain | punycode | brandLookalike
| freeProviderAsCorp | linkMismatch | dangerousAttachment | macroAttachment
| doubleExtension | replyToMismatch | spfFailOrMissing.

Definition WEIGHTS (r : Rule) : Z :=
  match r with
  | keyword => 2
  | suspiciousUrl => 3
  | longDomain => 2
  | punycode => 3
  | brandLookalike => 4
  | freeProviderAsCorp => 2
  | linkMismatch => 3
  | dangerousAttachment => 5
  | macroAttachment => 4
  | doubleExtension => 5
  | replyToMismatch => 4
  | spfFailOrMissing => 3
  end%Z.

Definition PHISHING_KEYWORDS : list string :=
  [ "urgent"; "verify"; "account locked"; "password reset"; "click here";
    "last warning"; "act now"; "invoice attached"; "bank transfer";
    "payment declined"; "confirm your account" ].

Definition DANGEROUS_EXTS : list string :=
  [".exe"; ".scr"; ".bat"; ".vbs"; ".js"; ".cmd"; ".pif"; ".jar"].

Definition RISKY_OFFICE_EXTS : list string := [".docm"; ".xlsm"; ".pptm"].

Definition FREE_PROVIDERS : list string :=
  [ "gmail.com"; "yahoo.com"; "outlook.com"; "hotmail.com"; "live.com";
    "icloud.com"; "aol.com" ].

Definition HIGH_VALUE_BRANDS : list string :=
  [ "paypal.com"; "microsoft.com"; "apple.com"; "amazon.com"; "google.com";
    "netflix.com"; "bankofamerica.com"; "chase.com" ].

(** ** Regular expressions of the source *)

Definition dq : ascii := "034"%char.
Definition dqs : string := String dq EmptyString.
Definition nl : string := String "010"%char EmptyString.

Fixpoint seqs (l : list re) : re :=
  match l with
  | [] => Eps
  | [a] => a
  | a :: r => Seq a (seqs r)
  end.

Definition not_gt : ascii -> bool := notc (ch ">").
Definition not_dq : ascii -> bool := notc (ch dq).
Definition url_char : ascii -> bool := notc (orc JS.is_space (ch ")")).
(** the class of [.]: anything but a line terminator *)
Definition dot : ascii -> bool := notc (orc (ch "010"%char) (ch "013"%char)).

(** [https?:\/\/[^\s)]+] under the flag i *)
Definition httpUrl : re :=
  seqs [liti "http"; Opt (Chr (chi "s")); lit "://"; Plus (Chr url_char)].

(** [/@([^>\s]+)>?$|@([^\s]+)/] *)
Definition emailRe : re :=
  Alt (seqs [lit "@"; Grp 1 (Plus (Chr (notc (orc (ch ">") JS.is_space))));
             Opt (Chr (ch ">")); Eos])
      (seqs [lit "@"; Grp 2 (Plus (Chr (notc JS.is_space)))]).

(** [/^https?:\/\//i] *)
Definition schemeRe : re :=
  seqs [Bos; liti "http"; Opt (Chr (chi "s")); lit "://"].

(** [/https?:\/\/[^\s)]+/gi] *)
Definition plainRe : re := httpUrl.

(** [/\[[^\]]+\]\((https?:\/\/[^\s)]+)\)/gi] *)
Definition mdReg : re :=
  seqs [lit "["; Plus (Chr (notc (ch "]"))); lit "]("; Grp 1 httpUrl; lit ")"].

(** The anchor pattern of [extractAllUrls], flags gi: the text [<a ], any
    run without [>], [href=], a double quote, group 1 of one or more
    characters other than a double quote, a double quote, any run without
    [>], and [>]. *)
Definition htmlReg : re :=
  seqs [liti "<a "; Star true (Chr not_gt); liti "href="; Chr (ch dq);
        Grp 1 (Plus (Chr not_dq)); Chr (ch dq); Star true (Chr not_gt); lit ">"].

(** [/\[([^\]]+)\]\((https?:\/\/[^\s)]+)\)/gi] *)
Definition md : re :=
  seqs [lit "["; Grp 1 (Plus (Chr (notc (ch "]")))); lit "]("; Grp 2 httpUrl; lit ")"].

(** The anchor pattern of [extractLinkTextPairs], flags gi: as [htmlReg],
    followed by group 2, a lazy run of [.], and the closing tag. *)
Definition html : re :=
  seqs [liti "<a "; Star true (Chr not_gt); liti "href="; Chr (ch dq);
        Grp 1 (Plus (Chr not_dq)); Chr (ch dq); Star true (Chr not_gt); lit ">";
        Grp 2 (Star false (Chr dot)); liti "</a>"].

(** [/^xn--/] *)
Definition punycodeRe : re := seqs [Bos; lit "xn--"].

(** [/(secure|login|update|verify)/i] *)
Definition suspiciousRe : re :=
  Grp 1 (alts [liti "secure"; liti "login"; liti "update"; liti "verify"]).

(** [/\.(\w+)\.(exe|bat|scr|cmd|js)$/i] *)
Definition doubleExtRe : re :=
  seqs [lit "."; Grp 1 (Plus (Chr JS.is_word)); lit ".";
        Grp 2 (alts [liti "exe"; liti "bat"; liti "scr"; liti "cmd"; liti "js"]); Eos].

(** [/spf=pass/] *)
Definition spfRe : re := lit "spf=pass".

(** ** Helpers *)

(** Capture group [n] of a match, as a string. *)
Definition grp (n : nat) (x : Match) : string :=
  match group n x with Some s => s | None => EmptyString end.

Definition normalizeStr (s : string) : string := JS.trim (JS.toLowerCase s).

Definition emailToDomain (E : Env) (email : string) : option string :=
  match exec emailRe (JS.toLowerCase email) with
  | None => None
  | Some x =>
      match JS.orOpt (group 1 x) (group 2 x) with
      | None => None
      | Some host =>
          if JS.truthy host then Some (JS.orElse (getDomain E host) host) else None
      end
  end.

(** The [try] block returns the registered domain of the host name, or the
    host name itself; the [catch] block asks [tldts] for the raw text. *)
Definition safeGetDomainFromUrl (E : Env) (raw : string) : option string :=
  let hasScheme := test schemeRe raw in
  match URL_hostname E (if hasScheme then raw else "http://" ++ raw) with
  | Some hostname => Some (JS.orElse (getDomain E hostname) hostname)
  | None => JS.nonEmpty (parseTld_domain E raw)
  end.

Definition deobfuscateHomoglyphs (s : string) : string :=
  JS.replaceAll (ch "@") "a"
    (JS.replaceAll (ch "7") "t"
      (JS.replaceAll (ch "5") "s"
        (JS.replaceAll (ch "3") "e"
          (JS.replaceAll (ch "1") "l"
            (JS.replaceAll (ch "0") "o" s))))).

Definition looksLikeBrand (domain brandDomain : string) : bool :=
  let d := deobfuscateHomoglyphs (JS.toLowerCase domain) in
  let b := JS.toLowerCase brandDomain in
  if String.eqb d b then false
  else if JS.includes d b && negb (JS.endsWith d b) then true
  else
    let stripped := JS.replaceAll (notc JS.is_lower) EmptyString d in
    let strippedB := JS.replaceAll (notc JS.is_lower) EmptyString b in
    String.eqb stripped strippedB.

Definition extractAllUrls (text : string) : list string :=
  let urls : list string := [] in
  let plain := map matched (matchAll plainRe text) in
  let urls := fold_left JS.Set_add plain urls in
  let urls := fold_left (fun urls x => JS.Set_add urls (grp 1 x)) (matchAll mdReg text) urls in
  let urls := fold_left (fun urls x => JS.Set_add urls (grp 1 x)) (matchAll htmlReg text) urls in
  urls.

Record LinkText : Type := mkLink { display : string; href : string }.

Definition extractLinkTextPairs (text : string) : list LinkText :=
  let pairs : list LinkText := [] in
  let pairs := fold_left (fun pairs x => (pairs ++ [mkLink (grp 1 x) (grp 2 x)])%list)
                         (matchAll md text) pairs in
  let pairs := fold_left (fun pairs x => (pairs ++ [mkLink (grp 2 x) (grp 1 x)])%list)
                         (matchAll html text) pairs in
  pairs.

(** ** Core detection *)

(** The pair of the two accumulators of [detect]: [reasons] and [score]. *)
Definition Acc : Type := (list string * Z)%type.

(** [reasons.push(msg); score += WEIGHTS.r] *)
Definition fire (r : Rule) (msg : string) (st : Acc) : Acc :=
  ((fst st ++ [msg])%list, (snd st + WEIGHTS r)%Z).

Definition keywordStep (text : string) (st : Acc) (kw : string) : Acc :=
  if JS.includes text kw
  then fire keyword ("Contains suspicious phrase: " ++ dqs ++ kw ++ dqs) st
  else st.

(** The loop over [HIGH_VALUE_BRANDS], left at the first lookalike. *)
Fixpoint brandLoop (domain : string) (brands : list string) (st : Acc) : Acc :=
  match brands with
  | [] => st
  | brand :: more =>
      if looksLikeBrand domain brand
      then fire brandLookalike
                ("Brand lookalike detected: " ++ domain ++ " ~ " ++ brand) st
      else brandLoop domain more st
  end.

Definition domainRules (strict : bool) (domain : string) (st : Acc) : Acc :=
  let st := if (40 <? String.length domain)%nat
            then fire longDomain ("Very long domain: " ++ domain) st else st in
  let st := if test punycodeRe domain
            then fire punycode ("Punycode domain detected: " ++ domain) st else st in
  let st := if test suspiciousRe domain
            then fire suspiciousUrl ("Suspicious keyword in domain: " ++ domain) st else st in
  if strict then brandLoop domain HIGH_VALUE_BRANDS st else st.

Definition urlStep (E : Env) (strict : bool) (st : Acc) (url : string) : Acc :=
  match safeGetDomainFromUrl E url with
  | None => st
  | Some domain => if JS.truthy domain then domainRules strict domain st else st
  end.

Definition linkStep (E : Env) (st : Acc) (p : LinkText) : Acc :=
  let d := JS.orElse (safeGetDomainFromUrl E (href p)) EmptyString in
  let disp := normalizeStr (display p) in
  if JS.truthy d && JS.truthy disp && negb (JS.includes disp d)
  then fire linkMismatch
            ("Link text (" ++ dqs ++ display p ++ dqs
               ++ ") does not match destination (" ++ href p ++ ")") st
  else st.

Definition attachmentStep (st : Acc) (file : string) : Acc :=
  let lower := JS.trim (JS.toLowerCase file) in
  if negb (JS.truthy lower) then st
  else
    let st := if existsb (fun ext => JS.endsWith lower ext) DANGEROUS_EXTS
              then fire dangerousAttachment ("Dangerous attachment: " ++ file) st
              else st in
    let st := if existsb (fun ext => JS.endsWith lower ext) RISKY_OFFICE_EXTS
              then fire macroAttachment ("Macro-enabled Office attachment: " ++ file) st
              else st in
    if test doubleExtRe lower
    then fire doubleExtension ("Double-extension trick: " ++ file) st
    else st.

Definition replyToStep (fromDomain replyToDomain : string) (st : Acc) : Acc :=
  if JS.truthy fromDomain && JS.truthy replyToDomain
     && negb (String.eqb fromDomain replyToDomain)
  then fire replyToMismatch
            ("From (" ++ fromDomain ++ ") ≠ Reply-To (" ++ replyToDomain ++ ")") st
  else st.

Definition SPF_REASON : string := "SPF not pass in Authentication-Results".

Definition spfStep (authResults : string) (st : Acc) : Acc :=
  if JS.truthy authResults then
    let ar := JS.toLowerCase authResults in
    if negb (test spfRe ar) then fire spfFailOrMissing SPF_REASON st else st
  else st.

(** [b.split(".")[0]] *)
Definition firstLabel (b : string) : string := hd EmptyString (JS.split "." b).

Definition freeProviderStep (treatFree : bool) (fromDomain text : string)
           (st : Acc) : Acc :=
  if treatFree && JS.truthy fromDomain then
    let isFree := existsb (String.eqb fromDomain) FREE_PROVIDERS in
    if isFree && existsb (fun b => JS.includes text (firstLabel b)) HIGH_VALUE_BRANDS
    then fire freeProviderAsCorp
              ("Corporate-sounding email sent from free provider (" ++ fromDomain ++ ")") st
    else st
  else st.

Definition categorize (score threshold : Z) : Category :=
  if (threshold * 2 <=? score)%Z then Suspicious
  else if (threshold <=? score)%Z then NeedsReview
  else LikelySafe.

(** The rule passes of [detect], in the order of the source. *)
Definition runRules (E : Env) (input : DetectionInput) : Acc :=
  let st : Acc := ([], 0%Z) in
  let text := normalizeStr (subject input ++ " " ++ body input) in
  let fromDomain := JS.orElse (emailToDomain E (fromEmail input)) EmptyString in
  let replyToDomain := JS.orElse (emailToDomain E (replyToEmail input)) EmptyString in
  (* 1) keywords *)
  let st := fold_left (keywordStep text) PHISHING_KEYWORDS st in
  (* 2) URLs and domains *)
  let urls := extractAllUrls (body input) in
  let st := fold_left (urlStep E (strictBrandLookalikes (options input))) urls st in
  (* 3) link text against destination *)
  let pairs := extractLinkTextPairs (body input) in
  let st := fold_left (linkStep E) pairs st in
  (* 4) attachments *)
  let st := fold_left attachmentStep (attachments input) st in
  (* 5) headers *)
  let st := replyToStep fromDomain replyToDomain st in
  let st := spfStep (authResults input) st in
  (* 6) free providers *)
  freeProviderStep (treatFreeProvidersAsSuspicious (options input)) fromDomain text st.

Definition detect (E : Env) (input : DetectionInput) : DetectionResult :=
  let st := runRules E input in
  mkResult (snd st) (fst st) (categorize (snd st) (threshold (options input))).

(** ** The form around [detect] *)

Record Form : Type := mkForm {
  f_subject : string;
  f_fromEmail : string;
  f_replyTo : string;
  f_authResults : string;
  f_attachmentsRaw : string;
  f_body : string;
  f_treatFree : bool;
  f_strictBrands : bool;
  f_threshold : Z
}.

(** The initial values of the [useState] hooks. *)
Definition initialForm : Form :=
  mkForm EmptyString EmptyString EmptyString EmptyString EmptyString EmptyString
         true true 7%Z.

Definition attachmentsOf (attachmentsRaw : string) : list string :=
  filter JS.truthy (map JS.trim (JS.split "," attachmentsRaw)).

(** The argument [analyze] builds for [detect]. *)
Definition inputOf (f : Form) : DetectionInput :=
  mkInput (f_subject f) (f_body f) (f_fromEmail f) (f_replyTo f)
          (f_authResults f) (attachmentsOf (f_attachmentsRaw f))
          (mkOptions (f_treatFree f) (f_strictBrands f) (f_threshold f)).

Definition analyze (E : Env) (f : Form) : DetectionResult :=
  detect E (inputOf f).

Definition fillSafeExample (f : Form) : Form :=
  mkForm "Your July invoice is ready"
         "billing@legitvendor.com"
         "billing@legitvendor.com"
         "spf=pass dkim=pass dmarc=pass"
         "invoice.pdf"
         ("Hi team, your July invoice is attached as a PDF. You can also view it in your account portal at https://portal.legitvendor.com."
            ++ nl ++ nl ++ "If you have questions, reply to this email.")
         (f_treatFree f) (f_strictBrands f) (f_threshold f).

Definition fillSuspiciousExample (f : Form) : Form :=
  mkForm "URGENT: Verify your PayPal account now"
         "support@paypa1.com"
         "helpcenter@gmail.com"
         "spf=fail dkim=none"
         "invoice.docm, setup.exe"
         "Dear user, your account is locked. Click here immediately to verify: [PayPal Secure](http://secure-paypal.com-login.cn)."
         (f_treatFree f) (f_strictBrands f) (f_threshold f).

End EmailDetector.

(* ================================================================== *)
(** * Reading a result: the rule behind a reason, inputs that differ in one
      field, blank text *)
(* ================================================================== *)

Import EmailDetector.

(** Every rule writes its reason with a text of its own in front. *)
Definition rulePrefixes : list (string * Rule) :=
  [ ("Contains suspicious phrase: ", keyword);
    ("Very long domain: ", longDomain);
    ("Punycode domain detected: ", punycode);
    ("Suspicious keyword in domain: ", suspiciousUrl);
    ("Brand lookalike detected: ", brandLookalike);
    ("Link text (", linkMismatch);
    ("Dangerous attachment: ", dangerousAttachment);
    ("Macro-enabled Office attachment: ", macroAttachment);
    ("Double-extension trick: ", doubleExtension);
    ("From (", replyToMismatch);
    ("SPF not pass in Authentication-Results", spfFailOrMissing);
    ("Corporate-sounding email sent from free provider (", freeProviderAsCorp) ].

Fixpoint classify (tbl : list (string * Rule)) (s : string) : option Rule :=
  match tbl with
  | [] => None
  | (p, r) :: more => if JS.prefix p s then Some r else classify more s
  end.

Definition ruleOfReason (s : string) : option Rule := classify rulePrefixes s.

Definition weightOfReason (s : string) : Z :=
  match ruleOfReason s with Some r => WEIGHTS r | None => 0%Z end.

(** The pass of [detect] a rule belongs to, in the order of the source. *)
Definition pass (r : Rule) : nat :=
  match r with
  | keyword => 1
  | longDomain | punycode | suspiciousUrl | brandLookalike => 2
  | linkMismatch => 3
  | dangerousAttachment | macroAttachment | doubleExtension => 4
  | replyToMismatch => 5
  | spfFailOrMissing => 6
  | freeProviderAsCorp => 7
  end.

Definition passOfReason (s : string) : nat :=
  match ruleOfReason s with Some r => pass r | None => 0 end.

Definition total (l : list string) : Z :=
  fold_right (fun s acc => (weightOfReason s + acc)%Z) 0%Z l.

(** The invariant of the accumulators up to pass [k]. *)
Definition Inv (k : nat) (st : Acc) : Prop :=
  snd st = total (fst st)
  /\ StronglySorted le (map passOfReason (fst st))
  /\ Forall (fun s => 1 <= passOfReason s <= k) (fst st).

Definition withSubject (i : DetectionInput) (s : string) : DetectionInput :=
  mkInput s (body i) (fromEmail i) (replyToEmail i) (authResults i)
          (attachments i) (options i).

Definition withBody (i : DetectionInput) (s : string) : DetectionInput :=
  mkInput (subject i) s (fromEmail i) (replyToEmail i) (authResults i)
          (attachments i) (options i).

Definition withAttachments (i : DetectionInput) (l : list string) : DetectionInput :=
  mkInput (subject i) (body i) (fromEmail i) (replyToEmail i) (authResults i)
          l (options i).

Definition withAuthResults (i : DetectionInput) (s : string) : DetectionInput :=
  mkInput (subject i) (body i) (fromEmail i) (replyToEmail i) s
          (attachments i) (options i).

(** [l1] is [l2] with some elements left out. *)
Inductive subseq {A : Type} : list A -> list A -> Prop :=
| subseq_nil : subseq [] []
| subseq_skip : forall x l1 l2, subseq l1 l2 -> subseq l1 (x :: l2)
| subseq_keep : forall x l1 l2, subseq l1 l2 -> subseq (x :: l1) (x :: l2).

(** Only white space, possibly nothing. *)
Definition blank (s : string) : bool := JS.all_chars JS.is_space s.

Definition empty : Acc := ([], 0%Z).

(** Reasons appended, scores added. *)
Definition plus (a b : Acc) : Acc := ((fst a ++ fst b)%list, (snd a + snd b)%Z).

(** A step that only appends reasons and adds to the score, by amounts that
    do not depend on what was accumulated before. *)
Definition additive (g : Acc -> Acc) : Prop :=
  forall st, g st = plus st (g empty).

(** [starts p r]: every match of [r] begins with a character of the class
    [p]. *)
Inductive starts (p : ascii -> bool) : Regex.re -> Prop :=
| starts_chr : starts p (Regex.Chr p)
| starts_seq : forall a b, starts p a -> starts p (Regex.Seq a b)
| starts_alt : forall a b, starts p a -> starts p b -> starts p (Regex.Alt a b)
| starts_grp : forall n a, starts p a -> starts p (Regex.Grp n a).

(** The input a matcher state still has to read is empty or begins with
    white space. *)
Definition at_space (st : Regex.MState) : Prop :=
  match Regex.rest st with
  | EmptyString => True
  | String c _ => JS.is_space c = true
  end.

(** The text handed to [new URL] by [safeGetDomainFromUrl]. *)
Definition urlText (raw : string) : string :=
  if Regex.test schemeRe raw then raw else "http://" ++ raw.

(** [s] is what is left of [inp] after some of it was read. *)
Definition suffix_of (s inp : string) : Prop := exists pre, inp = pre ++ s.

(** A matcher state that reads [inp]: the rest is an end of [inp] and every
    captured text occurs in [inp]. *)
Definition within (inp : string) (st : Regex.MState) : Prop :=
  suffix_of (Regex.rest st) inp
  /\ Forall (fun g => JS.includes inp (snd g) = true) (Regex.caps st).

(** A match taken from [inp]: its text and its groups occur in [inp]. *)
Definition taken_from (inp : string) (x : Regex.Match) : Prop :=
  JS.includes inp (Regex.matched x) = true
  /\ Forall (fun g => JS.includes inp (snd g) = true) (Regex.groups x).

(** The result of [detect] on the suspicious example of the form. *)
Definition suspiciousExampleResult : DetectionResult :=
  mkResult 28
    [ "Contains suspicious phrase: " ++ dqs ++ "urgent" ++ dqs;
      "Contains suspicious phrase: " ++ dqs ++ "verify" ++ dqs;
      "Contains suspicious phrase: " ++ dqs ++ "click here" ++ dqs;
      "Suspicious keyword in domain: com-login.cn";
      "Link text (" ++ dqs ++ "PayPal Secure" ++ dqs
        ++ ") does not match destination (http://secure-paypal.com-login.cn)";
      "Macro-enabled Office attachment: invoice.docm";
      "Dangerous attachment: setup.exe";
      "From (paypa1.com) ≠ Reply-To (gmail.com)";
      SPF_REASON ]
    Suspicious.

(** [st'] is [st] after some characters were read. *)
Definition reads (st st' : Regex.MState) : Prop :=
  Regex.pos st' + String.length (Regex.rest st')
    = Regex.pos st + String.length (Regex.rest st)
  /\ String.length (Regex.rest st') <= String.length (Regex.rest st).

(** The accumulators before the header rules, then before the free-provider
    rule: [runRules] in three parts. *)
Definition bodyRules (E : Env) (input : DetectionInput) : Acc :=
  let text := normalizeStr (subject input ++ " " ++ body input) in
  fold_left attachmentStep (attachments input)
    (fold_left (linkStep E) (extractLinkTextPairs (body input))
       (fold_left (urlStep E (strictBrandLookalikes (options input)))
          (extractAllUrls (body input))
          (fold_left (keywordStep text) PHISHING_KEYWORDS empty))).

(** ** Inputs with more triggers *)

(** The text the keyword rule and the free-provider rule search. *)
Definition textOf (i : DetectionInput) : string :=
  normalizeStr (subject i ++ " " ++ body i).

(** What those two rules look for in it: the phishing keywords, and the
    first label of every brand domain. *)
Definition needles : list string :=
  (PHISHING_KEYWORDS ++ map firstLabel HIGH_VALUE_BRANDS)%list.

(** [i'] has every trigger of [i].  The two inputs differ in subject, body
    and attachments only; what the keyword rule and the free-provider rule
    find in the text of [i] they find in the text of [i']; the URLs and the
    link pairs extracted from the body of [i] are among those extracted from
    the body of [i'], in the same order; and so are the attachment names. *)
Definition addsTriggers (i i' : DetectionInput) : Prop :=
  fromEmail i' = fromEmail i
  /\ replyToEmail i' = replyToEmail i
  /\ authResults i' = authResults i
  /\ options i' = options i
  /\ (forall n, In n needles ->
        JS.includes (textOf i) n = true -> JS.includes (textOf i') n = true)
  /\ subseq (extractAllUrls (body i)) (extractAllUrls (body i'))
  /\ subseq (extractLinkTextPairs (body i)) (extractLinkTextPairs (body i'))
  /\ subseq (attachments i) (attachments i').

(* ================================================================== *)
(** * Further readings of [detect]: options, bounds, last characters *)
(* ================================================================== *)

Definition withOptions (i : DetectionInput) (o : Options) : DetectionInput :=
  mkInput (subject i) (body i) (fromEmail i) (replyToEmail i) (authResults i)
          (attachments i) o.

Definition withThreshold (i : DetectionInput) (t : Z) : DetectionInput :=
  withOptions i (mkOptions (treatFreeProvidersAsSuspicious (options i))
                           (strictBrandLookalikes (options i)) t).

(** The three categories from the mildest to the gravest. *)
Definition rank (c : Category) : nat :=
  match c with LikelySafe => 0 | NeedsReview => 1 | Suspicious => 2 end.

Fixpoint lastChar (s : string) : option ascii :=
  match s with
  | EmptyString => None
  | String c t => match lastChar t with Some x => Some x | None => Some c end
  end.

(** The rest of [st'] is an end of the rest of [st]. *)
Definition after (st st' : Regex.MState) : Prop :=
  exists pre, Regex.rest st = pre ++ Regex.rest st'.

(** Two texts that agree up to the case of their letters. *)
Fixpoint same_ci (a b : string) : Prop :=
  match a, b with
  | EmptyString, EmptyString => True
  | String x a', String y b' =>
      JS.lower_char x = JS.lower_char y /\ same_ci a' b'
  | _, _ => False
  end.

(** A text without upper-case letters. *)
Definition lowered (s : string) : bool :=
  JS.all_chars (fun c => Ascii.eqb (JS.lower_char c) c) s.

(** Every reason accumulated so far is the reason of a rule in [P]. *)
Definition Only (P : Rule -> Prop) (st : Acc) : Prop :=
  Forall (fun s => exists r, ruleOfReason s = Some r /\ P r) (fst st).

(** A character of the ASCII range.  On text of such characters the byte
    strings of this development and the strings of JavaScript read alike:
    one byte is one code unit, [trim] and the class [\s] take the same white
    space, and the dot of a pattern refuses the same line terminators. *)
Definition is_ascii (c : ascii) : bool := (JS.code c <? 128)%nat.

Definition ascii_text (s : string) : bool := JS.all_chars is_ascii s.

(** Not a comma: what a name in the attachments field may be made of. *)
Definition not_comma (c : ascii) : bool := negb (Ascii.eqb c ",").

(** An attachment name as the form hands it to [detect]: not empty, no
    white space around it, no comma in it. *)
Definition clean_name (n : string) : Prop :=
  n <> EmptyString /\ JS.trim n = n /\ JS.all_chars not_comma n = true.

(* ================================================================== *)
(** * The same code with what can go wrong written out *)
(* ================================================================== *)

(** [detect] above is a function of Rocq: it returns a result whatever the
    source does.  This second embedding follows the same lines of the source
    and writes out what can keep them from returning:
    - the [URL] constructor throws on a text it cannot parse;
    - a capture group that took no part in a match is [undefined], and a
      method called on [undefined] throws a TypeError;
    - a [while] loop over [exec] runs for as long as [exec] finds a match,
      and [exec] starts at the [lastIndex] its last match left, so a match
      of no character would be found again for ever.
    A run returns a value, throws, or is still going when the fuel of its
    loops is used up. *)
Module Throwing.
Import Regex.

Inductive Outcome (A : Type) : Type :=
| Returns (a : A)
| Throws (what : string)
| OutOfFuel.
Arguments Returns {A} a.
Arguments Throws {A} what.
Arguments OutOfFuel {A}.

Definition bind {A B : Type} (c : Outcome A) (k : A -> Outcome B) : Outcome B :=
  match c with
  | Returns a => k a
  | Throws what => Throws what
  | OutOfFuel => OutOfFuel
  end.

Notation "x <- c ;; k" := (bind c (fun x => k))
  (at level 61, c at next level, right associativity).

(** [try { body } catch { handler }] *)
Definition tryCatch {A : Type} (body : Outcome A) (handler : unit -> Outcome A)
  : Outcome A :=
  match body with
  | Throws _ => handler tt
  | other => other
  end.

(** [for (const x of l) st = step(st, x)], left at the first throw. *)
Fixpoint forOf {A S : Type} (step : S -> A -> Outcome S) (l : list A) (st : S)
  : Outcome S :=
  match l with
  | [] => Returns st
  | x :: more => st' <- step st x ;; forOf step more st'
  end.

(** A string or [undefined]. *)
Definition Value : Type := option string.

(** The text a template literal, [RegExp.test] or [new URL] makes of a
    value. *)
Definition toText (v : Value) : string :=
  match v with Some s => s | None => "undefined" end.

(** The receiver of a method call. *)
Definition receiver (v : Value) : Outcome string :=
  match v with
  | Some s => Returns s
  | None => Throws "TypeError: cannot read properties of undefined"
  end.

Definition value_eqb (a b : Value) : bool :=
  match a, b with
  | Some x, Some y => String.eqb x y
  | None, None => true
  | _, _ => false
  end.

(** [s.slice(n)] *)
Fixpoint drop (n : nat) (s : string) : string :=
  match n, s with
  | O, _ => s
  | S n', String _ t => drop n' t
  | S _, EmptyString => EmptyString
  end.

(** A RegExp object with the flag g. *)
Record RegExpG : Type := mkRegExp { pattern : re; lastIndex : nat }.

(** [r.exec(text)]: the leftmost match at or after [lastIndex], which moves
    [lastIndex] to the end of the match; without one, [null], and
    [lastIndex] goes back to 0. *)
Definition exec (r : RegExpG) (text : string) : option Match * RegExpG :=
  let found :=
    if (lastIndex r <=? String.length text)%nat
    then search_from (pattern r) (drop (lastIndex r) text) (lastIndex r)
    else None in
  match found with
  | Some x => (Some x, mkRegExp (pattern r) (index x + String.length (matched x)))
  | None => (None, mkRegExp (pattern r) 0)
  end.

(** [while ((m = r.exec(text)) !== null) st = body(st, m)] *)
Fixpoint whileExec {S : Type} (fuel : nat) (r : RegExpG) (text : string)
  (body : S -> Match -> S) (st : S) : Outcome S :=
  match fuel with
  | O => OutOfFuel
  | Datatypes.S fuel' =>
      match exec r text with
      | (Some m, r') => whileExec fuel' r' text body (body st m)
      | (None, _) => Returns st
      end
  end.

(** [new URL(s).hostname] *)
Definition newURL_hostname (E : Env) (s : string) : Outcome string :=
  match URL_hostname E s with
  | Some hostname => Returns hostname
  | None => Throws "TypeError: Invalid URL"
  end.

(** [parseTld(raw).domain].  [tldts] is asked about strings; what it does
    with [undefined] is left open here, and counted as a throw. *)
Definition parseTld (E : Env) (raw : Value) : Outcome (option string) :=
  match raw with
  | Some s => Returns (parseTld_domain E s)
  | None => Throws "tldts on undefined"
  end.

Definition safeGetDomainFromUrl (E : Env) (raw : Value) : Outcome (option string) :=
  tryCatch
    (let hasScheme := test schemeRe (toText raw) in
     hostname <- newURL_hostname E
                   (if hasScheme then toText raw else "http://" ++ toText raw) ;;
     Returns (Some (JS.orElse (getDomain E hostname) hostname)))
    (fun _ =>
       domain <- parseTld E raw ;;
       Returns (JS.nonEmpty domain)).

(** [urls.add(u)] on a set of values. *)
Definition Set_add (urls : list Value) (u : Value) : list Value :=
  if existsb (value_eqb u) urls then urls else (urls ++ [u])%list.

Definition extractAllUrls (fuel : nat) (text : string) : Outcome (list Value) :=
  let urls : list Value := [] in
  let plain := map matched (matchAll plainRe text) in
  let urls := fold_left (fun urls u => Set_add urls (Some u)) plain urls in
  urls <- whileExec fuel (mkRegExp mdReg 0) text
            (fun urls m => Set_add urls (group 1 m)) urls ;;
  urls <- whileExec fuel (mkRegExp htmlReg 0) text
            (fun urls m => Set_add urls (group 1 m)) urls ;;
  Returns urls.

Record LinkText : Type := mkLink { display : Value; href : Value }.

Definition extractLinkTextPairs (fuel : nat) (text : string) : Outcome (list LinkText) :=
  let pairs : list LinkText := [] in
  pairs <- whileExec fuel (mkRegExp md 0) text
             (fun pairs m => (pairs ++ [mkLink (group 1 m) (group 2 m)])%list) pairs ;;
  pairs <- whileExec fuel (mkRegExp html 0) text
             (fun pairs m => (pairs ++ [mkLink (group 2 m) (group 1 m)])%list) pairs ;;
  Returns pairs.

(** [s.toLowerCase().trim()] *)
Definition normalizeStr (s : Value) : Outcome string :=
  s' <- receiver s ;; Returns (EmailDetector.normalizeStr s').

Definition urlStep (E : Env) (strict : bool) (st : Acc) (url : Value) : Outcome Acc :=
  domain <- safeGetDomainFromUrl E url ;;
  match domain with
  | None => Returns st
  | Some domain =>
      if JS.truthy domain then Returns (domainRules strict domain st) else Returns st
  end.

Definition linkStep (E : Env) (st : Acc) (p : LinkText) : Outcome Acc :=
  d <- safeGetDomainFromUrl E (href p) ;;
  let d := JS.orElse d EmptyString in
  disp <- normalizeStr (display p) ;;
  if JS.truthy d && JS.truthy disp && negb (JS.includes disp d)
  then Returns
         (fire linkMismatch
            ("Link text (" ++ dqs ++ toText (display p) ++ dqs
               ++ ") does not match destination (" ++ toText (href p) ++ ")") st)
  else Returns st.

(** [detect], in the order of the source.  The lines that read the
    addresses, the keywords, the attachments and the headers call methods
    of strings only and are those of the first embedding. *)
Definition detect (fuel : nat) (E : Env) (input : DetectionInput)
  : Outcome DetectionResult :=
  let st : Acc := ([], 0%Z) in
  let text := EmailDetector.normalizeStr (subject input ++ " " ++ body input) in
  let fromDomain := JS.orElse (emailToDomain E (fromEmail input)) EmptyString in
  let replyToDomain := JS.orElse (emailToDomain E (replyToEmail input)) EmptyString in
  let st := fold_left (keywordStep text) PHISHING_KEYWORDS st in
  urls <- extractAllUrls fuel (body input) ;;
  st <- forOf (urlStep E (strictBrandLookalikes (options input))) urls st ;;
  pairs <- extractLinkTextPairs fuel (body input) ;;
  st <- forOf (linkStep E) pairs st ;;
  let st := fold_left attachmentStep (attachments input) st in
  let st := replyToStep fromDomain replyToDomain st in
  let st := spfStep (authResults input) st in
  let st := freeProviderStep (treatFreeProvidersAsSuspicious (options input))
              fromDomain text st in
  Returns (mkResult (snd st) (fst st)
             (categorize (snd st) (threshold (options input)))).

End Throwing.

(* ================================================================== *)
(** * The same code between calls: the RegExp objects in a store *)
(* ================================================================== *)

(** Of all that [detect] touches, only the four RegExp objects on which it
    loops with [exec] carry state: their [lastIndex].  Here they live in a
    store that is handed from one call to the next, so that what a call
    leaves behind can be told from what the next one reads.  (The other
    regular expressions are used once, by [test], [match] or [replace],
    none of which depends on the [lastIndex] it finds; they stay as in the
    embedding above.) *)
Module Stateful.
Import Regex.
Import Throwing.

(** The RegExp objects there are, by address. *)
Definition Store : Type := list RegExpG.

(** A regular expression literal with the flag g, evaluated: a new object
    with [lastIndex] 0, and its address. *)
Definition newRegExp (r : re) (h : Store) : nat * Store :=
  (List.length h, (h ++ [mkRegExp r 0])%list).

(** The object at address [a] becomes [o]. *)
Fixpoint store (a : nat) (o : RegExpG) (h : Store) : Store :=
  match h, a with
  | [], _ => []
  | _ :: t, O => o :: t
  | x :: t, S a' => x :: store a' o t
  end.

(** [r.exec(text)] where [r] is the object at address [a]. *)
Definition exec (a : nat) (text : string) (h : Store)
  : Outcome (option Match * Store) :=
  match nth_error h a with
  | Some o => Returns (fst (Throwing.exec o text), store a (snd (Throwing.exec o text)) h)
  | None => Throws "ReferenceError"
  end.

(** [while ((m = r.exec(text)) !== null) st = body(st, m)] *)
Fixpoint whileExec {S : Type} (fuel : nat) (a : nat) (text : string)
  (body : S -> Match -> S) (st : S) (h : Store) : Outcome (S * Store) :=
  match fuel with
  | O => OutOfFuel
  | Datatypes.S fuel' =>
      r <- exec a text h ;;
      match fst r with
      | Some m => whileExec fuel' a text body (body st m) (snd r)
      | None => Returns (st, snd r)
      end
  end.

Definition extractAllUrls (fuel : nat) (text : string) (h : Store)
  : Outcome (list Value * Store) :=
  let urls : list Value := [] in
  let plain := map matched (matchAll plainRe text) in
  let urls := fold_left (fun urls u => Set_add urls (Some u)) plain urls in
  let mdReg' := newRegExp mdReg h in
  r <- whileExec fuel (fst mdReg') text
         (fun urls m => Set_add urls (group 1 m)) urls (snd mdReg') ;;
  let htmlReg' := newRegExp htmlReg (snd r) in
  r <- whileExec fuel (fst htmlReg') text
         (fun urls m => Set_add urls (group 1 m)) (fst r) (snd htmlReg') ;;
  Returns r.

Definition extractLinkTextPairs (fuel : nat) (text : string) (h : Store)
  : Outcome (list LinkText * Store) :=
  let pairs : list LinkText := [] in
  let md' := newRegExp md h in
  r <- whileExec fuel (fst md') text
         (fun pairs m => (pairs ++ [mkLink (group 1 m) (group 2 m)])%list) pairs
         (snd md') ;;
  let html' := newRegExp html (snd r) in
  r <- whileExec fuel (fst html') text
         (fun pairs m => (pairs ++ [mkLink (group 2 m) (group 1 m)])%list) (fst r)
         (snd html') ;;
  Returns r.

(** One call of [detect] from the store [h]: its result and the store it
    leaves. *)
Definition detect (fuel : nat) (E : Env) (input : DetectionInput) (h : Store)
  : Outcome (DetectionResult * Store) :=
  let st : Acc := ([], 0%Z) in
  let text := EmailDetector.normalizeStr (subject input ++ " " ++ body input) in
  let fromDomain := JS.orElse (emailToDomain E (fromEmail input)) EmptyString in
  let replyToDomain := JS.orElse (emailToDomain E (replyToEmail input)) EmptyString in
  let st := fold_left (keywordStep text) PHISHING_KEYWORDS st in
  urls <- extractAllUrls fuel (body input) h ;;
  st <- forOf (urlStep E (strictBrandLookalikes (options input))) (fst urls) st ;;
  pairs <- extractLinkTextPairs fuel (body input) (snd urls) ;;
  st <- forOf (linkStep E) (fst pairs) st ;;
  let st := fold_left attachmentStep (attachments input) st in
  let st := replyToStep fromDomain replyToDomain st in
  let st := spfStep (authResults input) st in
  let st := freeProviderStep (treatFreeProvidersAsSuspicious (options input))
              fromDomain text st in
  Returns (mkResult (snd st) (fst st)
             (categorize (snd st) (threshold (options input))),
           snd pairs).

(** Two calls, one after the other: the second starts from the store the
    first leaves. *)
Definition twice (fuel : nat) (E : Env) (first second : DetectionInput) (h : Store)
  : Outcome (DetectionResult * DetectionResult * Store) :=
  r1 <- detect fuel E first h ;;
  r2 <- detect fuel E second (snd r1) ;;
  Returns (fst r1, fst r2, snd r2).

End Stateful.

(** ** Reading the two embeddings together *)

(** The pattern sets group [n] in every match. *)
Fixpoint sets (n : nat) (r : Regex.re) : bool :=
  match r with
  | Regex.Grp i a => (i =? n)%nat || sets n a
  | Regex.Seq a b => sets n a || sets n b
  | Regex.Alt a b => sets n a && sets n b
  | _ => false
  end.

(** Every match of the pattern reads a character. *)
Fixpoint readsOne (r : Regex.re) : bool :=
  match r with
  | Regex.Chr _ => true
  | Regex.Seq a b => readsOne a || readsOne b
  | Regex.Alt a b => readsOne a && readsOne b
  | Regex.Grp _ a => readsOne a
  | _ => false
  end.

(** From [st] the matcher went on to [st']: it read [pre] and took note of
    the groups [new]. *)
Definition went (st st' : Regex.MState) (pre : string) (new : list (nat * string))
  : Prop :=
  Regex.rest st = pre ++ Regex.rest st'
  /\ Regex.pos st' = Regex.pos st + String.length pre
  /\ Regex.caps st' = (new ++ Regex.caps st)%list.

(** Every match of the pattern reads a character of the input. *)
Definition NonEmpty (r : Regex.re) : Prop :=
  forall s p x, Regex.exec_at r s p = Some x ->
    Regex.index x = p
    /\ 1 <= String.length (Regex.matched x) <= String.length s.

(** A link pair of the first embedding, as the pair of values of the
    second. *)
Definition asValues (p : LinkText) : Throwing.LinkText :=
  Throwing.mkLink (Some (display p)) (Some (href p)).



(** ** Reading URLs off a text *)

(** The longest start of [s] made of characters of [p], and what follows
    it. *)
Fixpoint run (p : ascii -> bool) (s : string) : string :=
  match s with
  | String c t => if p c then String c (run p t) else EmptyString
  | EmptyString => EmptyString
  end.

Fixpoint afterRun (p : ascii -> bool) (s : string) : string :=
  match s with
  | String c t => if p c then afterRun p t else s
  | EmptyString => EmptyString
  end.

(** A run of characters of [p] cannot go on into [t]: [t] is empty or
    begins with a character outside [p]. *)
Definition halts (p : ascii -> bool) (t : string) : Prop :=
  match t with
  | EmptyString => True
  | String c _ => p c = false
  end.

(** ** What a reader of the text would call its URLs *)

(** [u] begins with http:// or https://, in any case of the letters, and
    goes on with at least one character, none of them white space or a
    closing parenthesis. *)
Definition httpRun (u : string) : Prop :=
  exists w tail,
    u = w ++ "://" ++ tail
    /\ (JS.toLowerCase w = "http" \/ JS.toLowerCase w = "https")
    /\ tail <> EmptyString
    /\ JS.all_chars url_char tail = true.

(** [raw] begins with http:// or https://, in any case of the letters. *)
Definition beginsWithScheme (raw : string) : Prop :=
  exists w t,
    raw = w ++ "://" ++ t
    /\ (JS.toLowerCase w = "http" \/ JS.toLowerCase w = "https").

(** [s] begins with the plain URL [m], which runs up to white space, a
    closing parenthesis or the end; the URL is what is collected. *)
Definition plainAt (s m v : string) : Prop :=
  v = m /\ exists post, s = m ++ post /\ httpRun m /\ halts url_char post.

(** [s] begins with the Markdown link [m], whose target [v] is an http(s)
    URL. *)
Definition mdAt (s m v : string) : Prop :=
  exists label post,
    m = "[" ++ label ++ "](" ++ v ++ ")"
    /\ s = m ++ post
    /\ label <> EmptyString
    /\ JS.all_chars (Regex.notc (Regex.ch "]")) label = true
    /\ httpRun v.

(** [s] begins with a tag that opens with [<a ], has [attrs] before a
    double-quoted [href] of value [v], and is closed by [>] after [more]. *)
Definition anchorSplit (s tag attrs h v more post : string) : Prop :=
  s = tag ++ attrs ++ h ++ dqs ++ v ++ dqs ++ more ++ ">" ++ post
  /\ JS.toLowerCase tag = "<a "
  /\ JS.all_chars not_gt attrs = true
  /\ JS.toLowerCase h = "href="
  /\ v <> EmptyString
  /\ JS.all_chars not_dq v = true
  /\ JS.all_chars not_gt more = true.

(** [s] begins with the anchor tag [m], and [v] is the value of the last
    [href] of the tag that can be read in this way. *)
Definition anchorAt (s m v : string) : Prop :=
  exists tag attrs h more post,
    anchorSplit s tag attrs h v more post
    /\ m = tag ++ attrs ++ h ++ dqs ++ v ++ dqs ++ more ++ ">"
    /\ forall tag' attrs' h' v' more' post',
         anchorSplit s tag' attrs' h' v' more' post' ->
         String.length attrs' <= String.length attrs.

(** The text read from left to right for the occurrences [occ s m v] (the
    text [s] begins with the occurrence [m], of value [v]): a character at
    which no occurrence begins is passed, an occurrence is taken whole and
    the reading goes on behind it. *)
Inductive Reading (occ : string -> string -> string -> Prop)
  : string -> list string -> Prop :=
| Reading_end : Reading occ EmptyString []
| Reading_pass : forall c s l,
    (forall m v, ~ occ (String c s) m v) ->
    Reading occ s l ->
    Reading occ (String c s) l
| Reading_take : forall m v s l,
    occ (m ++ s) m v ->
    m <> EmptyString ->
    Reading occ s l ->
    Reading occ (m ++ s) (v :: l).

(** Somewhere in the text there is an occurrence of value [v]. *)
Definition occursIn (occ : string -> string -> string -> Prop) (text v : string)
  : Prop :=
  exists pre s m, text = pre ++ s /\ occ s m v.

(** The anchor pattern from [href] on. *)
Definition hrefTail : Regex.re :=
  seqs [Regex.liti "href="; Regex.Chr (Regex.ch dq);
              Regex.Grp 1 (Regex.Plus (Regex.Chr not_dq)); Regex.Chr (Regex.ch dq);
              Regex.Star true (Regex.Chr not_gt); Regex.lit ">"].

(* ================================================================== *)
(** * The other components *)
(* ================================================================== *)

(** Some character of the text is in the class. *)
Fixpoint any_char (p : ascii -> bool) (s : string) : bool :=
  match s with
  | EmptyString => false
  | String c t => p c || any_char p t
  end.

(** The characters of a text, as a class. *)
Definition one_of (chars : string) : ascii -> bool :=
  fun c => any_char (Ascii.eqb c) chars.

(** ** The keyword detector ([EmailDetector] of the short component) *)

Module SimpleEmailDetector.

Definition suspiciousKeywords : list string :=
  ["urgent"; "click here"; "reset password"; "verify"].

(** The body of the [forEach]: [if (text.includes(kw)) score++]. *)
Definition countStep (text : string) (score : Z) (kw : string) : Z :=
  if JS.includes text kw then (score + 1)%Z else score.

Definition score (emailText : string) : Z :=
  let text := JS.toLowerCase emailText in
  fold_left (countStep text) suspiciousKeywords 0%Z.

Definition SUSPICIOUS : string := "⚠️ Suspicious email detected".
Definition OKAY : string := "✅ Email looks okay".

(** What [checkEmail] passes to [setResult]. *)
Definition checkEmail (emailText : string) : string :=
  if (2 <=? score emailText)%Z then SUSPICIOUS else OKAY.

End SimpleEmailDetector.

(** ** The password analyzer *)

Module PasswordSecurityAnalyzer.
Import Regex.

Definition alnum (c : ascii) : bool := JS.is_upper c || JS.is_lower c || JS.is_digit c.

(** [/.{8,}/] *)
Definition atLeast8 : re :=
  EmailDetector.seqs
    [Chr EmailDetector.dot; Chr EmailDetector.dot; Chr EmailDetector.dot;
     Chr EmailDetector.dot; Chr EmailDetector.dot; Chr EmailDetector.dot;
     Chr EmailDetector.dot; Chr EmailDetector.dot; Star true (Chr EmailDetector.dot)].

Record StrengthRule : Type := mkRule { regex : re; label : string }.

Definition rules : list StrengthRule :=
  [ mkRule atLeast8 "8+ characters";
    mkRule (Chr JS.is_upper) "Uppercase";
    mkRule (Chr JS.is_lower) "Lowercase";
    mkRule (Chr JS.is_digit) "Number";
    mkRule (Chr (notc alnum)) "Special character" ].

Definition passed (password : string) : nat :=
  List.length (filter (fun r => test (regex r) password) rules).

(** [passed / rules.length]: the six quotients that can occur are rounded
    to the same numbers as the literals 0.4 and 0.8 they are compared with,
    so the comparisons are those of the exact fractions. *)
Definition score (password : string) : QArith_base.Q :=
  QArith_base.Qmake (Z.of_nat (passed password)) (Pos.of_nat (List.length rules)).

Definition q04 : QArith_base.Q := QArith_base.Qmake 4 10.
Definition q08 : QArith_base.Q := QArith_base.Qmake 8 10.

Definition getBarColor (password : string) : string :=
  if QArith_base.Qle_bool (score password) q04 then "bg-red-500"
  else if QArith_base.Qle_bool (score password) q08 then "bg-yellow-400"
  else "bg-green-500".

(** The label shown beside the meter. *)
Definition strengthLabel (password : string) : string :=
  if QArith_base.Qle_bool (score password) q04 then "Weak"
  else if QArith_base.Qle_bool (score password) q08 then "Medium"
  else "Strong".

Definition charsetSize (password : string) : Z :=
  ((if test (Chr JS.is_lower) password then 26 else 0)
   + (if test (Chr JS.is_upper) password then 26 else 0)
   + (if test (Chr JS.is_digit) password then 10 else 0)
   + (if test (Chr (notc alnum)) password then 32 else 0))%Z.

(** [charsetSize || 1], the base of the key space. *)
Definition keyspaceBase (password : string) : Z :=
  if (charsetSize password =? 0)%Z then 1%Z else charsetSize password.

End PasswordSecurityAnalyzer.

(** ** What the browser gives for a URL *)

(** The fields of a [URL] object the components read. *)
Record URL : Type := mkURL {
  protocol : string;
  hostname : string;
  pathname : string;
  search : string;
  hash : string
}.

(** ** The website detector *)

Module WebsiteDetector.
Import Regex.

Record CheckResult : Type := mkCheck { label : string; passed : bool }.

(** [s.replace(c, rep)] with a text pattern: the first occurrence only. *)
Fixpoint replaceFirst (c : ascii) (rep : string) (s : string) : string :=
  match s with
  | EmptyString => EmptyString
  | String x t => if Ascii.eqb x c then rep ++ t else String x (replaceFirst c rep t)
  end.

(** The class of [invalidChars]: the space, the double quote and the
    characters written out below. *)
Definition invalidClass (c : ascii) : bool :=
  one_of " !@#$%^&*(),;:'?/\|<>[]{}" c || Ascii.eqb c EmailDetector.dq.

Definition invalidChars : re := Chr invalidClass.

Definition digit : re := Chr JS.is_digit.
(** [[A-F0-9]] under the flag i *)
Definition hex (c : ascii) : bool :=
  JS.is_digit c || JS.between 97 102 (JS.lower_char c).

(** [\d{1,3}] *)
Definition digits13 : re := Seq digit (Opt (Seq digit (Opt digit))).
(** [(?:\d{1,3}\.)] *)
Definition octetDot : re := Seq digits13 (lit ".").

(** [/^(?:\d{1,3}\.){3}\d{1,3}$|^\[?[A-F0-9]*:[A-F0-9:]+\]?$/i] *)
Definition ipRegex : re :=
  Alt (EmailDetector.seqs [Bos; octetDot; octetDot; octetDot; digits13; Eos])
      (EmailDetector.seqs
         [Bos; Opt (lit "["); Star true (Chr hex); lit ":";
          Plus (Chr (orc hex (ch ":"))); Opt (lit "]"); Eos]).

Definition INVALID_SUMMARY : string := "❌ Invalid URL format.".

Section WithBrowser.

(** [new URL(url)], [None] when the constructor throws. *)
Variable newURL : string -> option URL.

(** What [validateWebsite] passes to [setResults] and [setSummary].  Past
    the constructor nothing in the body throws, so the outer [catch] of the
    source is never entered. *)
Definition validateWebsite (url : string) : list CheckResult * string :=
  match newURL url with
  | None =>
      ([ mkCheck "Valid URL format" false;
         mkCheck "Starts with http or https" false ],
       INVALID_SUMMARY)
  | Some parsed =>
      let protocol := replaceFirst ":" EmptyString (protocol parsed) in
      let hostname := hostname parsed in
      let checks : list CheckResult := [] in
      let checks := (checks ++ [mkCheck "Valid URL format" true])%list in
      let checks :=
        (checks ++ [mkCheck "Uses http or https protocol"
                      (String.eqb protocol "http" || String.eqb protocol "https")])%list in
      let checks :=
        (checks ++ [mkCheck "Uses secure HTTPS" (String.eqb protocol "https")])%list in
      let checks :=
        (checks ++ [mkCheck "No invalid characters in hostname"
                      (negb (test invalidChars hostname))])%list in
      let checks :=
        (checks ++ [mkCheck "Domain length is reasonable"
                      ((1 <? String.length hostname)%nat
                       && (String.length hostname <=? 253)%nat)])%list in
      let checks :=
        (checks ++ [mkCheck "Domain is not a raw IP address"
                      (negb (test ipRegex hostname))])%list in
      let allPassed := forallb passed checks in
      let summaryMessage :=
        if allPassed then "✅ This website looks legitimate: " ++ hostname
        else "⚠️ This website may be suspicious: " ++ hostname in
      (checks, summaryMessage)
  end.

End WithBrowser.

End WebsiteDetector.

(** ** The URL detector *)

Module URLDetector.
Import Regex.

Definition suspiciousTLDs : list string :=
  ["xyz"; "top"; "club"; "online"; "site"; "info"].

Definition labelChar (c : ascii) : bool :=
  JS.is_lower c || JS.is_upper c || JS.is_digit c || Ascii.eqb c "-".

(** [/[^a-zA-Z0-9-]/] *)
Definition badLabelChar : re := Chr (notc labelChar).
(** [/^-|-$/] *)
Definition hyphenEdge : re := Alt (Seq Bos (lit "-")) (Seq (lit "-") Eos).

(** The loop of [isValidDomain] over the labels, left at the first bad one. *)
Fixpoint labelsLoop (labels : list string) : bool :=
  match labels with
  | [] => true
  | label :: more =>
      if negb (JS.truthy label) then false
      else if test badLabelChar label then false
      else if test hyphenEdge label then false
      else labelsLoop more
  end.

Definition isValidDomain (domain : string) : bool :=
  let labels := JS.split "." domain in
  labelsLoop labels.

(** The characters [invalidChars] of [isValidURLPath] lets pass. *)
Definition urlChar (c : ascii) : bool :=
  JS.is_lower c || JS.is_upper c || JS.is_digit c
  || one_of "-._~:/?#[]@!$&'()*+,;=%" c.

Definition invalidChars : re := Chr (notc urlChar).

Definition checkPart (issues : list string) (part name : string) : list string :=
  if test invalidChars part
  then (issues ++ [(name ++ " contains invalid characters")%string])%list
  else issues.

Definition isValidURLPath (urlObj : URL) : list string :=
  let issues : list string := [] in
  let issues := checkPart issues (pathname urlObj) "Path" in
  let issues := checkPart issues (search urlObj) "Query" in
  let issues := checkPart issues (hash urlObj) "Fragment" in
  issues.

(** [/^https?:\/\//i] *)
Definition schemeRe : re := EmailDetector.schemeRe.

(** What [checkURL] shows: a request to type something, the note that the
    text is no URL, or the messages with the checklist under them. *)
Inductive Outcome : Type :=
| PleaseEnter
| InvalidFormat
| Report (warningMessages : list string) (checklistItems : list string).

Definition LEGITIMATE : string := "✅ This URL looks legitimate: ".

Section WithLibraries.

Variable newURL : string -> option URL.
(** [getDomain] of [tldts], here on the whole URL. *)
Variable getDomain : string -> option string.
(** [punycode.toASCII] and [punycode.toUnicode] *)
Variable toASCII : string -> string.
Variable toUnicode : string -> string.

(** [domain.split(".").pop()] *)
Definition lastLabel (domain : string) : string :=
  last (JS.split "." domain) EmptyString.

Definition domainChecks (domain : string) (st : list string * list string)
  : list string * list string :=
  let asciiDomain := toASCII domain in
  let unicodeDomain := toUnicode domain in
  let st :=
    if negb (isValidDomain domain)
    then ((fst st ++ ["❌ Domain contains invalid characters or invalid hyphen placement"])%list,
          (snd st ++ ["Domain has invalid characters or hyphen issues"])%list)
    else st in
  let st :=
    if negb (String.eqb asciiDomain domain)
    then ((fst st ++ [("⚠️ Possible IDN homograph detected: " ++ unicodeDomain
                        ++ " (" ++ asciiDomain ++ ")")%string])%list,
          (snd st ++ ["Domain may use deceptive Unicode characters (IDN homograph)"])%list)
    else st in
  let tld := lastLabel domain in
  if JS.truthy tld && existsb (String.eqb tld) suspiciousTLDs
  then ((fst st ++ [("⚠️ Suspicious top-level domain: ." ++ tld)%string])%list,
        (snd st ++ ["Suspicious TLD detected"])%list)
  else st.

Definition pushIssue (st : list string * list string) (issue : string)
  : list string * list string :=
  ((fst st ++ [("❌ " ++ issue)%string])%list, (snd st ++ [issue])%list).

Definition checkURL (input : string) : Outcome :=
  let trimmedInput := JS.trim input in
  if negb (JS.truthy trimmedInput) then PleaseEnter
  else
    let url := if negb (test schemeRe trimmedInput)
               then "https://" ++ trimmedInput else trimmedInput in
    match newURL url with
    | None => InvalidFormat
    | Some urlObj =>
        let domain := JS.nonEmpty (getDomain url) in
        let st : list string * list string := ([], []) in
        let st :=
          match domain with
          | None => (["❌ Could not extract domain"], ["No valid domain found"])
          | Some domain => domainChecks domain st
          end in
        let pathIssues := isValidURLPath urlObj in
        let st := fold_left pushIssue pathIssues st in
        let st :=
          match fst st, domain with
          | [], Some _ =>
              ((fst st ++ [(LEGITIMATE ++ url)%string])%list,
               (snd st ++ ["Valid URL format"; "No suspicious TLD detected";
                           "No IDN homograph issues";
                           "No unusual characters in domain or path/query/fragment"])%list)
          | _, _ => st
          end in
        Report (fst st) (snd st)
    end.

End WithLibraries.

End URLDetector.

(** ** The quiz *)

Module QuizShell.

Record Question : Type := mkQuestion {
  id : nat;
  prompt : string;
  choices : list string;
  answer : nat;
  explanation : string
}.

(** The five [useState] values of [QuizShell]. *)
Record State : Type := mkState {
  index : nat;
  selected : option nat;
  score : nat;
  showExplanation : bool;
  finished : bool
}.

Definition initial : State := mkState 0 None 0 false false.

(** A click on choice [i], on Submit, on Next or on Restart. *)
Inductive Event : Type := Choose (i : nat) | Submit | Next | Restart.

Section WithQuestions.

Variable questions : list Question.

(** [questions[index]], undefined outside the list. *)
Definition q (s : State) : option Question := nth_error questions (index s).

(** The handler of a choice button: [!showExplanation && setSelected(i)]. *)
Definition choose (i : nat) (s : State) : State :=
  if negb (showExplanation s)
  then mkState (index s) (Some i) (score s) (showExplanation s) (finished s)
  else s.

(** [submit]; [None] stands for the TypeError of reading [answer] from an
    undefined question. *)
Definition submit (s : State) : option State :=
  match selected s with
  | None => Some s
  | Some sel =>
      match q s with
      | None => None
      | Some question =>
          let correct := (sel =? answer question)%nat in
          let score' := if correct then S (score s) else score s in
          Some (mkState (index s) (selected s) score' true (finished s))
      end
  end.

Definition next (s : State) : State :=
  if (List.length questions <=? index s + 1)%nat
  then mkState (index s) None (score s) false true
  else mkState (index s + 1) None (score s) false (finished s).

Definition restart (s : State) : State := mkState 0 None 0 false false.

(** Which clicks the rendered page allows: the question view shows the
    choices of the current question, Submit (disabled without a selection
    or once the explanation shows) and Next (disabled until then); the
    final view shows Restart only. *)
Definition enabled (e : Event) (s : State) : bool :=
  match e with
  | Choose i =>
      negb (finished s)
      && match q s with
         | Some question => (i <? List.length (choices question))%nat
         | None => false
         end
  | Submit =>
      negb (finished s)
      && negb (match selected s with None => true | Some _ => false end
               || showExplanation s)
  | Next => negb (finished s) && showExplanation s
  | Restart => finished s
  end.

(** One click; a click the page does not allow changes nothing. *)
Definition step (s : State) (e : Event) : option State :=
  if enabled e s then
    match e with
    | Choose i => Some (choose i s)
    | Submit => submit s
    | Next => Some (next s)
    | Restart => Some (restart s)
    end
  else Some s.

Fixpoint run (s : State) (es : list Event) : option State :=
  match es with
  | [] => Some s
  | e :: more =>
      match step s e with
      | Some s' => run s' more
      | None => None
      end
  end.

(** What the quiz keeps true between clicks. *)
Definition Inv (s : State) : Prop :=
  (index s < List.length questions)%nat
  /\ (score s <= index s + (if showExplanation s || finished s then 1 else 0))%nat
  /\ (showExplanation s = true -> selected s <> None).

End WithQuestions.

(** The clicks of a player who picks the right answer every time. *)
Definition perfectClicks (questions : list Question) : list Event :=
  flat_map (fun question => [Choose (answer question); Submit; Next]) questions.

Definition urlQuestions : list Question :=
  [ mkQuestion 1
      "Which URL is most likely malicious or a typosquat?"
      [ "https://accounts.google.com"; "https://goog1e.com";
        "https://google.com/login"; "https://mail.google.com" ]
      1
      "'goog1e.com' replaces 'l' with '1' and is a typical typosquatting domain. Always inspect the domain name carefully (the right-most registered domain is important).";
    mkQuestion 2
      "You see a long URL with many subdomains: 'https://secure.paypal.accounts.verify.example.com'. What is the effective registered domain?"
      [ "secure.paypal.accounts.verify.example.com";
        "paypal.accounts.verify.example.com"; "example.com"; "verify.example.com" ]
      2
      "The effective registered domain (the root) is 'example.com'. Subdomains can be arbitrarily named to impersonate services. Always pay attention to the registered domain (the last two labels typically)." ].

End QuizShell.

(** The reasons of a list that report the From against Reply-To rule. *)
Definition mismatchReasons (l : list string) : list string :=
  filter (fun s => match ruleOfReason s with
                   | Some replyToMismatch => true
                   | _ => false
                   end) l.

(** ** Readings of the other components' checks *)

(** One to three digits. *)
Definition octet (s : string) : bool :=
  (1 <=? String.length s)%nat && (String.length s <=? 3)%nat
  && JS.all_chars JS.is_digit s.

(** A label [isValidDomain] lets pass. *)
Definition goodLabel (l : string) : bool :=
  JS.truthy l && JS.all_chars URLDetector.labelChar l
  && negb (JS.prefix "-" l) && negb (JS.endsWith l "-").

(** The verdict lines that call the input legitimate begin with this sign. *)
Definition legitimate (line : string) : bool := JS.prefix "✅" line.

(** The checklist under a legitimate URL. *)
Definition LEGITIMATE_CHECKLIST : list string :=
  ["Valid URL format"; "No suspicious TLD detected"; "No IDN homograph issues";
   "No unusual characters in domain or path/query/fragment"].

(** ** The history of a quiz *)

(** What was submitted since the quiz was last started, and how much of it
    was right. *)
Record Tally : Type := mkTally { submitted : nat; correct : nat }.

(** What one click adds to the tally.  A Submit that the page allows is one
    submission, and one right answer when the selected choice is the answer
    of the question on display; a Restart that the page allows starts a new
    count; no other click counts. *)
Definition tallyStep (questions : list QuizShell.Question) (s : QuizShell.State)
  (t : Tally) (e : QuizShell.Event) : Tally :=
  if QuizShell.enabled questions e s then
    match e with
    | QuizShell.Submit =>
        match QuizShell.selected s, QuizShell.q questions s with
        | Some sel, Some question =>
            mkTally (S (submitted t))
                    (if (sel =? QuizShell.answer question)%nat
                     then S (correct t) else correct t)
        | _, _ => t
        end
    | QuizShell.Restart => mkTally 0 0
    | _ => t
    end
  else t.

(** The tally after a list of clicks. *)
Fixpoint tally (questions : list QuizShell.Question) (s : QuizShell.State)
  (t : Tally) (clicks : list QuizShell.Event) : Tally :=
  match clicks with
  | [] => t
  | e :: more =>
      match QuizShell.step questions s e with
      | Some s' => tally questions s' (tallyStep questions s t e) more
      | None => t
      end
  end.

(** The questions the state accounts for: those before the one on display,
    and that one once it is submitted. *)
Definition accountedFor (s : QuizShell.State) : nat :=
  QuizShell.index s
  + (if QuizShell.showExplanation s || QuizShell.finished s then 1 else 0).

(** The state and the tally go together. *)
Definition Agree (s : QuizShell.State) (t : Tally) : Prop :=
  QuizShell.score s = correct t
  /\ (correct t <= submitted t)%nat
  /\ submitted t = accountedFor s.

(* ================================================================== *)
(** * Lemmas on the accumulators *)
(* ================================================================== *)

Lemma fold_left_preserves {A : Type} (P : Acc -> Prop) (step : Acc -> A -> Acc) :
  (forall st x, P st -> P (step st x)) ->
  forall l st, P st -> P (fold_left step l st).
Proof.
  intros Hstep l; induction l as [|x l IH]; intros st Hst; simpl; auto.
Qed.

Lemma total_app l1 l2 : total (l1 ++ l2) = (total l1 + total l2)%Z.
Proof.
  induction l1 as [|x l1 IH]; simpl; [reflexivity|]. rewrite IH. lia.
Qed.

Lemma weight_positive r : (0 < WEIGHTS r)%Z.
Proof. destruct r; reflexivity. Qed.

Lemma pass_positive r : 1 <= pass r.
Proof. destruct r; simpl; lia. Qed.

Lemma sorted_snoc (l : list nat) (x : nat) :
  StronglySorted le l -> Forall (fun y => y <= x) l -> StronglySorted le (l ++ [x]).
Proof.
  induction 1 as [|a l Hs IH Ha]; intros Hall; simpl.
  - repeat constructor.
  - inversion Hall; subst. constructor; [auto|].
    apply Forall_app; split; [assumption|]. constructor; [assumption|constructor].
Qed.

Lemma Inv_empty : Inv 0 empty.
Proof. repeat split; simpl; constructor. Qed.

Lemma Inv_weaken k k' st : k <= k' -> Inv k st -> Inv k' st.
Proof.
  intros Hk (Hs & Ho & Hall). repeat split; auto.
  eapply Forall_impl; [|exact Hall]. simpl; intros; lia.
Qed.

Lemma Inv_fire k r msg st :
  ruleOfReason msg = Some r -> pass r = k -> Inv k st -> Inv k (fire r msg st).
Proof.
  intros Hr Hp (Hs & Ho & Hall). unfold fire; simpl.
  assert (Hpm : passOfReason msg = k) by (unfold passOfReason; rewrite Hr; exact Hp).
  repeat split; simpl.
  - rewrite total_app, Hs. simpl. unfold weightOfReason. rewrite Hr. lia.
  - rewrite map_app. simpl. apply sorted_snoc; [assumption|].
    apply Forall_map. eapply Forall_impl; [|exact Hall]. simpl; intros; lia.
  - apply Forall_app; split; [assumption|]. constructor; [|constructor].
    rewrite Hpm. subst k. pose proof (pass_positive r). lia.
Qed.

(** The rule of a reason whose first characters are known. *)
Ltac rule_of_reason := vm_compute; reflexivity.

Lemma Inv_keywordStep text st kw : Inv 1 st -> Inv 1 (keywordStep text st kw).
Proof.
  intros H. unfold keywordStep. destruct (JS.includes text kw); [|assumption].
  apply Inv_fire; [rule_of_reason|reflexivity|assumption].
Qed.

Lemma Inv_brandLoop domain brands st : Inv 2 st -> Inv 2 (brandLoop domain brands st).
Proof.
  intros H. induction brands as [|b bs IH]; simpl; [assumption|].
  destruct (looksLikeBrand domain b); [|assumption].
  apply Inv_fire; [rule_of_reason|reflexivity|assumption].
Qed.

Lemma Inv_domainRules strict domain st : Inv 2 st -> Inv 2 (domainRules strict domain st).
Proof.
  intros H. unfold domainRules.
  repeat match goal with
         | |- context [if ?b then _ else _] => destruct b
         end;
    repeat first [ apply Inv_brandLoop | apply Inv_fire; [rule_of_reason|reflexivity|] | assumption ].
Qed.

Lemma Inv_urlStep E strict st url : Inv 2 st -> Inv 2 (urlStep E strict st url).
Proof.
  intros H. unfold urlStep. destruct (safeGetDomainFromUrl E url) as [d|]; [|assumption].
  destruct (JS.truthy d); [apply Inv_domainRules|]; assumption.
Qed.

Lemma Inv_linkStep E st p : Inv 3 st -> Inv 3 (linkStep E st p).
Proof.
  intros H. unfold linkStep.
  match goal with |- context [if ?b then _ else _] => destruct b end; [|assumption].
  apply Inv_fire; [rule_of_reason|reflexivity|assumption].
Qed.

Lemma Inv_attachmentStep st file : Inv 4 st -> Inv 4 (attachmentStep st file).
Proof.
  intros H. unfold attachmentStep.
  repeat match goal with
         | |- context [if ?b then _ else _] => destruct b
         end;
    repeat first [ apply Inv_fire; [rule_of_reason|reflexivity|] | assumption ].
Qed.

Lemma Inv_replyToStep f r st : Inv 5 st -> Inv 5 (replyToStep f r st).
Proof.
  intros H. unfold replyToStep.
  match goal with |- context [if ?b then _ else _] => destruct b end; [|assumption].
  apply Inv_fire; [rule_of_reason|reflexivity|assumption].
Qed.

Lemma Inv_spfStep ar st : Inv 6 st -> Inv 6 (spfStep ar st).
Proof.
  intros H. unfold spfStep.
  repeat match goal with
         | |- context [if ?b then _ else _] => destruct b
         end; try assumption.
  apply Inv_fire; [rule_of_reason|reflexivity|assumption].
Qed.

Lemma Inv_freeProviderStep t f text st : Inv 7 st -> Inv 7 (freeProviderStep t f text st).
Proof.
  intros H. unfold freeProviderStep.
  repeat match goal with
         | |- context [if ?b then _ else _] => destruct b
         end; try assumption.
  apply Inv_fire; [rule_of_reason|reflexivity|assumption].
Qed.

Lemma runRules_parts E i :
  runRules E i =
    freeProviderStep (treatFreeProvidersAsSuspicious (options i))
      (JS.orElse (emailToDomain E (fromEmail i)) EmptyString)
      (normalizeStr (subject i ++ " " ++ body i))
      (spfStep (authResults i)
         (replyToStep (JS.orElse (emailToDomain E (fromEmail i)) EmptyString)
                      (JS.orElse (emailToDomain E (replyToEmail i)) EmptyString)
                      (bodyRules E i))).
Proof. reflexivity. Qed.

Lemma Inv_bodyRules E i : Inv 4 (bodyRules E i).
Proof.
  unfold bodyRules.
  apply fold_left_preserves; [apply Inv_attachmentStep|].
  apply (Inv_weaken 3); [lia|].
  apply fold_left_preserves; [apply Inv_linkStep|].
  apply (Inv_weaken 2); [lia|].
  apply fold_left_preserves; [apply Inv_urlStep|].
  apply (Inv_weaken 1); [lia|].
  apply fold_left_preserves; [apply Inv_keywordStep|].
  apply (Inv_weaken 0); [lia|]. apply Inv_empty.
Qed.

Lemma Inv_runRules E i : Inv 7 (runRules E i).
Proof.
  rewrite runRules_parts.
  apply Inv_freeProviderStep. apply (Inv_weaken 6); [lia|].
  apply Inv_spfStep. apply (Inv_weaken 5); [lia|].
  apply Inv_replyToStep. apply (Inv_weaken 4); [lia|].
  apply Inv_bodyRules.
Qed.

Lemma total_zero_iff l :
  Forall (fun s => 1 <= passOfReason s) l -> (total l = 0%Z <-> l = []).
Proof.
  intros Hall. split; [|intros ->; reflexivity].
  destruct l as [|x l]; [reflexivity|]. intros Ht. exfalso.
  inversion Hall as [|? ? Hx Hl]; subst.
  assert (Hnn : forall l', (0 <= total l')%Z).
  { induction l' as [|y l' IH]; simpl; [lia|].
    unfold weightOfReason. destruct (ruleOfReason y) as [r|].
    - pose proof (weight_positive r). lia.
    - lia. }
  simpl in Ht. unfold passOfReason, weightOfReason in *.
  destruct (ruleOfReason x) as [r|]; [|lia].
  pose proof (weight_positive r). pose proof (Hnn l). lia.
Qed.

(* ================================================================== *)
(** * Rules are independent: every step is additive *)
(* ================================================================== *)

Lemma plus_empty_r st : plus st empty = st.
Proof.
  destruct st as [l z]. unfold plus, empty; simpl. rewrite app_nil_r. f_equal. lia.
Qed.

Lemma plus_empty_l st : plus empty st = st.
Proof. destruct st as [l z]. reflexivity. Qed.

Lemma plus_assoc a b c : plus (plus a b) c = plus a (plus b c).
Proof.
  unfold plus; simpl. rewrite app_assoc. f_equal. lia.
Qed.

Lemma fire_plus r msg st : fire r msg st = plus st (fire r msg empty).
Proof. unfold fire, plus, empty; simpl. reflexivity. Qed.

Lemma additive_id : additive (fun st => st).
Proof. intros st. symmetry. apply plus_empty_r. Qed.

Lemma additive_compose f g : additive f -> additive g -> additive (fun st => g (f st)).
Proof.
  intros Hf Hg st. rewrite (Hg (f st)), (Hf st), (Hg (f empty)).
  rewrite plus_assoc. reflexivity.
Qed.

Lemma additive_fire_after f r msg : additive f -> additive (fun st => fire r msg (f st)).
Proof.
  intros Hf. apply (additive_compose f (fire r msg)); [assumption|].
  intros st. apply fire_plus.
Qed.

Lemma additive_fold {A : Type} (step : Acc -> A -> Acc) :
  (forall x, additive (fun st => step st x)) ->
  forall l, additive (fun st => fold_left step l st).
Proof.
  intros Hstep l. induction l as [|x l IH]; simpl.
  - apply additive_id.
  - apply (additive_compose (fun st => step st x) (fun st => fold_left step l st)); auto.
Qed.

Lemma additive_brandLoop domain brands : additive (fun st => brandLoop domain brands st).
Proof.
  induction brands as [|b bs IH]; simpl.
  - apply additive_id.
  - destruct (looksLikeBrand domain b); [|exact IH].
    apply (additive_fire_after (fun st => st)). apply additive_id.
Qed.

(** Split the conditions of a step, then read it as fired rules in a row. *)
Ltac split_conditions :=
  cbv zeta;
  repeat match goal with
         | |- context [if ?b then _ else _] => destruct b
         end.

Ltac additive_chain :=
  repeat first [ apply additive_id
               | apply additive_fire_after
               | apply (additive_compose _ (fun st => brandLoop _ _ st));
                 [|apply additive_brandLoop] ].

Lemma additive_keywordStep text kw : additive (fun st => keywordStep text st kw).
Proof. unfold keywordStep. split_conditions; additive_chain. Qed.

Lemma additive_domainRules strict domain : additive (fun st => domainRules strict domain st).
Proof. unfold domainRules. split_conditions; additive_chain. Qed.

Lemma additive_urlStep E strict url : additive (fun st => urlStep E strict st url).
Proof.
  unfold urlStep. destruct (safeGetDomainFromUrl E url) as [d|]; [|apply additive_id].
  destruct (JS.truthy d); [apply additive_domainRules|apply additive_id].
Qed.

Lemma additive_linkStep E p : additive (fun st => linkStep E st p).
Proof. unfold linkStep. split_conditions; additive_chain. Qed.

Lemma additive_attachmentStep file : additive (fun st => attachmentStep st file).
Proof. unfold attachmentStep. split_conditions; additive_chain. Qed.

Lemma additive_replyToStep f r : additive (fun st => replyToStep f r st).
Proof. unfold replyToStep. split_conditions; additive_chain. Qed.

Lemma additive_spfStep ar : additive (fun st => spfStep ar st).
Proof. unfold spfStep. split_conditions; additive_chain. Qed.

Lemma additive_freeProviderStep t f text : additive (fun st => freeProviderStep t f text st).
Proof. unfold freeProviderStep. split_conditions; additive_chain. Qed.

(* ================================================================== *)
(** * The matcher on a literal pattern *)
(* ================================================================== *)

Lemma includes_empty inp : JS.includes inp EmptyString = true.
Proof. destruct inp; reflexivity. Qed.

Lemma ascii_eqb_sym a b : Ascii.eqb a b = Ascii.eqb b a.
Proof.
  destruct (Ascii.eqb_spec a b) as [->|Hab].
  - symmetry. apply Ascii.eqb_refl.
  - symmetry. apply Ascii.eqb_neq. congruence.
Qed.

(** A literal matches at a state exactly when it stands at the start of the
    rest of the input (for a continuation that accepts). *)
Lemma m_lit_prefix s :
  forall k st, (forall st', k st' <> None) ->
    (Regex.m (Regex.lit s) k st <> None <-> JS.prefix s (Regex.rest st) = true).
Proof.
  induction s as [|c s IH]; intros k st Hk.
  - simpl. split; [reflexivity|]. intros _. apply Hk.
  - destruct s as [|c' s].
    + simpl. destruct (Regex.rest st) as [|x t]; [split; congruence|].
      unfold Regex.ch. rewrite (ascii_eqb_sym c x).
      destruct (Ascii.eqb x c); simpl; [|split; congruence].
      split; [reflexivity|]. intros _. apply Hk.
    + change (Regex.lit (String c (String c' s)))
        with (Regex.Seq (Regex.Chr (Regex.ch c)) (Regex.lit (String c' s))).
      cbn [Regex.m]. destruct (Regex.rest st) as [|x t]; [simpl; split; congruence|].
      unfold Regex.ch at 1. cbn [JS.prefix]. rewrite (ascii_eqb_sym c x).
      destruct (Ascii.eqb x c); cbn [andb]; [|split; congruence].
      rewrite (IH k _ Hk). cbn [Regex.rest]. reflexivity.
Qed.

Lemma test_lit_includes s x : Regex.test (Regex.lit s) x = JS.includes x s.
Proof.
  unfold Regex.test, Regex.exec. generalize 0 as p.
  induction x as [|c x IH]; intros p.
  - cbn [Regex.search_from JS.includes]. unfold Regex.exec_at.
    pose proof (m_lit_prefix s Some (Regex.mkM p EmptyString [])) as H.
    cbn [Regex.rest] in H.
    destruct (Regex.m (Regex.lit s) Some (Regex.mkM p EmptyString [])) eqn:Hm;
      destruct (JS.prefix s EmptyString) eqn:Hp; simpl; try reflexivity.
    + exfalso. assert (Some m <> None) as Hn by congruence.
      apply H in Hn; [congruence|congruence].
    + exfalso. apply (proj2 (H ltac:(congruence))); reflexivity.
  - cbn [Regex.search_from JS.includes]. unfold Regex.exec_at.
    pose proof (m_lit_prefix s Some (Regex.mkM p (String c x) [])) as H.
    cbn [Regex.rest] in H.
    destruct (Regex.m (Regex.lit s) Some (Regex.mkM p (String c x) [])) eqn:Hm;
      destruct (JS.prefix s (String c x)) eqn:Hp; simpl; try reflexivity.
    + exfalso. assert (Some m <> None) as Hn by congruence.
      apply H in Hn; [congruence|congruence].
    + exfalso. apply (proj2 (H ltac:(congruence))); reflexivity.
    + apply IH.
Qed.

(* ================================================================== *)
(** * The embedding at work *)
(* ================================================================== *)

Example extractAllUrls_sample :
  extractAllUrls
    ("see [x](http://a.b/c) and HTTPS://q.r. <a class=k href=" ++ dqs ++ "foo.org"
       ++ dqs ++ ">hi</a>")
  = ["http://a.b/c"; "HTTPS://q.r."; "foo.org"].
Proof. vm_compute. reflexivity. Qed.

Example extractLinkTextPairs_sample :
  extractLinkTextPairs
    ("see [x](http://a.b/c) and HTTPS://q.r. <a class=k href=" ++ dqs ++ "foo.org"
       ++ dqs ++ ">hi</a>")
  = [mkLink "x" "http://a.b/c"; mkLink "hi" "foo.org"].
Proof. vm_compute. reflexivity. Qed.

Example emailToDomain_sample :
  emailToDomain Tldts.env "Bob <bob@Mail.Example.com>" = Some "example.com"
  /\ emailToDomain Tldts.env "a@b c@d.com>" = Some "b"
  /\ emailToDomain Tldts.env "no address" = None.
Proof. repeat split; vm_compute; reflexivity. Qed.

Example attachmentStep_sample :
  attachmentStep empty "Report.PDF.exe"
  = (["Dangerous attachment: Report.PDF.exe"; "Double-extension trick: Report.PDF.exe"], 10%Z)
  /\ attachmentStep empty "notes.txt" = empty
  /\ attachmentStep empty "  " = empty.
Proof. repeat split; vm_compute; reflexivity. Qed.

Example looksLikeBrand_sample :
  looksLikeBrand "paypal.com.cn" "paypal.com" = true
  /\ looksLikeBrand "pay-pal.com" "paypal.com" = true
  /\ looksLikeBrand "paypa1.com" "paypal.com" = false
  /\ looksLikeBrand "example.org" "paypal.com" = false.
Proof. repeat split; vm_compute; reflexivity. Qed.

Example detect_sample :
  detect Tldts.env
    (mkInput EmptyString "visit http://paypal.com.cn/login" "it@gmail.com" EmptyString
             EmptyString [] (mkOptions true true 7%Z))
  = mkResult 6
      [ "Brand lookalike detected: paypal.com.cn ~ paypal.com";
        "Corporate-sounding email sent from free provider (gmail.com)" ]
      LikelySafe.
Proof. vm_compute. reflexivity. Qed.

(* ================================================================== *)
(** * The bound on the iterations of a star loses nothing *)
(* ================================================================== *)

Lemma reads_refl st : reads st st.
Proof. split; lia. Qed.

Lemma reads_trans a b c : reads a b -> reads b c -> reads a c.
Proof. intros [H1 H2] [H3 H4]. split; lia. Qed.

(** The matcher calls its continuation only on states further in the
    input. *)
Lemma m_ext r :
  forall k k' st,
    (forall st', reads st st' -> k st' = k' st') ->
    Regex.m r k st = Regex.m r k' st.
Proof.
  induction r as [p| |a IHa b IHb|a IHa b IHb|g a IHa|n a IHa| |];
    intros k k' st Hk; cbn [Regex.m].
  - destruct st as [ps [|c t] cs]; cbn [Regex.rest Regex.pos Regex.caps]; [reflexivity|].
    destruct (p c); [|reflexivity]. apply Hk. split; simpl; lia.
  - apply Hk, reads_refl.
  - apply IHa. intros st' Hst'. apply IHb. intros st'' Hst''.
    apply Hk. exact (reads_trans _ _ _ Hst' Hst'').
  - rewrite (IHa k k' st Hk), (IHb k k' st Hk). reflexivity.
  - generalize (S (String.length (Regex.rest st))). intros fuel.
    assert (Hgen : forall st1, reads st st1 ->
               Regex.star_loop g (Regex.m a) k fuel st1
               = Regex.star_loop g (Regex.m a) k' fuel st1).
    { induction fuel as [|f IHf]; intros st1 H1; cbn [Regex.star_loop].
      - apply Hk, H1.
      - cbv zeta.
        rewrite (IHa (fun st' => if (Regex.pos st1 <? Regex.pos st')%nat
                                 then Regex.star_loop g (Regex.m a) k f st' else None)
                     (fun st' => if (Regex.pos st1 <? Regex.pos st')%nat
                                 then Regex.star_loop g (Regex.m a) k' f st' else None)
                     st1).
        + rewrite (Hk st1 H1). reflexivity.
        + intros st' Hst'. destruct (Regex.pos st1 <? Regex.pos st')%nat; [|reflexivity].
          apply IHf. exact (reads_trans _ _ _ H1 Hst'). }
    apply Hgen, reads_refl.
  - apply IHa. intros st' Hst'. apply Hk.
    destruct Hst' as [H1 H2]. split; simpl; lia.
  - destruct (Regex.pos st =? 0)%nat; [apply Hk, reads_refl|reflexivity].
  - destruct (Regex.rest st); [apply Hk, reads_refl|reflexivity].
Qed.

(** Any number of iterations above the length of the rest gives the result
    of the bound the matcher uses. *)
Lemma star_fuel_enough g a k :
  forall fuel1 fuel2 st,
    String.length (Regex.rest st) < fuel1 ->
    String.length (Regex.rest st) < fuel2 ->
    Regex.star_loop g (Regex.m a) k fuel1 st = Regex.star_loop g (Regex.m a) k fuel2 st.
Proof.
  induction fuel1 as [|f1 IH]; intros fuel2 st H1 H2; [lia|].
  destruct fuel2 as [|f2]; [lia|]. cbn [Regex.star_loop]. cbv zeta.
  rewrite (m_ext a
             (fun st' => if (Regex.pos st <? Regex.pos st')%nat
                         then Regex.star_loop g (Regex.m a) k f1 st' else None)
             (fun st' => if (Regex.pos st <? Regex.pos st')%nat
                         then Regex.star_loop g (Regex.m a) k f2 st' else None)
             st); [reflexivity|].
  intros st' [Hsum Hlen].
  destruct (Regex.pos st <? Regex.pos st')%nat eqn:Hlt; [|reflexivity].
  apply Nat.ltb_lt in Hlt. apply IH; lia.
Qed.

Lemma star_unbounded g a k st fuel :
  String.length (Regex.rest st) < fuel ->
  Regex.m (Regex.Star g a) k st = Regex.star_loop g (Regex.m a) k fuel st.
Proof.
  intros H. cbn [Regex.m]. apply star_fuel_enough; lia.
Qed.

(* ================================================================== *)
(** * The category, the score as a sum *)
(* ================================================================== *)

(** C1. The category [detect] returns is Suspicious when the score is at
    least twice the threshold of the options, otherwise Needs Review when the
    score is at least the threshold, otherwise Likely Safe; the threshold is
    the one the caller supplies ([analyze] passes the value of the form), and
    the form starts at 7. *)
Theorem detect_category_by_threshold (E : Env) (i : DetectionInput) :
  let s := score (detect E i) in
  let t := threshold (options i) in
  ((2 * t <= s)%Z -> category (detect E i) = Suspicious)
  /\ ((s < 2 * t)%Z -> (t <= s)%Z -> category (detect E i) = NeedsReview)
  /\ ((s < 2 * t)%Z -> (s < t)%Z -> category (detect E i) = LikelySafe)
  /\ (forall f, threshold (options (inputOf f)) = f_threshold f)
  /\ f_threshold initialForm = 7%Z.
Proof.
  cbv zeta. unfold detect, categorize; cbn [score category].
  repeat split; try reflexivity; intros;
    repeat match goal with
           | |- context [(?a <=? ?b)%Z] => destruct (Z.leb_spec a b)
           end; try reflexivity; lia.
Qed.

Lemma score_total_of_reasons (E : Env) (i : DetectionInput) :
  score (detect E i) = total (reasons (detect E i))
  /\ StronglySorted le (map passOfReason (reasons (detect E i)))
  /\ Forall (fun s => 1 <= passOfReason s <= 7) (reasons (detect E i)).
Proof. exact (Inv_runRules E i). Qed.

(** C6. The score [detect] returns is the sum of the weights of the rules
    behind the reasons it returns, every reason is the reason of a rule, the
    reasons stand in the order of the passes (keywords, URL domains, link
    texts, attachments, From against Reply-To, SPF, free provider), and the
    score is 0 exactly when there is no reason. *)
Theorem detect_score_is_sum_of_fired_weights (E : Env) (i : DetectionInput) :
  score (detect E i) = total (reasons (detect E i))
  /\ Forall (fun s => exists r, ruleOfReason s = Some r) (reasons (detect E i))
  /\ StronglySorted le (map passOfReason (reasons (detect E i)))
  /\ (score (detect E i) = 0%Z <-> reasons (detect E i) = []).
Proof.
  destruct (Inv_runRules E i) as (Hs & Ho & Hall).
  unfold detect; cbn [score reasons].
  repeat split.
  - exact Hs.
  - eapply Forall_impl; [|exact Hall]. simpl. intros s Hp.
    unfold passOfReason in Hp. destruct (ruleOfReason s) as [r|]; [eauto|lia].
  - exact Ho.
  - rewrite Hs. apply total_zero_iff.
    eapply Forall_impl; [|exact Hall]. simpl; intros; lia.
  - rewrite Hs. apply total_zero_iff.
    eapply Forall_impl; [|exact Hall]. simpl; intros; lia.
Qed.

(* ================================================================== *)
(** * The SPF rule *)
(* ================================================================== *)

Lemma truthy_iff s : JS.truthy s = true <-> s <> EmptyString.
Proof. destruct s; simpl; split; congruence. Qed.

(** The accumulators when the SPF rule is reached. *)
Lemma Inv_beforeSpf E i :
  Inv 5 (replyToStep (JS.orElse (emailToDomain E (fromEmail i)) EmptyString)
                     (JS.orElse (emailToDomain E (replyToEmail i)) EmptyString)
                     (bodyRules E i)).
Proof.
  apply Inv_replyToStep. apply (Inv_weaken 4); [lia|]. apply Inv_bodyRules.
Qed.

Lemma freeProvider_reasons t f text :
  Forall (fun s => ruleOfReason s = Some freeProviderAsCorp)
         (fst (freeProviderStep t f text empty)).
Proof.
  unfold freeProviderStep. split_conditions; simpl; repeat constructor.
Qed.

Lemma spfStep_fires ar st :
  spfStep ar st =
    if JS.truthy ar && negb (JS.includes (JS.toLowerCase ar) "spf=pass")
    then fire spfFailOrMissing SPF_REASON st else st.
Proof.
  unfold spfStep, spfRe. rewrite test_lit_includes.
  destruct (JS.truthy ar); simpl; reflexivity.
Qed.

Lemma no_spf_before k st :
  k <= 5 -> Inv k st ->
  Forall (fun s => ruleOfReason s <> Some spfFailOrMissing) (fst st).
Proof.
  intros Hk (_ & _ & Hall). eapply Forall_impl; [|exact Hall].
  simpl. intros s Hp Hr. unfold passOfReason in Hp. rewrite Hr in Hp. simpl in Hp. lia.
Qed.

Lemma spf_reason_rule : ruleOfReason SPF_REASON = Some spfFailOrMissing.
Proof. reflexivity. Qed.

Lemma rule_not_in r l :
  Forall (fun s => ruleOfReason s <> Some r) l ->
  forall s, ruleOfReason s = Some r -> ~ In s l.
Proof.
  intros Hall s Hs Hin. rewrite Forall_forall in Hall. exact (Hall s Hin Hs).
Qed.

Lemma freeProviderStep_plus t f text st :
  freeProviderStep t f text st = plus st (freeProviderStep t f text empty).
Proof. exact (additive_freeProviderStep t f text st). Qed.

(** C10. With an empty Authentication-Results text the SPF rule does not
    fire: no reason of that rule is returned.  The SPF reason is returned
    exactly when the text is not empty and its lower-case form does not
    contain spf=pass, and the text changes the score by the SPF weight in
    that case and by nothing otherwise, whatever the other fields are. *)
Theorem spf_rule_only_on_nonempty_header (E : Env) (i : DetectionInput) :
  (authResults i = EmptyString ->
     ~ In SPF_REASON (reasons (detect E i))
     /\ Forall (fun s => ruleOfReason s <> Some spfFailOrMissing) (reasons (detect E i)))
  /\ (In SPF_REASON (reasons (detect E i)) <->
        authResults i <> EmptyString
        /\ JS.includes (JS.toLowerCase (authResults i)) "spf=pass" = false)
  /\ (forall ar,
        score (detect E (withAuthResults i ar)) =
          (score (detect E (withAuthResults i EmptyString))
           + (if JS.truthy ar && negb (JS.includes (JS.toLowerCase ar) "spf=pass")
              then WEIGHTS spfFailOrMissing else 0))%Z).
Proof.
  pose proof (no_spf_before 5 _ (le_n 5) (Inv_beforeSpf E i)) as Hbefore.
  assert (Hfree : forall t f text,
             Forall (fun s => ruleOfReason s <> Some spfFailOrMissing)
                    (fst (freeProviderStep t f text empty))).
  { intros t f text. eapply Forall_impl; [|apply freeProvider_reasons].
    simpl. intros s Hs. rewrite Hs. discriminate. }
  unfold detect; cbn [reasons score]. rewrite runRules_parts.
  set (B := replyToStep _ _ (bodyRules E i)) in *.
  assert (Hnot : forall t f text,
             ~ In SPF_REASON (fst (plus B (freeProviderStep t f text empty)))).
  { intros t f text Hin. unfold plus in Hin; cbn [fst] in Hin.
    apply in_app_or in Hin. destruct Hin as [Hin|Hin].
    - exact (rule_not_in _ _ Hbefore _ spf_reason_rule Hin).
    - exact (rule_not_in _ _ (Hfree _ _ _) _ spf_reason_rule Hin). }
  split; [|split].
  - intros Har. rewrite freeProviderStep_plus. rewrite Har. cbn [spfStep JS.truthy].
    split; [apply Hnot|].
    unfold plus; cbn [fst]. apply Forall_app; split; [exact Hbefore|apply Hfree].
  - rewrite freeProviderStep_plus, spfStep_fires. split.
    + intros H. destruct (JS.truthy (authResults i)) eqn:Ht.
      * split; [apply truthy_iff; exact Ht|].
        destruct (JS.includes (JS.toLowerCase (authResults i)) "spf=pass"); [|reflexivity].
        exfalso. cbn [andb negb] in H. exact (Hnot _ _ _ H).
      * exfalso. cbn [andb] in H. exact (Hnot _ _ _ H).
    + intros (Hne & Hinc). apply truthy_iff in Hne. rewrite Hne, Hinc. cbn [andb negb].
      unfold plus, fire; cbn [fst]. apply in_or_app. left. apply in_or_app. right.
      left. reflexivity.
  - intros ar. rewrite !runRules_parts. cbn [withAuthResults authResults options
      fromEmail replyToEmail subject body].
    change (bodyRules E (withAuthResults i ar)) with (bodyRules E i).
    change (bodyRules E (withAuthResults i EmptyString)) with (bodyRules E i).
    fold B.
    rewrite (freeProviderStep_plus _ _ _ (spfStep ar _)).
    rewrite (freeProviderStep_plus _ _ _ (spfStep EmptyString _)).
    rewrite spfStep_fires. cbn [spfStep JS.truthy].
    destruct (JS.truthy ar && negb (JS.includes (JS.toLowerCase ar) "spf=pass"));
      unfold plus, fire; cbn [fst snd]; lia.
Qed.

(* ================================================================== *)
(** * Brand domains themselves *)
(* ================================================================== *)

(** C9. For every brand domain of the fixed list, [looksLikeBrand] of the
    domain with itself is false, the loop over the brands reports nothing
    for it, and a body URL whose domain is that brand domain leaves reasons
    and score as they were, with strict lookalike checks on or off. *)
Theorem brand_domain_is_not_its_own_lookalike (b : string) :
  In b HIGH_VALUE_BRANDS ->
  looksLikeBrand b b = false
  /\ (forall st, brandLoop b HIGH_VALUE_BRANDS st = st)
  /\ (forall E strict url st,
        safeGetDomainFromUrl E url = Some b -> urlStep E strict st url = st).
Proof.
  intros Hin. simpl in Hin.
  repeat (destruct Hin as [<-|Hin]; [
    split; [vm_compute; reflexivity|];
    split; [intros st; vm_compute; reflexivity|];
    intros E strict url st Hd; unfold urlStep; rewrite Hd;
    destruct strict; vm_compute; destruct st; reflexivity |]).
  contradiction.
Qed.

Lemma brand_domain_is_not_its_own_lookalike_witness :
  looksLikeBrand "paypal.com" "paypal.com" = false
  /\ (forall st, brandLoop "paypal.com" HIGH_VALUE_BRANDS st = st)
  /\ (forall E strict url st,
        safeGetDomainFromUrl E url = Some "paypal.com" -> urlStep E strict st url = st).
Proof.
  apply (brand_domain_is_not_its_own_lookalike "paypal.com").
  simpl. left. reflexivity.
Defined.

(* ================================================================== *)
(** * Blank text *)
(* ================================================================== *)





Lemma blank_trim s : blank s = true -> JS.trim s = EmptyString.
Proof.
  unfold JS.trim. induction s as [|c s IH]; simpl; [reflexivity|].
  intros H. apply andb_prop in H. destruct H as [Hc Hs]. rewrite Hc. exact (IH Hs).
Qed.


(** A pattern that must begin with a character of [p] fails where the input
    begins with a character outside [p], or is at its end. *)
Lemma starts_fails p r :
  starts p r ->
  forall k st,
    match Regex.rest st with String c _ => p c = false | EmptyString => True end ->
    Regex.m r k st = None.
Proof.
  induction 1 as [|a b Ha IHa|a b Ha IHa Hb IHb|n a Ha IHa]; intros k st Hst.
  - simpl. destruct (Regex.rest st) as [|c t]; [reflexivity|]. rewrite Hst. reflexivity.
  - simpl. apply IHa, Hst.
  - simpl. rewrite (IHa k st Hst). simpl. apply IHb, Hst.
  - simpl. apply IHa, Hst.
Qed.







Lemma unparsed_url_is_skipped E raw :
  URL_hostname E (urlText raw) = None -> parseTld_domain E raw = None ->
  safeGetDomainFromUrl E raw = None.
Proof.
  unfold safeGetDomainFromUrl, urlText. intros -> ->. reflexivity.
Qed.


(* ================================================================== *)
(** * Adding triggers *)
(* ================================================================== *)

Lemma subseq_refl {A : Type} (l : list A) : subseq l l.
Proof. induction l; [apply subseq_nil|apply subseq_keep; assumption]. Qed.

Lemma subseq_app {A : Type} (a b c d : list A) :
  subseq a b -> subseq c d -> subseq (a ++ c) (b ++ d).
Proof.
  induction 1; intros Hcd; simpl;
    [assumption|apply subseq_skip; auto|apply subseq_keep; auto].
Qed.

Lemma subseq_insert {A : Type} (a b c : list A) : subseq (a ++ c) (a ++ b ++ c).
Proof.
  apply subseq_app; [apply subseq_refl|].
  induction b as [|x b IH]; simpl; [apply subseq_refl|apply subseq_skip; exact IH].
Qed.

Lemma weightOfReason_nonneg s : (0 <= weightOfReason s)%Z.
Proof.
  unfold weightOfReason. destruct (ruleOfReason s) as [r|]; [|lia].
  pose proof (weight_positive r). lia.
Qed.

Lemma total_subseq l1 l2 : subseq l1 l2 -> (total l1 <= total l2)%Z.
Proof.
  induction 1 as [|x l1 l2 H IH|x l1 l2 H IH]; simpl; [lia| |lia].
  pose proof (weightOfReason_nonneg x). lia.
Qed.

Lemma fold_attachments_plus l st :
  fold_left attachmentStep l st = plus st (fold_left attachmentStep l empty).
Proof. exact (additive_fold attachmentStep additive_attachmentStep l st). Qed.

Lemma replyToStep_plus f r st : replyToStep f r st = plus st (replyToStep f r empty).
Proof. exact (additive_replyToStep f r st). Qed.

Lemma spfStep_plus ar st : spfStep ar st = plus st (spfStep ar empty).
Proof. exact (additive_spfStep ar st). Qed.

(** The reasons of an input by its attachment list: what comes before
    the attachments, what the attachments add, what the header rules add. *)
Lemma reasons_by_attachments E i :
  exists before after,
    forall l',
      reasons (detect E (withAttachments i l')) =
        (before ++ fst (fold_left attachmentStep l' empty) ++ after)%list.
Proof.
  set (text := normalizeStr (subject i ++ " " ++ body i)).
  set (fromD := JS.orElse (emailToDomain E (fromEmail i)) EmptyString).
  set (replyD := JS.orElse (emailToDomain E (replyToEmail i)) EmptyString).
  exists (fst (fold_left (linkStep E) (extractLinkTextPairs (body i))
            (fold_left (urlStep E (strictBrandLookalikes (options i)))
               (extractAllUrls (body i))
               (fold_left (keywordStep text) PHISHING_KEYWORDS empty)))).
  exists (fst (replyToStep fromD replyD empty) ++ fst (spfStep (authResults i) empty)
            ++ fst (freeProviderStep (treatFreeProvidersAsSuspicious (options i))
                      fromD text empty))%list.
  intros l'. unfold detect; cbn [reasons]. rewrite runRules_parts.
  unfold bodyRules.
  cbn [withAttachments subject body fromEmail replyToEmail authResults attachments options].
  fold text fromD replyD.
  rewrite freeProviderStep_plus, spfStep_plus, replyToStep_plus, fold_attachments_plus.
  unfold plus; cbn [fst]. rewrite <- !app_assoc. reflexivity.
Qed.

Lemma subseq_nil_l {A : Type} (l : list A) : subseq [] l.
Proof. induction l; [apply subseq_nil|apply subseq_skip; assumption]. Qed.

Lemma map_chars_app f a b : JS.map_chars f (a ++ b) = JS.map_chars f a ++ JS.map_chars f b.
Proof. induction a as [|c a IH]; simpl; [reflexivity|]. rewrite IH. reflexivity. Qed.

Lemma append_assoc (a b c : string) : (a ++ b) ++ c = a ++ (b ++ c).
Proof. induction a as [|x a IH]; simpl; [reflexivity|]. rewrite IH. reflexivity. Qed.

Lemma prefix_refl a : JS.prefix a a = true.
Proof. induction a as [|c a IH]; simpl; [reflexivity|]. rewrite Ascii.eqb_refl. exact IH. Qed.

Lemma prefix_app a : forall b c, JS.prefix a b = true -> JS.prefix a (b ++ c) = true.
Proof.
  induction a as [|x a IH]; intros b c H; simpl; [reflexivity|].
  destruct b as [|y b]; simpl in *; [discriminate|].
  apply andb_prop in H. destruct H as [Hxy Hab]. rewrite Hxy. simpl. apply IH, Hab.
Qed.

Lemma prefix_split a : forall b, JS.prefix a b = true -> exists c, b = a ++ c.
Proof.
  induction a as [|x a IH]; intros b H; simpl in *; [exists b; reflexivity|].
  destruct b as [|y b]; [discriminate|].
  apply andb_prop in H. destruct H as [Hxy Hab].
  apply Ascii.eqb_eq in Hxy. subst y.
  destruct (IH b Hab) as [c ->]. exists c. reflexivity.
Qed.

Lemma includes_app a n b : JS.includes a n = true -> JS.includes (a ++ b) n = true.
Proof.
  induction a as [|x a IH]; simpl.
  - rewrite orb_false_r. intros H. destruct n; [|discriminate].
    apply includes_empty.
  - intros H. apply orb_prop in H. destruct H as [H|H].
    + change (String x (a ++ b)) with (String x a ++ b).
      rewrite (prefix_app n (String x a) b H). reflexivity.
    + rewrite (IH H). apply orb_true_r.
Qed.

Lemma trimStart_app a b :
  JS.trimStart (a ++ b) = if blank a then JS.trimStart b else JS.trimStart a ++ b.
Proof.
  induction a as [|c a IH]; simpl; [reflexivity|].
  unfold blank in *. simpl. destruct (JS.is_space c); simpl; [exact IH|reflexivity].
Qed.

Lemma prefix_trimEnd_app a b : JS.prefix (JS.trimEnd a) (JS.trimEnd (a ++ b)) = true.
Proof.
  induction a as [|c a IH]; simpl; [reflexivity|].
  destruct (JS.trimEnd a) as [|x t] eqn:Ha.
  - destruct (JS.is_space c) eqn:Hc; [reflexivity|].
    destruct (JS.trimEnd (a ++ b)); simpl; rewrite Ascii.eqb_refl; reflexivity.
  - destruct (JS.trimEnd (a ++ b)) as [|y u]; [discriminate|].
    simpl. rewrite Ascii.eqb_refl. exact IH.
Qed.

(** Text added at the end only adds to the normalized text. *)
Lemma normalizeStr_app a b : exists more, normalizeStr (a ++ b) = normalizeStr a ++ more.
Proof.
  apply prefix_split. unfold normalizeStr, JS.trim, JS.toLowerCase.
  rewrite map_chars_app, trimStart_app.
  destruct (blank (JS.map_chars JS.lower_char a)) eqn:Hb.
  - pose proof (blank_trim _ Hb) as Ht. unfold JS.trim in Ht. rewrite Ht. reflexivity.
  - apply prefix_trimEnd_app.
Qed.

Lemma fold_keywords_plus text st :
  fold_left (keywordStep text) PHISHING_KEYWORDS st
  = plus st (fold_left (keywordStep text) PHISHING_KEYWORDS empty).
Proof.
  exact (additive_fold (keywordStep text) (additive_keywordStep text) PHISHING_KEYWORDS st).
Qed.

Lemma fold_urls_plus E strict urls st :
  fold_left (urlStep E strict) urls st = plus st (fold_left (urlStep E strict) urls empty).
Proof. exact (additive_fold (urlStep E strict) (additive_urlStep E strict) urls st). Qed.

Lemma fold_links_plus E pairs st :
  fold_left (linkStep E) pairs st = plus st (fold_left (linkStep E) pairs empty).
Proof. exact (additive_fold (linkStep E) (additive_linkStep E) pairs st). Qed.

(** The reasons of [detect], pass by pass. *)
Lemma reasons_by_pass E i :
  let text := normalizeStr (subject i ++ " " ++ body i) in
  let fromD := JS.orElse (emailToDomain E (fromEmail i)) EmptyString in
  let replyD := JS.orElse (emailToDomain E (replyToEmail i)) EmptyString in
  reasons (detect E i) =
    (fst (fold_left (keywordStep text) PHISHING_KEYWORDS empty)
     ++ (fst (fold_left (urlStep E (strictBrandLookalikes (options i)))
                (extractAllUrls (body i)) empty)
         ++ fst (fold_left (linkStep E) (extractLinkTextPairs (body i)) empty)
         ++ fst (fold_left attachmentStep (attachments i) empty)
         ++ fst (replyToStep fromD replyD empty)
         ++ fst (spfStep (authResults i) empty))
     ++ fst (freeProviderStep (treatFreeProvidersAsSuspicious (options i))
               fromD text empty))%list.
Proof.
  cbv zeta. unfold detect; cbn [reasons]. rewrite runRules_parts. unfold bodyRules.
  rewrite freeProviderStep_plus, spfStep_plus, replyToStep_plus, fold_attachments_plus,
    fold_links_plus, fold_urls_plus.
  unfold plus; cbn [fst]. rewrite <- !app_assoc. reflexivity.
Qed.

Lemma subseq_fold_additive {A : Type} (step : Acc -> A -> Acc) :
  (forall x, additive (fun st => step st x)) ->
  forall l l', subseq l l' ->
    subseq (fst (fold_left step l empty)) (fst (fold_left step l' empty)).
Proof.
  intros Hadd l l' H. induction H as [|x l1 l2 H IH|x l1 l2 H IH]; cbn [fold_left].
  - apply subseq_nil.
  - rewrite (additive_fold step Hadd l2 (step empty x)). unfold plus; cbn [fst].
    rewrite <- (app_nil_l (fst (fold_left step l1 empty))).
    apply subseq_app; [apply subseq_nil_l|exact IH].
  - rewrite (additive_fold step Hadd l1 (step empty x)),
      (additive_fold step Hadd l2 (step empty x)).
    unfold plus; cbn [fst]. apply subseq_app; [apply subseq_refl|exact IH].
Qed.

Lemma keywords_found text text' l :
  (forall kw, In kw l -> JS.includes text kw = true -> JS.includes text' kw = true) ->
  subseq (fst (fold_left (keywordStep text) l empty))
         (fst (fold_left (keywordStep text') l empty)).
Proof.
  induction l as [|kw l IH]; intros Hfind; cbn [fold_left]; [apply subseq_nil|].
  rewrite (additive_fold (keywordStep text) (additive_keywordStep text) l
             (keywordStep text empty kw)).
  rewrite (additive_fold (keywordStep text') (additive_keywordStep text') l
             (keywordStep text' empty kw)).
  unfold plus; cbn [fst]. apply subseq_app.
  - unfold keywordStep. destruct (JS.includes text kw) eqn:Hk.
    + rewrite (Hfind kw (or_introl eq_refl) Hk). apply subseq_refl.
    + apply subseq_nil_l.
  - apply IH. intros kw' Hin. apply Hfind. right. exact Hin.
Qed.

Lemma freeProvider_found t f text text' :
  (forall b, In b HIGH_VALUE_BRANDS ->
     JS.includes text (firstLabel b) = true -> JS.includes text' (firstLabel b) = true) ->
  subseq (fst (freeProviderStep t f text empty))
         (fst (freeProviderStep t f text' empty)).
Proof.
  intros Hfind. unfold freeProviderStep.
  destruct (t && JS.truthy f); [|apply subseq_refl].
  destruct (existsb (String.eqb f) FREE_PROVIDERS); [|apply subseq_refl]. cbn [andb].
  destruct (existsb (fun b => JS.includes text (firstLabel b)) HIGH_VALUE_BRANDS) eqn:Hb;
    [|apply subseq_nil_l].
  assert (Hb' : existsb (fun b => JS.includes text' (firstLabel b))
                        HIGH_VALUE_BRANDS = true).
  { apply existsb_exists in Hb. destruct Hb as (b & Hin & Hinc).
    apply existsb_exists. exists b. split; [exact Hin|exact (Hfind b Hin Hinc)]. }
  rewrite Hb'. apply subseq_refl.
Qed.

Lemma score_by_reasons E i1 i2 :
  subseq (reasons (detect E i1)) (reasons (detect E i2)) ->
  (score (detect E i1) <= score (detect E i2))%Z.
Proof.
  intros Hsub.
  destruct (score_total_of_reasons E i1) as [H1 _].
  destruct (score_total_of_reasons E i2) as [H2 _].
  rewrite H1, H2. apply total_subseq, Hsub.
Qed.

Lemma addsTriggers_reasons E i i' :
  addsTriggers i i' -> subseq (reasons (detect E i)) (reasons (detect E i')).
Proof.
  intros (Hfrom & Hreply & Hauth & Hopt & Hfind & Hurls & Hpairs & Hatt).
  rewrite !reasons_by_pass. cbv zeta. rewrite Hfrom, Hreply, Hauth, Hopt.
  fold (textOf i) (textOf i').
  apply subseq_app.
  - apply keywords_found. intros kw Hin. apply Hfind. unfold needles.
    apply in_or_app. left. exact Hin.
  - apply subseq_app.
    + apply subseq_app;
        [apply subseq_fold_additive; [intros u; apply additive_urlStep|exact Hurls]|].
      apply subseq_app;
        [apply subseq_fold_additive; [intros p; apply additive_linkStep|exact Hpairs]|].
      apply subseq_app;
        [apply subseq_fold_additive; [intros f; apply additive_attachmentStep|exact Hatt]|].
      apply subseq_refl.
    + apply freeProvider_found. intros b Hin. apply Hfind. unfold needles.
      apply in_or_app. right. apply in_map. exact Hin.
Qed.

Lemma includes_prefix_of text text' n :
  (exists more, text' = text ++ more) ->
  JS.includes text n = true -> JS.includes text' n = true.
Proof. intros [more ->]. apply includes_app. Qed.

(** C4, as far as the code goes.  The score never goes down, and no reason
    is lost, from an input to one that has every trigger of it: the same
    headers and options, every keyword and brand name found in the first
    text found in the second, and the URLs, link pairs and attachment names
    of the first among those of the second.  Such are: file names put
    anywhere into the attachment list; text put at the end of the body, as
    long as the URLs and link pairs read from the body before are still read
    from it (another URL after a space, say); text put at the end of the
    subject, as long as what was found in the joined text before is still
    found in it. *)
Theorem added_triggers_never_lower_the_score (E : Env) :
  (forall i i',
      addsTriggers i i' ->
      subseq (reasons (detect E i)) (reasons (detect E i'))
      /\ (score (detect E i) <= score (detect E i'))%Z)
  /\ (forall i l',
        subseq (attachments i) l' ->
        addsTriggers i (withAttachments i l')
        /\ (score (detect E i) <= score (detect E (withAttachments i l')))%Z)
  /\ (forall i more,
        subseq (extractAllUrls (body i)) (extractAllUrls (body i ++ more)) ->
        subseq (extractLinkTextPairs (body i)) (extractLinkTextPairs (body i ++ more)) ->
        addsTriggers i (withBody i (body i ++ more))
        /\ (score (detect E i) <= score (detect E (withBody i (body i ++ more))))%Z)
  /\ (forall i more,
        (forall n, In n needles ->
           JS.includes (textOf i) n = true ->
           JS.includes (textOf (withSubject i (subject i ++ more))) n = true) ->
        addsTriggers i (withSubject i (subject i ++ more))
        /\ (score (detect E i) <= score (detect E (withSubject i (subject i ++ more))))%Z).
Proof.
  assert (Hgen : forall i i',
             addsTriggers i i' ->
             subseq (reasons (detect E i)) (reasons (detect E i'))
             /\ (score (detect E i) <= score (detect E i'))%Z).
  { intros i i' H. pose proof (addsTriggers_reasons E i i' H) as Hsub.
    split; [exact Hsub|exact (score_by_reasons E i i' Hsub)]. }
  split; [exact Hgen|]. split; [|split].
  - intros i l' Hatt.
    assert (H : addsTriggers i (withAttachments i l')).
    { unfold addsTriggers, textOf.
      cbn [withAttachments subject body fromEmail replyToEmail authResults attachments
             options].
      repeat split; try reflexivity; try apply subseq_refl; auto. }
    split; [exact H|exact (proj2 (Hgen _ _ H))].
  - intros i more Hurls Hpairs.
    assert (H : addsTriggers i (withBody i (body i ++ more))).
    { unfold addsTriggers, textOf.
      cbn [withBody subject body fromEmail replyToEmail authResults attachments options].
      repeat split; try reflexivity; try apply subseq_refl; try assumption.
      intros n _. apply includes_prefix_of.
      assert (Heq : subject i ++ " " ++ body i ++ more
                    = (subject i ++ " " ++ body i) ++ more)
        by (symmetry; apply (append_assoc (subject i) (" " ++ body i) more)).
      rewrite Heq. apply normalizeStr_app. }
    split; [exact H|exact (proj2 (Hgen _ _ H))].
  - intros i more Hfind.
    assert (H : addsTriggers i (withSubject i (subject i ++ more))).
    { unfold addsTriggers.
      cbn [withSubject subject body fromEmail replyToEmail authResults attachments options].
      repeat split; try reflexivity; try apply subseq_refl. exact Hfind. }
    split; [exact H|exact (proj2 (Hgen _ _ H))].
Qed.

Lemma added_triggers_never_lower_the_score_witness :
  (score (detect Tldts.env
            (mkInput "hello" "see http://login.com now" EmptyString EmptyString
                     EmptyString ["notes.txt"] (mkOptions true true 7%Z)))
   <= score (detect Tldts.env
               (mkInput ("hello" ++ " urgent")
                        ("see http://login.com now" ++ " http://secure-update.com")
                        EmptyString EmptyString EmptyString
                        ["setup.exe"; "notes.txt"] (mkOptions true true 7%Z))))%Z.
Proof.
  apply (proj1 (added_triggers_never_lower_the_score Tldts.env)).
  unfold addsTriggers.
  cbn [subject body fromEmail replyToEmail authResults attachments options].
  repeat split.
  - intros n Hin Hfound. unfold needles in Hin. cbn in Hin.
    repeat (destruct Hin as [<-|Hin];
            [first [ vm_compute; reflexivity
                   | vm_compute in Hfound; discriminate Hfound ]|]).
    destruct Hin.
  - vm_compute. apply subseq_keep, subseq_skip, subseq_nil.
  - vm_compute. apply subseq_nil.
  - apply subseq_skip, subseq_keep, subseq_nil.
Defined.

(** C4, where the specification goes too far: one more occurrence of the keyword
    urgent at the end of the subject takes the subject away from the body,
    the phrase that ran across the two is lost, and the score falls from 4
    to 2. *)
Lemma appended_keyword_lowers_the_score :
  In "urgent" PHISHING_KEYWORDS
  /\ score (detect Tldts.env
              (mkInput "urgent account" "locked" EmptyString EmptyString EmptyString []
                       (mkOptions true true 7%Z))) = 4%Z
  /\ score (detect Tldts.env
              (mkInput ("urgent account" ++ " urgent") "locked" EmptyString EmptyString
                       EmptyString [] (mkOptions true true 7%Z))) = 2%Z.
Proof.
  split; [left; reflexivity|]. split; vm_compute; reflexivity.
Qed.

(** The same can happen at the end of the body when it ends in a link: with
    the public suffix rules of [Tldts.env], the keyword joins the host name
    and the registered domain is no longer the one with login in it. *)
Example appended_keyword_changes_the_link :
  score (detect Tldts.env
           (mkInput "hi" "see http://login.com." EmptyString EmptyString EmptyString []
                    (mkOptions true true 7%Z))) = 3%Z
  /\ score (detect Tldts.env
              (mkInput "hi" ("see http://login.com." ++ "urgent") EmptyString EmptyString
                       EmptyString [] (mkOptions true true 7%Z))) = 2%Z.
Proof. split; vm_compute; reflexivity. Qed.

(* ================================================================== *)
(** * What the matcher returns is text of its input *)
(* ================================================================== *)

Lemma prefix_substring n : forall s, JS.prefix (String.substring 0 n s) s = true.
Proof.
  induction n as [|n IH]; intros s; destruct s as [|c s]; simpl; try reflexivity.
  rewrite Ascii.eqb_refl. simpl. apply IH.
Qed.

Lemma includes_suffix x s inp :
  suffix_of s inp -> JS.prefix x s = true -> JS.includes inp x = true.
Proof.
  intros [pre ->] Hx. induction pre as [|c pre IH]; simpl.
  - destruct s; simpl; rewrite Hx; reflexivity.
  - rewrite IH. apply orb_true_r.
Qed.

Lemma suffix_of_tail c t inp : suffix_of (String c t) inp -> suffix_of t inp.
Proof.
  intros [pre ->]. exists (pre ++ String c EmptyString).
  induction pre as [|a pre IH]; simpl; [reflexivity|]. rewrite IH. reflexivity.
Qed.

Lemma suffix_of_refl inp : suffix_of inp inp.
Proof. exists EmptyString. reflexivity. Qed.

Lemma m_within inp r :
  forall k st res,
    within inp st ->
    (forall st' res', within inp st' -> k st' = Some res' -> within inp res') ->
    Regex.m r k st = Some res -> within inp res.
Proof.
  induction r as [p| |a IHa b IHb|a IHa b IHb|g a IHa|n a IHa| |];
    intros k st res Hst Hk Hm.
  - simpl in Hm. destruct (Regex.rest st) as [|c t] eqn:Hrest; [discriminate|].
    destruct (p c); [|discriminate].
    apply (Hk _ _) in Hm; [exact Hm|].
    destruct Hst as [Hsuf Hcaps]. split; simpl; [|exact Hcaps].
    rewrite Hrest in Hsuf. exact (suffix_of_tail c t inp Hsuf).
  - simpl in Hm. exact (Hk _ _ Hst Hm).
  - simpl in Hm. apply (IHa (Regex.m b k) st res Hst); [|exact Hm].
    intros st' res' Hst' Hm'. exact (IHb k st' res' Hst' Hk Hm').
  - simpl in Hm. unfold Regex.first_some in Hm.
    destruct (Regex.m a k st) as [x|] eqn:Ha.
    + inversion Hm; subst. exact (IHa k st res Hst Hk Ha).
    + exact (IHb k st res Hst Hk Hm).
  - cbn [Regex.m] in Hm. revert Hm. generalize (S (String.length (Regex.rest st))).
    intros fuel. revert st res Hst. induction fuel as [|f IHf]; intros st res Hst Hm.
    + exact (Hk _ _ Hst Hm).
    + cbn [Regex.star_loop] in Hm. cbv zeta in Hm.
      assert (Hagain :
        Regex.m a (fun st' =>
          if (Regex.pos st <? Regex.pos st')%nat
          then Regex.star_loop g (Regex.m a) k f st' else None) st = Some res ->
        within inp res).
      { intros Ha. refine (IHa _ st res Hst _ Ha).
        intros st' res' Hst' Hm'.
        destruct (Regex.pos st <? Regex.pos st')%nat; [|discriminate].
        exact (IHf st' res' Hst' Hm'). }
      unfold Regex.first_some in Hm. destruct g.
      * match type of Hm with
        | match ?x with _ => _ end = _ => destruct x as [y|] eqn:Hx
        end.
        -- inversion Hm; subst. exact (Hagain eq_refl).
        -- exact (Hk _ _ Hst Hm).
      * destruct (k st) as [y|] eqn:Hks.
        -- inversion Hm; subst. exact (Hk _ _ Hst Hks).
        -- exact (Hagain Hm).
  - simpl in Hm. refine (IHa _ st res Hst _ Hm).
    intros st' res' Hst' Hm'. apply (Hk _ _) in Hm'; [exact Hm'|].
    destruct Hst' as [Hsuf' Hcaps']. split; simpl; [exact Hsuf'|].
    constructor; [|exact Hcaps']. simpl.
    apply (includes_suffix _ (Regex.rest st)); [exact (proj1 Hst)|].
    apply prefix_substring.
  - simpl in Hm. destruct (Regex.pos st =? 0)%nat; [|discriminate].
    exact (Hk _ _ Hst Hm).
  - simpl in Hm. destruct (Regex.rest st); [|discriminate].
    exact (Hk _ _ Hst Hm).
Qed.

Lemma exec_at_taken inp r s p x :
  suffix_of s inp -> Regex.exec_at r s p = Some x -> taken_from inp x.
Proof.
  intros Hs Hx. unfold Regex.exec_at in Hx.
  destruct (Regex.m r Some (Regex.mkM p s [])) as [st|] eqn:Hm; [|discriminate].
  inversion Hx; subst; clear Hx.
  assert (Hw : within inp st).
  { apply (m_within inp r Some (Regex.mkM p s []) st); [|..|exact Hm].
    - split; simpl; [exact Hs|constructor].
    - intros st' res' Hst' Heq. inversion Heq; subst. exact Hst'. }
  split; simpl; [|exact (proj2 Hw)].
  apply (includes_suffix _ s); [exact Hs|apply prefix_substring].
Qed.

Lemma scan_taken inp r s :
  forall p skip, suffix_of s inp -> Forall (taken_from inp) (Regex.scan r s p skip).
Proof.
  induction s as [|c s IH]; intros p skip Hs.
  - destruct skip; simpl; [|constructor].
    destruct (Regex.exec_at r EmptyString p) as [x|] eqn:Hx; [|constructor].
    constructor; [exact (exec_at_taken inp r _ p x Hs Hx)|constructor].
  - pose proof (suffix_of_tail c s inp Hs) as Ht.
    destruct skip; simpl; [|apply IH, Ht].
    destruct (Regex.exec_at r (String c s) p) as [x|] eqn:Hx; [|apply IH, Ht].
    constructor; [exact (exec_at_taken inp r _ p x Hs Hx)|apply IH, Ht].
Qed.

Lemma matchAll_taken r inp : Forall (taken_from inp) (Regex.matchAll r inp).
Proof. apply scan_taken, suffix_of_refl. Qed.

Lemma grp_taken inp n x : taken_from inp x -> JS.includes inp (grp n x) = true.
Proof.
  intros [_ Hg]. unfold grp, Regex.group.
  induction (Regex.groups x) as [|[i s] l IH]; simpl; [apply includes_empty|].
  inversion Hg; subst. destruct (i =? n)%nat; [assumption|apply IH; assumption].
Qed.

(* ================================================================== *)
(** * URL and domain extraction *)
(* ================================================================== *)

Lemma In_Set_add urls u v : In v (JS.Set_add urls u) <-> In v urls \/ v = u.
Proof.
  unfold JS.Set_add. destruct (existsb (String.eqb u) urls) eqn:Hex.
  - split; [auto|]. intros [H| ->]; [exact H|].
    apply existsb_exists in Hex. destruct Hex as (x & Hx & Heq).
    apply String.eqb_eq in Heq. subst. exact Hx.
  - rewrite in_app_iff. simpl. split; intros [H|H]; auto.
    + destruct H as [H|[]]; auto.
Qed.

Lemma NoDup_Set_add urls u : NoDup urls -> NoDup (JS.Set_add urls u).
Proof.
  intros Hnd. unfold JS.Set_add. destruct (existsb (String.eqb u) urls) eqn:Hex; [exact Hnd|].
  apply NoDup_app; [exact Hnd|repeat constructor; simpl; tauto|].
  intros x Hx [Heq|[]].
  assert (Hyes : existsb (String.eqb u) urls = true).
  { apply existsb_exists. exists x. split; [exact Hx|]. subst. apply String.eqb_refl. }
  congruence.
Qed.

Lemma fold_Set_add {A : Type} (f : A -> string) l :
  forall acc,
    NoDup acc ->
    NoDup (fold_left (fun urls x => JS.Set_add urls (f x)) l acc)
    /\ forall v, In v (fold_left (fun urls x => JS.Set_add urls (f x)) l acc)
                 <-> In v acc \/ In v (map f l).
Proof.
  induction l as [|x l IH]; intros acc Hnd; simpl.
  - split; [exact Hnd|]. intros v. tauto.
  - destruct (IH (JS.Set_add acc (f x)) (NoDup_Set_add acc (f x) Hnd)) as [Hn Hi].
    split; [exact Hn|]. intros v. rewrite Hi, In_Set_add. intuition congruence.
Qed.

(* ================================================================== *)
(** * The two examples of the form *)
(* ================================================================== *)

Lemma runRules_from_parts E i text fromD replyD urls pairs :
  normalizeStr (subject i ++ " " ++ body i) = text ->
  JS.orElse (emailToDomain E (fromEmail i)) EmptyString = fromD ->
  JS.orElse (emailToDomain E (replyToEmail i)) EmptyString = replyD ->
  extractAllUrls (body i) = urls ->
  extractLinkTextPairs (body i) = pairs ->
  runRules E i =
    freeProviderStep (treatFreeProvidersAsSuspicious (options i)) fromD text
      (spfStep (authResults i)
         (replyToStep fromD replyD
            (fold_left attachmentStep (attachments i)
               (fold_left (linkStep E) pairs
                  (fold_left (urlStep E (strictBrandLookalikes (options i))) urls
                     (fold_left (keywordStep text) PHISHING_KEYWORDS empty)))))).
Proof. intros; subst; reflexivity. Qed.

Lemma emailToDomain_host E email host d :
  match Regex.exec emailRe (JS.toLowerCase email) with
  | Some x => JS.orOpt (Regex.group 1 x) (Regex.group 2 x)
  | None => None
  end = Some host ->
  JS.truthy host = true ->
  getDomain E host = Some d -> JS.truthy d = true ->
  JS.orElse (emailToDomain E email) EmptyString = d.
Proof.
  intros Hx Hh Hd Ht. unfold emailToDomain.
  destruct (Regex.exec emailRe (JS.toLowerCase email)) as [x|]; [|discriminate].
  rewrite Hx, Hh, Hd. unfold JS.orElse. rewrite Ht, Ht. reflexivity.
Qed.

Lemma safeGetDomainFromUrl_try E raw h d :
  URL_hostname E (urlText raw) = Some h ->
  getDomain E h = Some d -> JS.truthy d = true ->
  safeGetDomainFromUrl E raw = Some d.
Proof.
  intros Hh Hd Ht. unfold safeGetDomainFromUrl. fold (urlText raw).
  rewrite Hh, Hd. unfold JS.orElse. rewrite Ht. reflexivity.
Qed.

Lemma safeGetDomainFromUrl_host E raw h :
  URL_hostname E (urlText raw) = Some h -> getDomain E h = None ->
  safeGetDomainFromUrl E raw = Some h.
Proof.
  intros Hh Hd. unfold safeGetDomainFromUrl. fold (urlText raw).
  rewrite Hh, Hd. reflexivity.
Qed.

Lemma replyToStep_same d st : replyToStep d d st = st.
Proof.
  unfold replyToStep. rewrite String.eqb_refl, andb_false_r. reflexivity.
Qed.

Lemma freeProviderStep_no_brand t f text st :
  existsb (fun b => JS.includes text (firstLabel b)) HIGH_VALUE_BRANDS = false ->
  freeProviderStep t f text st = st.
Proof.
  intros Hb. unfold freeProviderStep. rewrite Hb, andb_false_r.
  destruct (t && JS.truthy f); reflexivity.
Qed.

(** C5. On the safe example of the form (the July invoice, the same address
    as From and Reply-To, spf=pass, the attachment invoice.pdf, a body with
    the link to the portal of the vendor), [detect] returns the score 0, no
    reason and Likely Safe, for libraries that read the host name of the
    link and find legitvendor.com, or nothing, as its registered domain;
    what they find for the sender address does not matter. *)
Theorem safe_example_scores_zero (E : Env) :
  URL_hostname E "https://portal.legitvendor.com." = Some "portal.legitvendor.com." ->
  getDomain E "portal.legitvendor.com." = Some "legitvendor.com"
  \/ getDomain E "portal.legitvendor.com." = None ->
  analyze E (fillSafeExample initialForm) = mkResult 0 [] LikelySafe.
Proof.
  intros Hhost Hdom.
  assert (Hrun : runRules E (inputOf (fillSafeExample initialForm)) = empty).
  { erewrite runRules_from_parts;
      [ | vm_compute; reflexivity | reflexivity | reflexivity
        | vm_compute; reflexivity | vm_compute; reflexivity ].
    cbn [inputOf fillSafeExample fromEmail replyToEmail].
    rewrite replyToStep_same.
    rewrite freeProviderStep_no_brand by (vm_compute; reflexivity).
    cbn [fold_left]. unfold urlStep.
    destruct Hdom as [Hdom|Hdom].
    - rewrite (safeGetDomainFromUrl_try E "https://portal.legitvendor.com."
                 "portal.legitvendor.com." "legitvendor.com" Hhost Hdom eq_refl).
      vm_compute. reflexivity.
    - rewrite (safeGetDomainFromUrl_host E "https://portal.legitvendor.com."
                 "portal.legitvendor.com." Hhost Hdom).
      vm_compute. reflexivity. }
  unfold analyze, detect. rewrite Hrun. reflexivity.
Qed.

Lemma safe_example_scores_zero_witness :
  analyze Tldts.env (fillSafeExample initialForm) = mkResult 0 [] LikelySafe.
Proof.
  apply (safe_example_scores_zero Tldts.env); [|left]; vm_compute; reflexivity.
Defined.

(** C2, what the code does.  On the suspicious example of the form, with
    both toggles on and threshold 7, and for libraries that find
    com-login.cn as the registered domain of the host of the link, [detect]
    returns the score 28, Suspicious, and nine reasons: among them the link
    text mismatch, the dangerous attachment, From against Reply-To and SPF,
    and no brand lookalike.  The lookalike rule sees only the registered
    domain of the link, which names no brand, and [looksLikeBrand] answers
    false for paypa1.com, which the homoglyph step turns into the brand
    itself. *)
Theorem suspicious_example_result (E : Env) :
  URL_hostname E "http://secure-paypal.com-login.cn" = Some "secure-paypal.com-login.cn" ->
  getDomain E "secure-paypal.com-login.cn" = Some "com-login.cn" ->
  getDomain E "paypa1.com" = Some "paypa1.com" ->
  getDomain E "gmail.com" = Some "gmail.com" ->
  let r := analyze E (fillSuspiciousExample initialForm) in
  r = suspiciousExampleResult
  /\ (2 * 7 <= score r)%Z
  /\ category r = Suspicious
  /\ Forall (fun rule => exists s, In s (reasons r) /\ ruleOfReason s = Some rule)
            [linkMismatch; dangerousAttachment; replyToMismatch; spfFailOrMissing]
  /\ Forall (fun s => ruleOfReason s <> Some brandLookalike) (reasons r)
  /\ looksLikeBrand "paypa1.com" "paypal.com" = false
  /\ Forall (fun b => looksLikeBrand "com-login.cn" b = false) HIGH_VALUE_BRANDS.
Proof.
  intros Hhost Hdom Hfrom Hreply.
  assert (Hres : analyze E (fillSuspiciousExample initialForm) = suspiciousExampleResult).
  { assert (Hrun : runRules E (inputOf (fillSuspiciousExample initialForm))
                   = (reasons suspiciousExampleResult, score suspiciousExampleResult)).
    { erewrite runRules_from_parts;
        [ | vm_compute; reflexivity
          | apply (emailToDomain_host E _ "paypa1.com" "paypa1.com");
            [vm_compute; reflexivity | reflexivity | exact Hfrom | reflexivity]
          | apply (emailToDomain_host E _ "gmail.com" "gmail.com");
            [vm_compute; reflexivity | reflexivity | exact Hreply | reflexivity]
          | vm_compute; reflexivity
          | vm_compute; reflexivity ].
      cbn [fold_left]. unfold urlStep, linkStep. cbn [href display].
      rewrite !(safeGetDomainFromUrl_try E "http://secure-paypal.com-login.cn"
                  "secure-paypal.com-login.cn" "com-login.cn" Hhost Hdom eq_refl).
      vm_compute. reflexivity. }
    unfold analyze, detect. rewrite Hrun. reflexivity. }
  cbv zeta. rewrite Hres. clear Hres.
  split; [reflexivity|]. split; [vm_compute; discriminate|]. split; [reflexivity|].
  split; [|split; [|split]].
  - repeat constructor.
    + eexists. split; [right; right; right; right; left; reflexivity|reflexivity].
    + eexists. split; [do 6 right; left; reflexivity|reflexivity].
    + eexists. split; [do 7 right; left; reflexivity|reflexivity].
    + eexists. split; [do 8 right; left; reflexivity|reflexivity].
  - repeat constructor; vm_compute; discriminate.
  - vm_compute. reflexivity.
  - repeat constructor.
Qed.

Lemma suspicious_example_result_witness :
  analyze Tldts.env (fillSuspiciousExample initialForm) = suspiciousExampleResult.
Proof.
  apply (suspicious_example_result Tldts.env); vm_compute; reflexivity.
Defined.

(* ================================================================== *)
(** * The general theorems at the examples *)
(* ================================================================== *)

Lemma detect_category_by_threshold_witness :
  category (detect Tldts.env (inputOf (fillSuspiciousExample initialForm))) = Suspicious.
Proof.
  apply (proj1 (detect_category_by_threshold Tldts.env
                  (inputOf (fillSuspiciousExample initialForm)))).
  vm_compute. discriminate.
Defined.

Lemma spf_rule_only_on_nonempty_header_witness :
  In SPF_REASON
     (reasons (detect Tldts.env (inputOf (fillSuspiciousExample initialForm)))).
Proof.
  apply (proj1 (proj2 (spf_rule_only_on_nonempty_header Tldts.env
                         (inputOf (fillSuspiciousExample initialForm))))).
  split; [discriminate|vm_compute; reflexivity].
Defined.

(* ================================================================== *)
(** * Bounds on the score *)
(* ================================================================== *)

Lemma fold_left_plus {A : Type} (step : Acc -> A -> Acc) :
  (forall x, additive (fun st => step st x)) ->
  forall l st, fold_left step l st = plus st (fold_left step l empty).
Proof. intros H l st. exact (additive_fold step H l st). Qed.

(** A loop whose every step adds between 0 and [c] adds between 0 and [c]
    times the number of steps. *)
Lemma fold_score_bound {A : Type} (step : Acc -> A -> Acc) (c : Z) :
  (forall x, additive (fun st => step st x)) ->
  (forall x, (0 <= snd (step empty x) <= c)%Z) ->
  forall l, (0 <= snd (fold_left step l empty) <= c * Z.of_nat (List.length l))%Z.
Proof.
  intros Hadd Hstep l. induction l as [|x l IH]; [simpl; lia|].
  cbn [fold_left]. rewrite (fold_left_plus step Hadd l (step empty x)).
  unfold plus; cbn [snd]. pose proof (Hstep x) as Hx.
  replace (Z.of_nat (List.length (x :: l))) with (1 + Z.of_nat (List.length l))%Z
    by (cbn [List.length]; lia).
  lia.
Qed.

Lemma brandLoop_score domain brands st :
  (snd st <= snd (brandLoop domain brands st) <= snd st + 4)%Z.
Proof.
  induction brands as [|b bs IH]; simpl; [lia|].
  destruct (looksLikeBrand domain b); [unfold fire; simpl; lia|exact IH].
Qed.

Lemma keywordStep_score text kw : (0 <= snd (keywordStep text empty kw) <= 2)%Z.
Proof. unfold keywordStep. destruct (JS.includes text kw); simpl; lia. Qed.

Lemma domainRules_score strict domain :
  (0 <= snd (domainRules strict domain empty) <= 12)%Z.
Proof.
  unfold domainRules. split_conditions;
    try match goal with
        | |- context [brandLoop ?d ?b ?st] => pose proof (brandLoop_score d b st)
        end;
    unfold fire, empty in *; cbn [fst snd WEIGHTS] in *; lia.
Qed.

Lemma urlStep_score E strict url : (0 <= snd (urlStep E strict empty url) <= 12)%Z.
Proof.
  unfold urlStep. destruct (safeGetDomainFromUrl E url) as [d|]; [|simpl; lia].
  destruct (JS.truthy d); [apply domainRules_score|simpl; lia].
Qed.

Lemma linkStep_score E p : (0 <= snd (linkStep E empty p) <= 3)%Z.
Proof. unfold linkStep. split_conditions; simpl; lia. Qed.

Lemma lastChar_some a : a <> EmptyString -> exists x, lastChar a = Some x.
Proof.
  destruct a as [|c a]; [congruence|]. intros _. simpl.
  destruct (lastChar a) as [x|]; eauto.
Qed.

Lemma endsWith_lastChar s a :
  JS.endsWith s a = true -> a <> EmptyString -> lastChar s = lastChar a.
Proof.
  intros H Ha. induction s as [|c t IH]; cbn [JS.endsWith] in H.
  - rewrite orb_false_r in H. apply String.eqb_eq in H. subst a. congruence.
  - apply orb_prop in H. destruct H as [H|H].
    + apply String.eqb_eq in H. subst a. reflexivity.
    + simpl. rewrite (IH H). destruct (lastChar_some a Ha) as [x ->]. reflexivity.
Qed.

(** A name cannot end both in a dangerous extension and in a macro-enabled
    one: the second kind all end in m. *)
Lemma dangerous_excludes_macro s :
  existsb (fun ext => JS.endsWith s ext) DANGEROUS_EXTS = true ->
  existsb (fun ext => JS.endsWith s ext) RISKY_OFFICE_EXTS = true -> False.
Proof.
  intros Hd Hm.
  apply existsb_exists in Hd. destruct Hd as (a & Ha & Hsa).
  apply existsb_exists in Hm. destruct Hm as (b & Hb & Hsb).
  assert (Hla : lastChar s = lastChar a).
  { apply endsWith_lastChar; [exact Hsa|].
    simpl in Ha. intuition (subst; discriminate). }
  assert (Hlb : lastChar s = lastChar b).
  { apply endsWith_lastChar; [exact Hsb|].
    simpl in Hb. intuition (subst; discriminate). }
  rewrite Hla in Hlb. simpl in Ha, Hb.
  intuition (subst; discriminate).
Qed.

Lemma attachmentStep_score file : (0 <= snd (attachmentStep empty file) <= 10)%Z.
Proof.
  unfold attachmentStep. cbv zeta.
  destruct (negb (JS.truthy (JS.trim (JS.toLowerCase file)))); [simpl; lia|].
  destruct (existsb (fun ext => JS.endsWith (JS.trim (JS.toLowerCase file)) ext)
                    DANGEROUS_EXTS) eqn:Hd;
    destruct (existsb (fun ext => JS.endsWith (JS.trim (JS.toLowerCase file)) ext)
                      RISKY_OFFICE_EXTS) eqn:Hm;
    [exfalso; exact (dangerous_excludes_macro _ Hd Hm)| | |];
    destruct (Regex.test doubleExtRe (JS.trim (JS.toLowerCase file)));
    simpl; lia.
Qed.

Lemma score_by_pass E i :
  let text := normalizeStr (subject i ++ " " ++ body i) in
  let fromD := JS.orElse (emailToDomain E (fromEmail i)) EmptyString in
  let replyD := JS.orElse (emailToDomain E (replyToEmail i)) EmptyString in
  score (detect E i) =
    (snd (fold_left (keywordStep text) PHISHING_KEYWORDS empty)
     + snd (fold_left (urlStep E (strictBrandLookalikes (options i)))
              (extractAllUrls (body i)) empty)
     + snd (fold_left (linkStep E) (extractLinkTextPairs (body i)) empty)
     + snd (fold_left attachmentStep (attachments i) empty)
     + snd (replyToStep fromD replyD empty)
     + snd (spfStep (authResults i) empty)
     + snd (freeProviderStep (treatFreeProvidersAsSuspicious (options i))
              fromD text empty))%Z.
Proof.
  cbv zeta. unfold detect; cbn [score]. rewrite runRules_parts. unfold bodyRules.
  rewrite freeProviderStep_plus, spfStep_plus, replyToStep_plus, fold_attachments_plus,
    fold_links_plus, fold_urls_plus.
  unfold plus; cbn [snd]. lia.
Qed.

(** X1. The score is never negative, and it is at most 31 (eleven keywords,
    the two header rules, the free-provider rule) plus 12 for every URL
    extracted from the body, 3 for every link pair and 10 for every
    attachment. *)
Theorem detect_score_bounds (E : Env) (i : DetectionInput) :
  (0 <= score (detect E i)
   <= 31 + 12 * Z.of_nat (List.length (extractAllUrls (body i)))
      + 3 * Z.of_nat (List.length (extractLinkTextPairs (body i)))
      + 10 * Z.of_nat (List.length (attachments i)))%Z.
Proof.
  rewrite score_by_pass. cbv zeta.
  pose proof (fold_score_bound (keywordStep (normalizeStr (subject i ++ " " ++ body i))) 2
                (additive_keywordStep _) (keywordStep_score _) PHISHING_KEYWORDS) as Hk.
  pose proof (fold_score_bound (urlStep E (strictBrandLookalikes (options i))) 12
                (additive_urlStep E _) (urlStep_score E _) (extractAllUrls (body i))) as Hu.
  pose proof (fold_score_bound (linkStep E) 3
                (additive_linkStep E) (linkStep_score E)
                (extractLinkTextPairs (body i))) as Hl.
  pose proof (fold_score_bound attachmentStep 10
                additive_attachmentStep attachmentStep_score (attachments i)) as Ha.
  change (Z.of_nat (List.length PHISHING_KEYWORDS)) with 11%Z in Hk.
  assert (Hr : forall f r, (0 <= snd (replyToStep f r empty) <= 4)%Z)
    by (intros; unfold replyToStep; split_conditions; simpl; lia).
  assert (Hs : forall ar, (0 <= snd (spfStep ar empty) <= 3)%Z)
    by (intros; unfold spfStep; split_conditions; simpl; lia).
  assert (Hf : forall t f text, (0 <= snd (freeProviderStep t f text empty) <= 2)%Z)
    by (intros; unfold freeProviderStep; split_conditions; simpl; lia).
  pose proof (Hr (JS.orElse (emailToDomain E (fromEmail i)) EmptyString)
                 (JS.orElse (emailToDomain E (replyToEmail i)) EmptyString)).
  pose proof (Hs (authResults i)).
  pose proof (Hf (treatFreeProvidersAsSuspicious (options i))
                 (JS.orElse (emailToDomain E (fromEmail i)) EmptyString)
                 (normalizeStr (subject i ++ " " ++ body i))).
  lia.
Qed.

(* ================================================================== *)
(** * The threshold and the two toggles *)
(* ================================================================== *)

Lemma total_nonneg l : (0 <= total l)%Z.
Proof.
  induction l as [|x l IH]; simpl; [lia|].
  pose proof (weightOfReason_nonneg x). lia.
Qed.

Lemma score_nonneg E i : (0 <= score (detect E i))%Z.
Proof.
  destruct (score_total_of_reasons E i) as [Hs _]. rewrite Hs. apply total_nonneg.
Qed.

Lemma categorize_antitone s t t' :
  (t <= t')%Z -> rank (categorize s t') <= rank (categorize s t).
Proof.
  intros Ht. unfold categorize.
  repeat match goal with
         | |- context [(?a <=? ?b)%Z] => destruct (Z.leb_spec a b)
         end; simpl; lia.
Qed.

Lemma categorize_monotone s s' t :
  (s <= s')%Z -> rank (categorize s t) <= rank (categorize s' t).
Proof.
  intros Hs. unfold categorize.
  repeat match goal with
         | |- context [(?a <=? ?b)%Z] => destruct (Z.leb_spec a b)
         end; simpl; lia.
Qed.

(** X2. The threshold moves nothing but the category: score and reasons are
    the same for every threshold, a higher threshold never gives a graver
    category, and with a threshold of 0 or less every input is Suspicious,
    the empty one included. *)
Theorem threshold_only_moves_the_category (E : Env) (i : DetectionInput) :
  (forall t, score (detect E (withThreshold i t)) = score (detect E i)
             /\ reasons (detect E (withThreshold i t)) = reasons (detect E i))
  /\ (forall t t', (t <= t')%Z ->
        rank (category (detect E (withThreshold i t')))
        <= rank (category (detect E (withThreshold i t))))
  /\ (forall t, (t <= 0)%Z -> category (detect E (withThreshold i t)) = Suspicious).
Proof.
  assert (Hrun : forall t, runRules E (withThreshold i t) = runRules E i)
    by (intros t; reflexivity).
  split; [|split].
  - intros t. unfold detect; cbn [score reasons]. rewrite Hrun. split; reflexivity.
  - intros t t' Ht. unfold detect; cbn [category]. rewrite !Hrun.
    cbn [withThreshold withOptions options threshold]. apply categorize_antitone, Ht.
  - intros t Ht. pose proof (score_nonneg E i) as Hs.
    unfold detect in *; cbn [category score] in *. rewrite Hrun.
    cbn [withThreshold withOptions options threshold]. unfold categorize.
    destruct (Z.leb_spec (t * 2) (snd (runRules E i))); [reflexivity|lia].
Qed.

Lemma threshold_only_moves_the_category_witness :
  category (detect Tldts.env
              (withThreshold (inputOf (fillSafeExample initialForm)) 0)) = Suspicious.
Proof.
  apply (proj2 (proj2 (threshold_only_moves_the_category Tldts.env
                         (inputOf (fillSafeExample initialForm))))).
  lia.
Defined.

Lemma Only_empty P : Only P empty.
Proof. constructor. Qed.

Lemma Only_fire (P : Rule -> Prop) r msg st :
  ruleOfReason msg = Some r -> P r -> Only P st -> Only P (fire r msg st).
Proof.
  intros Hr HP H. unfold Only, fire in *. cbn [fst].
  apply Forall_app; split; [exact H|]. constructor; [eauto|constructor].
Qed.

Lemma Only_plus P a b : Only P a -> Only P b -> Only P (plus a b).
Proof. intros Ha Hb. unfold Only, plus in *. cbn [fst]. apply Forall_app; auto. Qed.

Lemma Only_fold {A : Type} P (step : Acc -> A -> Acc) :
  (forall st x, Only P st -> Only P (step st x)) ->
  forall l st, Only P st -> Only P (fold_left step l st).
Proof. intros H l. induction l as [|x l IH]; intros st Hst; simpl; auto. Qed.

Ltac only_chain :=
  repeat first [ assumption
               | apply Only_fire; [rule_of_reason| |] ].

Lemma Only_keywordStep (P : Rule -> Prop) text st kw :
  P keyword -> Only P st -> Only P (keywordStep text st kw).
Proof. intros HP H. unfold keywordStep. split_conditions; only_chain. Qed.

Lemma Only_brandLoop (P : Rule -> Prop) domain brands st :
  P brandLookalike -> Only P st -> Only P (brandLoop domain brands st).
Proof.
  intros HP H. induction brands as [|b bs IH]; simpl; [exact H|].
  destruct (looksLikeBrand domain b); [|exact IH]. only_chain.
Qed.

Lemma Only_domainRules (P : Rule -> Prop) strict domain st :
  P longDomain -> P punycode -> P suspiciousUrl ->
  (strict = true -> P brandLookalike) ->
  Only P st -> Only P (domainRules strict domain st).
Proof.
  intros H1 H2 H3 H4 H. unfold domainRules. destruct strict.
  - split_conditions; apply Only_brandLoop; auto; only_chain.
  - split_conditions; only_chain.
Qed.

Lemma Only_urlStep (P : Rule -> Prop) E strict st url :
  P longDomain -> P punycode -> P suspiciousUrl ->
  (strict = true -> P brandLookalike) ->
  Only P st -> Only P (urlStep E strict st url).
Proof.
  intros H1 H2 H3 H4 H. unfold urlStep.
  destruct (safeGetDomainFromUrl E url) as [d|]; [|exact H].
  destruct (JS.truthy d); [apply Only_domainRules; assumption|exact H].
Qed.

Lemma Only_linkStep (P : Rule -> Prop) E st p :
  P linkMismatch -> Only P st -> Only P (linkStep E st p).
Proof. intros HP H. unfold linkStep. split_conditions; only_chain. Qed.

Lemma Only_attachmentStep (P : Rule -> Prop) st file :
  P dangerousAttachment -> P macroAttachment -> P doubleExtension ->
  Only P st -> Only P (attachmentStep st file).
Proof. intros H1 H2 H3 H. unfold attachmentStep. split_conditions; only_chain. Qed.

Lemma Only_replyToStep (P : Rule -> Prop) f r st :
  P replyToMismatch -> Only P st -> Only P (replyToStep f r st).
Proof. intros HP H. unfold replyToStep. split_conditions; only_chain. Qed.

Lemma Only_spfStep (P : Rule -> Prop) ar st :
  P spfFailOrMissing -> Only P st -> Only P (spfStep ar st).
Proof. intros HP H. unfold spfStep. split_conditions; only_chain. Qed.

Lemma Only_freeProviderStep (P : Rule -> Prop) t f text st :
  (t = true -> P freeProviderAsCorp) -> Only P st -> Only P (freeProviderStep t f text st).
Proof.
  intros HP H. unfold freeProviderStep. destruct t; cbn [andb]; [|exact H].
  split_conditions; only_chain. exact (HP eq_refl).
Qed.

(** The rules that can fire under given options. *)
Lemma Only_runRules (P : Rule -> Prop) E i :
  (forall r, r <> brandLookalike -> r <> freeProviderAsCorp -> P r) ->
  (strictBrandLookalikes (options i) = true -> P brandLookalike) ->
  (treatFreeProvidersAsSuspicious (options i) = true -> P freeProviderAsCorp) ->
  Only P (runRules E i).
Proof.
  intros Hall Hb Hf. unfold runRules.
  apply Only_freeProviderStep; [exact Hf|].
  apply Only_spfStep; [apply Hall; discriminate|].
  apply Only_replyToStep; [apply Hall; discriminate|].
  apply Only_fold;
    [intros; apply Only_attachmentStep; try assumption; apply Hall; discriminate|].
  apply Only_fold; [intros; apply Only_linkStep; try assumption; apply Hall; discriminate|].
  apply Only_fold;
    [intros; apply Only_urlStep; try assumption; apply Hall; discriminate|].
  apply Only_fold;
    [intros; apply Only_keywordStep; try assumption; apply Hall; discriminate|].
  apply Only_empty.
Qed.

Lemma subseq_trans_app {A : Type} (a b c : list A) :
  subseq a b -> subseq a (b ++ c).
Proof.
  intros H. rewrite <- (app_nil_r a). apply subseq_app; [exact H|apply subseq_nil_l].
Qed.

Lemma urls_strict_more E urls :
  subseq (fst (fold_left (urlStep E false) urls empty))
         (fst (fold_left (urlStep E true) urls empty)).
Proof.
  induction urls as [|u urls IH]; simpl; [apply subseq_nil|].
  rewrite (fold_urls_plus E false urls (urlStep E false empty u)).
  rewrite (fold_urls_plus E true urls (urlStep E true empty u)).
  unfold plus; cbn [fst]. apply subseq_app; [|exact IH].
  unfold urlStep. destruct (safeGetDomainFromUrl E u) as [d|]; [|apply subseq_refl].
  destruct (JS.truthy d); [|apply subseq_refl].
  unfold domainRules.
  match goal with
  | |- subseq (fst ?s) (fst (brandLoop ?dm ?b ?s)) =>
      rewrite (additive_brandLoop dm b s)
  end.
  unfold plus; cbn [fst]. apply subseq_trans_app, subseq_refl.
Qed.

(** X3. With strict lookalike checks off no brand-lookalike reason is
    returned, and with the free-provider toggle off no free-provider reason.
    Switching a toggle off only takes reasons away: the reasons are those of
    the same input with the toggle on, some left out, and the score is not
    higher. *)
Theorem toggles_off_only_remove_reasons (E : Env) (i : DetectionInput) :
  (strictBrandLookalikes (options i) = false ->
     Forall (fun s => ruleOfReason s <> Some brandLookalike) (reasons (detect E i)))
  /\ (treatFreeProvidersAsSuspicious (options i) = false ->
        Forall (fun s => ruleOfReason s <> Some freeProviderAsCorp) (reasons (detect E i)))
  /\ (forall free strict t,
        let off := withOptions i (mkOptions false false t) in
        let on := withOptions i (mkOptions free strict t) in
        subseq (reasons (detect E off)) (reasons (detect E on))
        /\ (score (detect E off) <= score (detect E on))%Z).
Proof.
  split; [|split].
  - intros Hs.
    pose proof (Only_runRules (fun r => r <> brandLookalike) E i) as H.
    unfold detect; cbn [reasons].
    eapply Forall_impl; [|apply H].
    + simpl. intros s (r & Hr & Hne). rewrite Hr. congruence.
    + intros r Hr _. exact Hr.
    + rewrite Hs. discriminate.
    + discriminate.
  - intros Hs.
    pose proof (Only_runRules (fun r => r <> freeProviderAsCorp) E i) as H.
    unfold detect; cbn [reasons].
    eapply Forall_impl; [|apply H].
    + simpl. intros s (r & Hr & Hne). rewrite Hr. congruence.
    + intros r _ Hr. exact Hr.
    + discriminate.
    + rewrite Hs. discriminate.
  - intros free strict t. cbv zeta.
    assert (Hsub : subseq (reasons (detect E (withOptions i (mkOptions false false t))))
                          (reasons (detect E (withOptions i (mkOptions free strict t))))).
    { rewrite !reasons_by_pass. cbv zeta.
      cbn [withOptions subject body fromEmail replyToEmail authResults attachments
           options strictBrandLookalikes treatFreeProvidersAsSuspicious].
      apply subseq_app; [apply subseq_refl|].
      apply subseq_app.
      - apply subseq_app; [|apply subseq_refl].
        destruct strict; [apply urls_strict_more|apply subseq_refl].
      - unfold freeProviderStep at 1. cbn [andb fst empty]. apply subseq_nil_l. }
    split; [exact Hsub|].
    destruct (score_total_of_reasons E (withOptions i (mkOptions false false t))) as [H1 _].
    destruct (score_total_of_reasons E (withOptions i (mkOptions free strict t))) as [H2 _].
    rewrite H1, H2. apply total_subseq, Hsub.
Qed.

Lemma toggles_off_only_remove_reasons_witness :
  Forall (fun s => ruleOfReason s <> Some brandLookalike)
         (reasons (detect Tldts.env
                     (mkInput EmptyString "visit http://paypal.com.cn/login" "it@gmail.com"
                              EmptyString EmptyString [] (mkOptions true false 7%Z)))).
Proof.
  apply (proj1 (toggles_off_only_remove_reasons Tldts.env
                  (mkInput EmptyString "visit http://paypal.com.cn/login" "it@gmail.com"
                           EmptyString EmptyString [] (mkOptions true false 7%Z)))).
  reflexivity.
Defined.

(* ================================================================== *)
(** * Sender addresses *)
(* ================================================================== *)

Lemma lower_keeps_at c : Regex.ch "@" (JS.lower_char c) = Regex.ch "@" c.
Proof. destruct c as [[] [] [] [] [] [] [] []]; reflexivity. Qed.

(** A pattern that must begin with a character of [p] finds nothing in a
    text without such a character. *)
Lemma no_start_no_match p r :
  starts p r ->
  forall s, JS.all_chars (fun c => negb (p c)) s = true ->
  forall n, Regex.search_from r s n = None.
Proof.
  intros Hr s. induction s as [|c s IH]; intros Hs n.
  - simpl. unfold Regex.exec_at. rewrite (starts_fails p r Hr); [reflexivity|exact I].
  - simpl in Hs. apply andb_prop in Hs. destruct Hs as [Hc Hs].
    simpl. unfold Regex.exec_at. rewrite (starts_fails p r Hr).
    + apply IH, Hs.
    + simpl. destruct (p c); [discriminate|reflexivity].
Qed.

Lemma all_chars_lower_at s :
  JS.all_chars (fun c => negb (Regex.ch "@" c)) s = true ->
  JS.all_chars (fun c => negb (Regex.ch "@" c)) (JS.toLowerCase s) = true.
Proof.
  induction s as [|c s IH]; simpl; [reflexivity|].
  intros H. apply andb_prop in H. destruct H as [Hc Hs].
  rewrite lower_keeps_at, Hc. simpl. apply IH, Hs.
Qed.

(** X4. An address without the character @ has no domain, whatever the
    libraries answer, and the domain of an address is never the empty
    string: so a From or Reply-To field without @ keeps the From against
    Reply-To rule and the free-provider rule from firing. *)
Theorem emailToDomain_needs_at (E : Env) :
  (forall email,
      JS.all_chars (fun c => negb (Regex.ch "@" c)) email = true ->
      emailToDomain E email = None)
  /\ (forall email d, emailToDomain E email = Some d -> d <> EmptyString)
  /\ (forall i,
        JS.all_chars (fun c => negb (Regex.ch "@" c)) (fromEmail i) = true ->
        Forall (fun s => ruleOfReason s <> Some replyToMismatch
                         /\ ruleOfReason s <> Some freeProviderAsCorp)
               (reasons (detect E i))).
Proof.
  assert (Hnone : forall email,
             JS.all_chars (fun c => negb (Regex.ch "@" c)) email = true ->
             emailToDomain E email = None).
  { intros email H. unfold emailToDomain, Regex.exec.
    rewrite (no_start_no_match (Regex.ch "@") emailRe ltac:(repeat constructor)
               _ (all_chars_lower_at email H) 0).
    reflexivity. }
  split; [exact Hnone|]. split.
  - intros email d H. unfold emailToDomain in H.
    destruct (Regex.exec emailRe (JS.toLowerCase email)) as [x|]; [|discriminate].
    destruct (JS.orOpt (Regex.group 1 x) (Regex.group 2 x)) as [h|]; [|discriminate].
    destruct h as [|c h]; [discriminate|]. cbn [JS.truthy] in H.
    inversion H; subst; clear H. unfold JS.orElse.
    destruct (getDomain E (String c h)) as [[|c' d']|]; simpl; discriminate.
  - intros i Hfrom. rewrite reasons_by_pass. cbv zeta. rewrite (Hnone _ Hfrom).
    cbn [JS.orElse]. unfold replyToStep, freeProviderStep. cbn [JS.truthy andb].
    rewrite andb_false_r. cbn [fst empty]. rewrite !app_nil_r.
    assert (Hconv : forall st,
               Only (fun r => r <> replyToMismatch /\ r <> freeProviderAsCorp) st ->
               Forall (fun s => ruleOfReason s <> Some replyToMismatch
                                /\ ruleOfReason s <> Some freeProviderAsCorp) (fst st)).
    { intros st H. eapply Forall_impl; [|exact H]. simpl.
      intros s (r & Hr & Hn1 & Hn2). rewrite Hr. split; congruence. }
    rewrite !Forall_app. repeat split; [apply Hconv|apply Hconv|apply Hconv|apply Hconv|constructor|apply Hconv].
    + apply Only_fold; [|apply Only_empty].
      intros; apply Only_keywordStep; [split; discriminate|assumption].
    + apply Only_fold; [|apply Only_empty].
      intros; apply Only_urlStep; try assumption; try (split; discriminate).
    + apply Only_fold; [|apply Only_empty].
      intros; apply Only_linkStep; [split; discriminate|assumption].
    + apply Only_fold; [|apply Only_empty].
      intros; apply Only_attachmentStep; try assumption; split; discriminate.
    + apply Only_spfStep; [split; discriminate|apply Only_empty].
Qed.

Lemma emailToDomain_needs_at_witness :
  emailToDomain Tldts.env "undisclosed recipients" = None.
Proof.
  apply (proj1 (emailToDomain_needs_at Tldts.env)). vm_compute. reflexivity.
Defined.

(* ================================================================== *)
(** * Homoglyph spellings of a brand *)
(* ================================================================== *)

(** X5. A domain that the homoglyph step (after lower-casing) turns into a
    listed brand domain is not reported as a lookalike of any brand: the
    exact-match exit of [looksLikeBrand] comes after that step, so paypa1.com,
    amaz0n.com or PAYPAL.COM pass the brand loop with nothing added. *)
Theorem homoglyph_spelling_of_a_brand_is_not_reported (d b : string) :
  In b HIGH_VALUE_BRANDS ->
  deobfuscateHomoglyphs (JS.toLowerCase d) = b ->
  looksLikeBrand d b = false
  /\ (forall st, brandLoop d HIGH_VALUE_BRANDS st = st)
  /\ (forall st, domainRules true d st = domainRules false d st).
Proof.
  intros Hin Hd.
  assert (Hall : forall b', In b' HIGH_VALUE_BRANDS -> looksLikeBrand d b' = false).
  { intros b' Hb'. unfold looksLikeBrand. rewrite Hd. clear Hd.
    simpl in Hin, Hb'.
    repeat (destruct Hin as [<-|Hin]; [
      repeat (destruct Hb' as [<-|Hb']; [vm_compute; reflexivity|]); contradiction |]).
    contradiction. }
  assert (Hloop : forall st, brandLoop d HIGH_VALUE_BRANDS st = st).
  { intros st. revert Hall. generalize HIGH_VALUE_BRANDS as brands.
    induction brands as [|x xs IH]; intros Hall; simpl; [reflexivity|].
    rewrite (Hall x (or_introl eq_refl)). apply IH.
    intros b' Hb'. apply Hall. right. exact Hb'. }
  split; [exact (Hall b Hin)|]. split; [exact Hloop|].
  intros st. unfold domainRules. apply Hloop.
Qed.

Lemma homoglyph_spelling_of_a_brand_is_not_reported_witness :
  looksLikeBrand "PayPa1.com" "paypal.com" = false
  /\ (forall st, brandLoop "PayPa1.com" HIGH_VALUE_BRANDS st = st)
  /\ (forall st, domainRules true "PayPa1.com" st = domainRules false "PayPa1.com" st).
Proof.
  apply (homoglyph_spelling_of_a_brand_is_not_reported "PayPa1.com" "paypal.com").
  - left. reflexivity.
  - vm_compute. reflexivity.
Defined.

(* ================================================================== *)
(** * The attachments field of the form *)
(* ================================================================== *)

Lemma trimEnd_idem s : JS.trimEnd (JS.trimEnd s) = JS.trimEnd s.
Proof.
  induction s as [|c t IH]; simpl; [reflexivity|].
  destruct (JS.trimEnd t) as [|x y] eqn:Ht.
  - destruct (JS.is_space c) eqn:Hc; simpl; [reflexivity|]. rewrite Hc. reflexivity.
  - cbn [JS.trimEnd]. cbn [JS.trimEnd] in IH. rewrite IH. reflexivity.
Qed.

Lemma trimEnd_head c t :
  JS.is_space c = false -> exists t', JS.trimEnd (String c t) = String c t'.
Proof.
  intros Hc. simpl. destruct (JS.trimEnd t); [rewrite Hc|]; eauto.
Qed.

Lemma trimStart_cases s :
  JS.trimStart s = EmptyString
  \/ exists c t, JS.trimStart s = String c t /\ JS.is_space c = false.
Proof.
  induction s as [|c t IH]; simpl; [left; reflexivity|].
  destruct (JS.is_space c) eqn:Hc; [exact IH|]. right. eauto.
Qed.

Lemma trim_idem s : JS.trim (JS.trim s) = JS.trim s.
Proof.
  unfold JS.trim. destruct (trimStart_cases s) as [->|(c & t & -> & Hc)]; [reflexivity|].
  destruct (trimEnd_head c t Hc) as [t' Ht']. rewrite Ht'.
  cbn [JS.trimStart]. rewrite Hc. rewrite <- Ht'. apply trimEnd_idem.
Qed.

Lemma all_chars_trimStart p s :
  JS.all_chars p s = true -> JS.all_chars p (JS.trimStart s) = true.
Proof.
  induction s as [|c t IH]; simpl; [reflexivity|].
  intros H. destruct (JS.is_space c); [|exact H].
  apply andb_prop in H. apply IH, H.
Qed.

Lemma all_chars_trimEnd p s :
  JS.all_chars p s = true -> JS.all_chars p (JS.trimEnd s) = true.
Proof.
  induction s as [|c t IH]; simpl; [reflexivity|].
  intros H. apply andb_prop in H. destruct H as [Hc Ht]. specialize (IH Ht).
  destruct (JS.trimEnd t) as [|x y].
  - destruct (JS.is_space c); simpl; [reflexivity|]. rewrite Hc. reflexivity.
  - cbn [JS.all_chars]. rewrite Hc. exact IH.
Qed.

Lemma all_chars_trim p s : JS.all_chars p s = true -> JS.all_chars p (JS.trim s) = true.
Proof. intros H. apply all_chars_trimEnd, all_chars_trimStart, H. Qed.

Lemma all_chars_app p a b :
  JS.all_chars p (a ++ b) = JS.all_chars p a && JS.all_chars p b.
Proof.
  induction a as [|c a IH]; simpl; [reflexivity|]. rewrite IH. apply andb_assoc.
Qed.

Lemma split_pieces sep s : Forall (fun x => JS.all_chars (fun c => negb (Ascii.eqb c sep)) x = true)
                                  (JS.split sep s).
Proof.
  induction s as [|c t IH]; simpl; [repeat constructor|].
  destruct (Ascii.eqb c sep) eqn:Hc; [constructor; [reflexivity|exact IH]|].
  destruct (JS.split sep t) as [|x r]; [repeat constructor; simpl; rewrite Hc; reflexivity|].
  inversion IH; subst. constructor; [|assumption]. simpl. rewrite Hc. assumption.
Qed.

Lemma split_whole sep a :
  JS.all_chars (fun c => negb (Ascii.eqb c sep)) a = true -> JS.split sep a = [a].
Proof.
  induction a as [|c a IH]; simpl; [reflexivity|].
  intros H. apply andb_prop in H. destruct H as [Hc Ha].
  apply negb_true_iff in Hc. rewrite Hc, (IH Ha). reflexivity.
Qed.

Lemma split_at_sep sep a r :
  JS.all_chars (fun c => negb (Ascii.eqb c sep)) a = true ->
  JS.split sep (a ++ String sep r) = a :: JS.split sep r.
Proof.
  induction a as [|c a IH]; simpl.
  - intros _. rewrite Ascii.eqb_refl. reflexivity.
  - intros H. apply andb_prop in H. destruct H as [Hc Ha].
    apply negb_true_iff in Hc. rewrite Hc, (IH Ha). reflexivity.
Qed.

Lemma blank_not_comma pad : blank pad = true -> JS.all_chars not_comma pad = true.
Proof.
  induction pad as [|c pad IH]; simpl; [reflexivity|].
  intros H. apply andb_prop in H. destruct H as [Hc Hp]. rewrite (IH Hp).
  rewrite andb_true_r. revert Hc.
  destruct c as [[] [] [] [] [] [] [] []]; vm_compute; intros H;
    first [discriminate H | reflexivity].
Qed.

Lemma trim_padded pad n : blank pad = true -> JS.trim (pad ++ n) = JS.trim n.
Proof.
  intros Hp. unfold JS.trim. rewrite trimStart_app, Hp. reflexivity.
Qed.

Lemma append_nil_r (s : string) : s ++ EmptyString = s.
Proof. induction s as [|c s IH]; simpl; [reflexivity|]. rewrite IH. reflexivity. Qed.

Lemma attachments_of_joined names :
  Forall clean_name names ->
  forall pad, blank pad = true ->
    filter JS.truthy (map JS.trim (JS.split "," (pad ++ String.concat ", " names))) = names.
Proof.
  induction 1 as [|n rest (Hne & Htrim & Hcomma) Hrest IH]; intros pad Hpad.
  - simpl. rewrite append_nil_r.
    rewrite (split_whole "," pad (blank_not_comma pad Hpad)). simpl.
    rewrite (blank_trim pad Hpad). reflexivity.
  - assert (Hpn : JS.all_chars (fun c => negb (Ascii.eqb c ",")) (pad ++ n) = true).
    { change (JS.all_chars not_comma (pad ++ n) = true).
      rewrite all_chars_app, (blank_not_comma pad Hpad). exact Hcomma. }
    destruct rest as [|m rest].
    + simpl. rewrite (split_whole "," _ Hpn).
      simpl. rewrite (trim_padded pad n Hpad), Htrim.
      destruct n; [congruence|reflexivity].
    + change (String.concat ", " (n :: m :: rest))
        with (n ++ String "," (" " ++ String.concat ", " (m :: rest))).
      rewrite <- append_assoc.
      rewrite (split_at_sep "," _ _ Hpn).
      cbn [map filter]. rewrite (trim_padded pad n Hpad), Htrim.
      rewrite (IH " " eq_refl).
      destruct n; [congruence|reflexivity].
Qed.

(** X6. The attachment names the form hands to [detect] are clean: none is
    empty, none has white space around it, none holds a comma.  So the
    attachment loop of [detect] never meets a blank name from the form. *)
Theorem attachmentsOf_names_are_clean (raw : string) :
  Forall clean_name (attachmentsOf raw)
  /\ Forall (fun f => JS.truthy (JS.trim (JS.toLowerCase f)) = true) (attachmentsOf raw).
Proof.
  assert (Hclean : Forall clean_name (attachmentsOf raw)).
  { unfold attachmentsOf. apply Forall_forall. intros x Hx.
    apply filter_In in Hx. destruct Hx as [Hin Ht].
    apply in_map_iff in Hin. destruct Hin as (y & <- & Hy).
    repeat split.
    - intros Heq. rewrite Heq in Ht. discriminate.
    - apply trim_idem.
    - apply all_chars_trim.
      pose proof (split_pieces "," raw) as Hp. rewrite Forall_forall in Hp.
      exact (Hp y Hy). }
  split; [exact Hclean|].
  eapply Forall_impl; [|exact Hclean]. simpl. intros f (Hne & Htrim & _).
  destruct (JS.trim (JS.toLowerCase f)) as [|c t] eqn:Hl; [|reflexivity].
  exfalso. apply Hne.
  assert (Hb : blank f = true).
  { clear Htrim Hne. unfold JS.trim in Hl.
    assert (Hs : JS.trimStart (JS.toLowerCase f) = EmptyString).
    { destruct (trimStart_cases (JS.toLowerCase f)) as [H|(c & t & H & Hc)]; [exact H|].
      rewrite H in Hl. destruct (trimEnd_head c t Hc) as [t' Ht']. congruence. }
    clear Hl. induction f as [|c f IH]; [reflexivity|].
    unfold JS.toLowerCase in Hs. simpl in Hs.
    destruct (JS.is_space (JS.lower_char c)) eqn:Hc; [|discriminate].
    unfold blank. simpl.
    assert (Hc' : JS.is_space c = true).
    { revert Hc. destruct c as [[] [] [] [] [] [] [] []]; vm_compute; intros H;
        first [discriminate H | reflexivity]. }
    rewrite Hc'. simpl. apply IH, Hs. }
  rewrite <- Htrim. apply blank_trim, Hb.
Qed.

(** X7. Reading back a list of clean names of ASCII characters written with
    a comma and a space between them gives the list. *)
Theorem attachmentsOf_reads_back_joined_names (names : list string) :
  Forall (fun n => clean_name n /\ ascii_text n = true) names ->
  attachmentsOf (String.concat ", " names) = names.
Proof.
  intros H. unfold attachmentsOf.
  assert (Hc : Forall clean_name names)
    by (eapply Forall_impl; [|exact H]; intros n Hn; exact (proj1 Hn)).
  exact (attachments_of_joined names Hc EmptyString eq_refl).
Qed.

Lemma attachmentsOf_reads_back_joined_names_witness :
  attachmentsOf (String.concat ", " ["invoice.docm"; "setup.exe"])
  = ["invoice.docm"; "setup.exe"].
Proof.
  apply (attachmentsOf_reads_back_joined_names ["invoice.docm"; "setup.exe"]).
  repeat constructor; try discriminate.
Defined.

(* ================================================================== *)
(** * Where a match hands over to what follows *)
(* ================================================================== *)

Lemma after_refl st : after st st.
Proof. exists EmptyString. reflexivity. Qed.

Lemma after_trans a b c : after a b -> after b c -> after a c.
Proof.
  intros [p Hp] [q Hq]. exists (p ++ q). rewrite Hp, Hq. symmetry. apply append_assoc.
Qed.

(** A match that succeeds has called its continuation, with success, on a
    state further in the input. *)
Lemma m_calls r :
  forall k st res,
    Regex.m r k st = Some res -> exists st', after st st' /\ k st' = Some res.
Proof.
  induction r as [p| |a IHa b IHb|a IHa b IHb|g a IHa|n a IHa| |];
    intros k st res Hm; cbn [Regex.m] in Hm.
  - destruct (Regex.rest st) as [|c t] eqn:Hrest; [discriminate|].
    destruct (p c); [|discriminate].
    eexists. split; [|exact Hm]. exists (String c EmptyString). simpl. exact Hrest.
  - exists st. split; [apply after_refl|exact Hm].
  - destruct (IHa _ _ _ Hm) as (st1 & H1 & Hm1).
    destruct (IHb _ _ _ Hm1) as (st2 & H2 & Hm2).
    exists st2. split; [exact (after_trans _ _ _ H1 H2)|exact Hm2].
  - unfold Regex.first_some in Hm. destruct (Regex.m a k st) as [x|] eqn:Ha.
    + inversion Hm; subst. exact (IHa _ _ _ Ha).
    + exact (IHb _ _ _ Hm).
  - revert Hm. generalize (S (String.length (Regex.rest st))). intros fuel.
    assert (Hgen : forall st1, after st st1 ->
               Regex.star_loop g (Regex.m a) k fuel st1 = Some res ->
               exists st', after st st' /\ k st' = Some res).
    { induction fuel as [|f IHf]; intros st1 H1 Hm; cbn [Regex.star_loop] in Hm.
      - exists st1. split; assumption.
      - cbv zeta in Hm.
        assert (Hagain :
          Regex.m a (fun st' =>
            if (Regex.pos st1 <? Regex.pos st')%nat
            then Regex.star_loop g (Regex.m a) k f st' else None) st1 = Some res ->
          exists st', after st st' /\ k st' = Some res).
        { intros Ha. destruct (IHa _ _ _ Ha) as (st2 & H2 & Hm2).
          destruct (Regex.pos st1 <? Regex.pos st2)%nat; [|discriminate].
          exact (IHf st2 (after_trans _ _ _ H1 H2) Hm2). }
        unfold Regex.first_some in Hm. destruct g.
        + match type of Hm with
          | match ?x with _ => _ end = _ => destruct x as [y|] eqn:Hx
          end.
          * inversion Hm; subst. exact (Hagain eq_refl).
          * exists st1. split; assumption.
        + destruct (k st1) as [y|] eqn:Hks.
          * inversion Hm; subst. exists st1. split; assumption.
          * exact (Hagain Hm). }
    intros Hm. exact (Hgen st (after_refl st) Hm).
  - destruct (IHa _ _ _ Hm) as (st1 & H1 & Hm1).
    eexists. split; [|exact Hm1]. exact H1.
  - destruct (Regex.pos st =? 0)%nat; [|discriminate].
    exists st. split; [apply after_refl|exact Hm].
  - destruct (Regex.rest st); [|discriminate].
    exists st. split; [apply after_refl|exact Hm].
Qed.

(** A literal under the flag i reads a text equal to it up to case. *)
Lemma m_liti_inv s :
  s <> EmptyString ->
  forall k st res,
    Regex.m (Regex.liti s) k st = Some res ->
    exists x t, Regex.rest st = x ++ t /\ same_ci x s
                /\ k (Regex.mkM (Regex.pos st + String.length x) t (Regex.caps st)) = Some res.
Proof.
  induction s as [|c s IH]; [congruence|]. intros _ k st res Hm.
  destruct s as [|c' s].
  - simpl in Hm. destruct (Regex.rest st) as [|y t] eqn:Hrest; [discriminate|].
    destruct (Regex.chi c y) eqn:Hy; [|discriminate].
    exists (String y EmptyString), t. repeat split.
    + unfold Regex.chi in Hy. apply Ascii.eqb_eq in Hy. exact Hy.
    + simpl. replace (Regex.pos st + 1) with (S (Regex.pos st)) by lia. exact Hm.
  - change (Regex.liti (String c (String c' s)))
      with (Regex.Seq (Regex.Chr (Regex.chi c)) (Regex.liti (String c' s))) in Hm.
    cbn [Regex.m] in Hm. destruct (Regex.rest st) as [|y t] eqn:Hrest; [discriminate|].
    destruct (Regex.chi c y) eqn:Hy; [|discriminate].
    destruct (IH ltac:(discriminate) _ _ _ Hm) as (x & t' & Hx & Hci & Hk).
    cbn [Regex.rest Regex.pos Regex.caps] in *.
    exists (String y x), t'. repeat split.
    + simpl. rewrite Hx. reflexivity.
    + unfold Regex.chi in Hy. apply Ascii.eqb_eq in Hy. exact Hy.
    + exact Hci.
    + simpl. replace (Regex.pos st + S (String.length x))
        with (S (Regex.pos st) + String.length x) by lia. exact Hk.
Qed.

Lemma alts_liti_inv exts :
  Forall (fun e => e <> EmptyString) exts -> exts <> [] ->
  forall k st res,
    Regex.m (Regex.alts (map Regex.liti exts)) k st = Some res ->
    exists e x t, In e exts /\ Regex.rest st = x ++ t /\ same_ci x e
                  /\ k (Regex.mkM (Regex.pos st + String.length x) t (Regex.caps st))
                     = Some res.
Proof.
  induction 1 as [|e exts He Hexts IH]; [congruence|]. intros _ k st res Hm.
  destruct exts as [|e' exts].
  - simpl in Hm. destruct (m_liti_inv e He _ _ _ Hm) as (x & t & H1 & H2 & H3).
    exists e, x, t. repeat split; try assumption. left. reflexivity.
  - change (Regex.alts (map Regex.liti (e :: e' :: exts)))
      with (Regex.Alt (Regex.liti e) (Regex.alts (map Regex.liti (e' :: exts)))) in Hm.
    cbn [Regex.m] in Hm. unfold Regex.first_some in Hm.
    destruct (Regex.m (Regex.liti e) k st) as [y|] eqn:Hfirst.
    + inversion Hm; subst.
      destruct (m_liti_inv e He _ _ _ Hfirst) as (x & t & H1 & H2 & H3).
      exists e, x, t. repeat split; try assumption. left. reflexivity.
    + destruct (IH ltac:(discriminate) _ _ _ Hm) as (e0 & x & t & H0 & H1 & H2 & H3).
      exists e0, x, t. repeat split; try assumption. right. exact H0.
Qed.

Lemma search_from_found r s :
  forall n x, Regex.search_from r s n = Some x ->
    exists sfx p st, suffix_of sfx s /\ Regex.m r Some (Regex.mkM p sfx []) = Some st.
Proof.
  induction s as [|c s IH]; intros n x H; simpl in H.
  - unfold Regex.exec_at in H.
    destruct (Regex.m r Some (Regex.mkM n EmptyString [])) as [st|] eqn:Hm; [|discriminate].
    exists EmptyString, n, st. split; [apply suffix_of_refl|exact Hm].
  - unfold Regex.exec_at in H.
    destruct (Regex.m r Some (Regex.mkM n (String c s) [])) as [st|] eqn:Hm.
    + exists (String c s), n, st. split; [apply suffix_of_refl|exact Hm].
    + destruct (IH _ _ H) as (sfx & p & st & [pre Hpre] & Hm').
      exists sfx, p, st. split; [|exact Hm'].
      exists (String c pre). simpl. rewrite Hpre. reflexivity.
Qed.

Lemma endsWith_app pre suf : JS.endsWith (pre ++ suf) suf = true.
Proof.
  induction pre as [|c pre IH].
  - cbn [append]. destruct suf; cbn [JS.endsWith]; rewrite String.eqb_refl; reflexivity.
  - change (String c pre ++ suf) with (String c (pre ++ suf)).
    cbn [JS.endsWith]. rewrite IH. apply orb_true_r.
Qed.

Lemma same_ci_lowered x e : same_ci x e -> lowered x = true -> lowered e = true -> x = e.
Proof.
  revert e. induction x as [|a x IH]; intros [|b e] H Hx He; simpl in H; try tauto.
  destruct H as [Hab Hrest]. unfold lowered in *. simpl in Hx, He.
  apply andb_prop in Hx. destruct Hx as [Ha Hx].
  apply andb_prop in He. destruct He as [Hb He].
  apply Ascii.eqb_eq in Ha. apply Ascii.eqb_eq in Hb.
  f_equal; [congruence|apply IH; assumption].
Qed.

Lemma lowered_app a b : lowered (a ++ b) = lowered a && lowered b.
Proof. apply all_chars_app. Qed.

Lemma lowered_toLowerCase s : lowered (JS.toLowerCase s) = true.
Proof.
  induction s as [|c s IH]; [reflexivity|].
  unfold lowered, JS.toLowerCase in *. simpl. rewrite IH, andb_true_r.
  destruct c as [[] [] [] [] [] [] [] []]; reflexivity.
Qed.

(* ================================================================== *)
(** * Double extensions *)
(* ================================================================== *)

(** What the double-extension pattern finds: the text ends in a dot and one
    of the five extensions, up to case. *)
Lemma doubleExt_inv s :
  Regex.test doubleExtRe s = true ->
  exists pre x e,
    In e ["exe"; "bat"; "scr"; "cmd"; "js"] /\ s = pre ++ "." ++ x /\ same_ci x e.
Proof.
  unfold Regex.test, Regex.exec. intros Ht.
  destruct (Regex.search_from doubleExtRe s 0) as [mt|] eqn:Hs; [clear Ht|discriminate].
  destruct (search_from_found _ _ _ _ Hs) as (sfx & p & res & [pre0 Hpre0] & Hm).
  change doubleExtRe with
    (Regex.Seq (Regex.lit ".")
       (Regex.Seq (Regex.Grp 1 (Regex.Plus (Regex.Chr JS.is_word)))
          (Regex.Seq (Regex.lit ".")
             (Regex.Seq
                (Regex.Grp 2 (Regex.alts (map Regex.liti ["exe"; "bat"; "scr"; "cmd"; "js"])))
                Regex.Eos)))) in Hm.
  cbn [Regex.m] in Hm.
  destruct (m_calls _ _ _ _ Hm) as (st1 & [pre1 H1] & Hm1). clear Hm.
  destruct (m_calls _ _ _ _ Hm1) as (st2' & [pre2 H2] & Hm2). clear Hm1.
  cbn [Regex.rest Regex.pos Regex.caps] in *.
  change (Regex.lit ".") with (Regex.Chr (Regex.ch ".")) in Hm2.
  cbn [Regex.m Regex.rest Regex.pos Regex.caps] in Hm2.
  destruct (Regex.rest st2') as [|c t] eqn:Hrest2; [discriminate|].
  destruct (Regex.ch "." c) eqn:Hc; [|discriminate].
  unfold Regex.ch in Hc. apply Ascii.eqb_eq in Hc. subst c.
  destruct (alts_liti_inv ["exe"; "bat"; "scr"; "cmd"; "js"]
              ltac:(repeat constructor; discriminate) ltac:(discriminate)
              _ _ _ Hm2) as (e & x & t' & He & Hx & Hci & Hk).
  cbn [Regex.rest Regex.pos Regex.caps] in *.
  destruct t' as [|? ?]; [|discriminate]. rewrite append_nil_r in Hx. subst t.
  exists (pre0 ++ pre1 ++ pre2), x, e. repeat split; try assumption.
  rewrite Hpre0, H1, H2. rewrite !append_assoc. reflexivity.
Qed.

(** X8. A file name in which the double-extension pattern matches also ends
    in a dangerous extension: the attachment step then reports both, the
    dangerous attachment first, and adds 10, and never the macro rule. *)
Theorem double_extension_is_also_dangerous (file : string) (st : Acc) :
  Regex.test doubleExtRe (JS.trim (JS.toLowerCase file)) = true ->
  existsb (fun ext => JS.endsWith (JS.trim (JS.toLowerCase file)) ext) DANGEROUS_EXTS = true
  /\ attachmentStep st file =
       fire doubleExtension ("Double-extension trick: " ++ file)
         (fire dangerousAttachment ("Dangerous attachment: " ++ file) st).
Proof.
  intros Ht. set (lo := JS.trim (JS.toLowerCase file)) in *.
  assert (Hd : existsb (fun ext => JS.endsWith lo ext) DANGEROUS_EXTS = true).
  { destruct (doubleExt_inv lo Ht) as (pre & x & e & He & Hlo & Hci).
    assert (Hlow : lowered lo = true)
      by (apply all_chars_trim, lowered_toLowerCase).
    assert (Hx : x = e).
    { apply same_ci_lowered; [exact Hci| |].
      - rewrite Hlo in Hlow. rewrite !lowered_app in Hlow.
        apply andb_prop in Hlow. destruct Hlow as [_ Hlow].
        apply andb_prop in Hlow. apply Hlow.
      - simpl in He. intuition (subst; reflexivity). }
    subst x. apply existsb_exists. exists ("." ++ e). split.
    - simpl in He. simpl. intuition (subst; simpl; tauto).
    - rewrite Hlo. apply endsWith_app. }
  split; [exact Hd|].
  unfold attachmentStep. fold lo. cbv zeta.
  destruct (JS.truthy lo) eqn:Htr.
  - cbn [negb]. rewrite Hd, Ht.
    destruct (existsb (fun ext => JS.endsWith lo ext) RISKY_OFFICE_EXTS) eqn:Hm;
      [exfalso; exact (dangerous_excludes_macro lo Hd Hm)|reflexivity].
  - destruct lo; [discriminate Ht|discriminate Htr].
Qed.

Lemma double_extension_is_also_dangerous_witness :
  attachmentStep empty "Report.PDF.exe" =
    fire doubleExtension ("Double-extension trick: " ++ "Report.PDF.exe")
      (fire dangerousAttachment ("Dangerous attachment: " ++ "Report.PDF.exe") empty).
Proof.
  apply (proj2 (double_extension_is_also_dangerous "Report.PDF.exe" empty
                  ltac:(vm_compute; reflexivity))).
Defined.

(* ================================================================== *)
(** * The keyword detector *)
(* ================================================================== *)

Lemma test_chr p s : Regex.test (Regex.Chr p) s = any_char p s.
Proof.
  unfold Regex.test, Regex.exec. generalize 0 as n.
  induction s as [|c s IH]; intros n; cbn [Regex.search_from any_char];
    unfold Regex.exec_at; cbn [Regex.m Regex.rest].
  - reflexivity.
  - destruct (p c); [reflexivity|]. cbn [orb]. apply IH.
Qed.

Lemma includes_app_l a n b : JS.includes b n = true -> JS.includes (a ++ b) n = true.
Proof.
  intros H. induction a as [|x a IH]; [exact H|].
  change (String x a ++ b) with (String x (a ++ b)).
  cbn [JS.includes]. rewrite IH. apply orb_true_r.
Qed.

Lemma countStep_fold text l :
  forall z,
    fold_left (SimpleEmailDetector.countStep text) l z
    = (z + Z.of_nat (List.length (filter (JS.includes text) l)))%Z.
Proof.
  induction l as [|kw l IH]; intros z; cbn [fold_left filter].
  - simpl. lia.
  - rewrite IH. unfold SimpleEmailDetector.countStep.
    destruct (JS.includes text kw); cbn [List.length]; lia.
Qed.

Lemma filter_length_mono {A} (p q : A -> bool) l :
  (forall x, p x = true -> q x = true) ->
  (List.length (filter p l) <= List.length (filter q l))%nat.
Proof.
  intros H. induction l as [|x l IH]; simpl; [lia|].
  destruct (p x) eqn:Hp.
  - rewrite (H x Hp). simpl. lia.
  - destruct (q x); simpl; lia.
Qed.

(** X9. The keyword detector counts the listed keywords that occur in the
    lower-cased text, each once: the count is between 0 and 4, the verdict
    is the suspicious one exactly from two keywords on, and text put before
    or after an email never lowers its count, so it never turns a suspicious
    verdict into the other one. *)
Theorem checkEmail_counts_keywords (emailText pre post : string) :
  let n := List.length (filter (JS.includes (JS.toLowerCase emailText))
                          SimpleEmailDetector.suspiciousKeywords) in
  SimpleEmailDetector.score emailText = Z.of_nat n
  /\ (n <= 4)%nat
  /\ (SimpleEmailDetector.checkEmail emailText = SimpleEmailDetector.SUSPICIOUS <-> (2 <= n)%nat)
  /\ (SimpleEmailDetector.checkEmail emailText = SimpleEmailDetector.OKAY <-> (n < 2)%nat)
  /\ (SimpleEmailDetector.score emailText
      <= SimpleEmailDetector.score (pre ++ emailText ++ post))%Z
  /\ (SimpleEmailDetector.checkEmail emailText = SimpleEmailDetector.SUSPICIOUS ->
      SimpleEmailDetector.checkEmail (pre ++ emailText ++ post)
      = SimpleEmailDetector.SUSPICIOUS).
Proof.
  intros n.
  assert (Hs : forall t, SimpleEmailDetector.score t
                 = Z.of_nat (List.length (filter (JS.includes (JS.toLowerCase t))
                                            SimpleEmailDetector.suspiciousKeywords))).
  { intros t. unfold SimpleEmailDetector.score. cbv zeta. rewrite countStep_fold. lia. }
  assert (Hn : (n <= 4)%nat).
  { unfold n. etransitivity; [apply filter_length_le|]. simpl. lia. }
  assert (Hmono : (SimpleEmailDetector.score emailText
                   <= SimpleEmailDetector.score (pre ++ emailText ++ post))%Z).
  { rewrite !Hs. apply inj_le. apply filter_length_mono. intros kw Hkw.
    unfold JS.toLowerCase. rewrite !map_chars_app.
    apply includes_app_l, includes_app, Hkw. }
  assert (Hv : forall t, SimpleEmailDetector.checkEmail t = SimpleEmailDetector.SUSPICIOUS
                         <-> (2 <= SimpleEmailDetector.score t)%Z).
  { intros t. unfold SimpleEmailDetector.checkEmail.
    destruct (Z.leb_spec 2 (SimpleEmailDetector.score t)); split; intros H';
      try reflexivity; try lia; discriminate H'. }
  split; [apply Hs|]. split; [exact Hn|].
  split; [rewrite Hv, Hs; fold n; lia|].
  split.
  - unfold SimpleEmailDetector.checkEmail. rewrite Hs. fold n.
    destruct (Z.leb_spec 2 (Z.of_nat n)); split; intros H';
      try reflexivity; try lia; discriminate H'.
  - split; [exact Hmono|]. rewrite !Hv. lia.
Qed.

(* ================================================================== *)
(** * The password analyzer *)
(* ================================================================== *)

Lemma star_loop_Some g ma fuel st :
  exists r, Regex.star_loop g ma Some fuel st = Some r.
Proof.
  destruct fuel as [|f]; cbn [Regex.star_loop]; [eauto|]. cbv zeta.
  destruct g; unfold Regex.first_some.
  - match goal with |- context [match ?x with _ => _ end] => destruct x end; eauto.
  - eauto.
Qed.

Lemma atLeast8_short s :
  forall n, (String.length s < 8)%nat ->
    Regex.search_from PasswordSecurityAnalyzer.atLeast8 s n = None.
Proof.
  assert (Hat : forall s n, (String.length s < 8)%nat ->
            Regex.exec_at PasswordSecurityAnalyzer.atLeast8 s n = None).
  { intros t n Hlen. unfold Regex.exec_at, PasswordSecurityAnalyzer.atLeast8.
    cbn [seqs Regex.m Regex.rest Regex.pos Regex.caps].
    do 8 (destruct t as [|? t]; [reflexivity|];
          match goal with |- context [if ?b then _ else _] => destruct b end;
          [|reflexivity]; cbn [Regex.m Regex.rest Regex.pos Regex.caps]).
    simpl in Hlen. lia. }
  induction s as [|c s IH]; intros n Hlen; cbn [Regex.search_from].
  - rewrite Hat by exact Hlen. reflexivity.
  - rewrite Hat by exact Hlen. apply IH. simpl in Hlen. lia.
Qed.

Lemma atLeast8_long s :
  JS.all_chars dot s = true -> (8 <= String.length s)%nat ->
  Regex.test PasswordSecurityAnalyzer.atLeast8 s = true.
Proof.
  intros Hall Hlen. unfold Regex.test, Regex.exec.
  assert (Hat : exists x, Regex.exec_at PasswordSecurityAnalyzer.atLeast8 s 0 = Some x).
  { unfold Regex.exec_at, PasswordSecurityAnalyzer.atLeast8.
    cbn [seqs Regex.m Regex.rest Regex.pos Regex.caps].
    do 8 (destruct s as [|? s]; [simpl in Hlen; lia|];
          cbn [JS.all_chars] in Hall; apply andb_prop in Hall;
          destruct Hall as [Hc Hall]; rewrite Hc; clear Hc;
          cbn [Regex.m Regex.rest Regex.pos Regex.caps]).
    match goal with
    | |- context [Regex.star_loop ?g ?ma Some ?f ?st] =>
        destruct (star_loop_Some g ma f st) as [r ->]
    end. eauto. }
  destruct Hat as [x Hx].
  destruct s; cbn [Regex.search_from]; rewrite Hx; reflexivity.
Qed.

Lemma test_atLeast8 s :
  JS.all_chars dot s = true ->
  Regex.test PasswordSecurityAnalyzer.atLeast8 s = (8 <=? String.length s)%nat.
Proof.
  intros Hall. destruct (Nat.leb_spec 8%nat (String.length s)) as [H|H].
  - apply atLeast8_long; assumption.
  - unfold Regex.test, Regex.exec. rewrite atLeast8_short by exact H. reflexivity.
Qed.

Lemma passed_le_5 password : (PasswordSecurityAnalyzer.passed password <= 5)%nat.
Proof.
  unfold PasswordSecurityAnalyzer.passed.
  etransitivity; [apply filter_length_le|]. simpl. lia.
Qed.

Lemma label_by_passed password :
  PasswordSecurityAnalyzer.strengthLabel password
  = (if (PasswordSecurityAnalyzer.passed password <=? 2)%nat then "Weak"
     else if (PasswordSecurityAnalyzer.passed password <=? 4)%nat then "Medium"
     else "Strong").
Proof.
  pose proof (passed_le_5 password) as H.
  unfold PasswordSecurityAnalyzer.strengthLabel, PasswordSecurityAnalyzer.score.
  destruct (PasswordSecurityAnalyzer.passed password) as [|[|[|[|[|[|n]]]]]];
    try reflexivity. lia.
Qed.

Lemma color_by_passed password :
  PasswordSecurityAnalyzer.getBarColor password
  = (if (PasswordSecurityAnalyzer.passed password <=? 2)%nat then "bg-red-500"
     else if (PasswordSecurityAnalyzer.passed password <=? 4)%nat then "bg-yellow-400"
     else "bg-green-500").
Proof.
  pose proof (passed_le_5 password) as H.
  unfold PasswordSecurityAnalyzer.getBarColor, PasswordSecurityAnalyzer.score.
  destruct (PasswordSecurityAnalyzer.passed password) as [|[|[|[|[|[|n]]]]]];
    try reflexivity. lia.
Qed.

(** X10. The strength shown for a password depends on the number of rules it
    passes alone: at most two rules give Weak on a red bar, three or four
    give Medium on a yellow bar, and only all five give Strong on a green
    bar. *)
Theorem strength_by_rules_passed (password : string) :
  let n := PasswordSecurityAnalyzer.passed password in
  (n <= 5)%nat
  /\ ((n <= 2)%nat <->
      PasswordSecurityAnalyzer.strengthLabel password = "Weak"
      /\ PasswordSecurityAnalyzer.getBarColor password = "bg-red-500")
  /\ ((3 <= n <= 4)%nat <->
      PasswordSecurityAnalyzer.strengthLabel password = "Medium"
      /\ PasswordSecurityAnalyzer.getBarColor password = "bg-yellow-400")
  /\ (n = 5%nat <->
      PasswordSecurityAnalyzer.strengthLabel password = "Strong"
      /\ PasswordSecurityAnalyzer.getBarColor password = "bg-green-500").
Proof.
  intros n. pose proof (passed_le_5 password) as H. fold n in H.
  rewrite label_by_passed, color_by_passed. fold n.
  split; [exact H|].
  destruct n as [|[|[|[|[|[|n]]]]]]; cbn [Nat.leb];
    repeat split; intros; try lia; try discriminate;
    try (exfalso; intuition discriminate).
Qed.

(** X11. For a password of ASCII characters without a line break the five
    rules are: at least eight characters, an upper-case letter, a lower-case
    letter, a digit, and a character that is neither letter nor digit.  The
    password is called Strong exactly when all five hold. *)
Theorem strong_password_shape (password : string) :
  ascii_text password = true ->
  JS.all_chars dot password = true ->
  PasswordSecurityAnalyzer.passed password
  = (Nat.b2n (8 <=? String.length password)
     + Nat.b2n (any_char JS.is_upper password)
     + Nat.b2n (any_char JS.is_lower password)
     + Nat.b2n (any_char JS.is_digit password)
     + Nat.b2n (any_char (Regex.notc PasswordSecurityAnalyzer.alnum) password))%nat
  /\ (PasswordSecurityAnalyzer.strengthLabel password = "Strong" <->
      (8 <= String.length password)%nat
      /\ any_char JS.is_upper password = true
      /\ any_char JS.is_lower password = true
      /\ any_char JS.is_digit password = true
      /\ any_char (Regex.notc PasswordSecurityAnalyzer.alnum) password = true).
Proof.
  intros _ Hall.
  assert (Hp : PasswordSecurityAnalyzer.passed password
               = (Nat.b2n (8 <=? String.length password)
                 + Nat.b2n (any_char JS.is_upper password)
                 + Nat.b2n (any_char JS.is_lower password)
                 + Nat.b2n (any_char JS.is_digit password)
                 + Nat.b2n (any_char (Regex.notc PasswordSecurityAnalyzer.alnum) password))%nat).
  { unfold PasswordSecurityAnalyzer.passed, PasswordSecurityAnalyzer.rules.
    cbn [filter PasswordSecurityAnalyzer.regex].
    rewrite (test_atLeast8 password Hall), !test_chr.
    destruct (8 <=? String.length password)%nat, (any_char JS.is_upper password),
      (any_char JS.is_lower password), (any_char JS.is_digit password),
      (any_char (Regex.notc PasswordSecurityAnalyzer.alnum) password); reflexivity. }
  split; [exact Hp|].
  rewrite label_by_passed, Hp.
  destruct (Nat.leb_spec 8%nat (String.length password)) as [H8|H8];
    destruct (any_char JS.is_upper password), (any_char JS.is_lower password),
      (any_char JS.is_digit password),
      (any_char (Regex.notc PasswordSecurityAnalyzer.alnum) password);
    cbn [Nat.b2n Nat.add Nat.leb]; split;
    first [ intros H'; discriminate H'
          | intros (H1 & H2 & H3 & H4 & H5); first [lia | discriminate]
          | intros _; repeat split; first [assumption | reflexivity]
          | reflexivity ].
Qed.

Lemma strong_password_shape_witness :
  PasswordSecurityAnalyzer.strengthLabel "Passw0rd!" = "Strong"
  /\ PasswordSecurityAnalyzer.strengthLabel "password1!" <> "Strong".
Proof.
  split.
  - apply (proj2 (strong_password_shape "Passw0rd!" ltac:(reflexivity)
                    ltac:(reflexivity))).
    repeat split; simpl; lia.
  - intros H.
    apply (proj2 (strong_password_shape "password1!" ltac:(reflexivity)
                    ltac:(reflexivity))) in H.
    destruct H as (_ & H & _). discriminate H.
Defined.

Lemma char_in_some_class c :
  JS.is_lower c = true \/ JS.is_upper c = true \/ JS.is_digit c = true
  \/ Regex.notc PasswordSecurityAnalyzer.alnum c = true.
Proof.
  unfold Regex.notc, PasswordSecurityAnalyzer.alnum.
  destruct (JS.is_upper c), (JS.is_lower c), (JS.is_digit c); simpl; tauto.
Qed.

(** X12. The character-set size of a password is 0 for the empty password
    only: every character is a lower-case letter, an upper-case letter, a
    digit or counted as a symbol, so a non-empty password has a size between
    10 and 94, and the fallback base 1 of the key space is used for the
    empty password alone. *)
Theorem charsetSize_zero_only_when_empty (password : string) :
  (0 <= PasswordSecurityAnalyzer.charsetSize password <= 94)%Z
  /\ (PasswordSecurityAnalyzer.charsetSize password = 0%Z <-> password = EmptyString)
  /\ (password <> EmptyString ->
      (10 <= PasswordSecurityAnalyzer.charsetSize password)%Z
      /\ PasswordSecurityAnalyzer.keyspaceBase password
         = PasswordSecurityAnalyzer.charsetSize password)
  /\ PasswordSecurityAnalyzer.keyspaceBase EmptyString = 1%Z.
Proof.
  assert (Hb : (0 <= PasswordSecurityAnalyzer.charsetSize password <= 94)%Z).
  { unfold PasswordSecurityAnalyzer.charsetSize.
    repeat match goal with |- context [if ?b then _ else _] => destruct b end; lia. }
  assert (Hne : password <> EmptyString ->
                (10 <= PasswordSecurityAnalyzer.charsetSize password)%Z).
  { intros Hp. destruct password as [|c t]; [congruence|].
    unfold PasswordSecurityAnalyzer.charsetSize. rewrite !test_chr.
    cbn [any_char].
    destruct (char_in_some_class c) as [H|[H|[H|H]]]; rewrite H; cbn [orb];
      repeat match goal with |- context [if ?b then _ else _] => destruct b end; lia. }
  split; [exact Hb|]. split; [|split].
  - split.
    + intros H0. destruct password as [|c t]; [reflexivity|].
      assert (String c t <> EmptyString) as Hp by discriminate.
      specialize (Hne Hp). lia.
    + intros ->. reflexivity.
  - intros Hp. split; [exact (Hne Hp)|].
    unfold PasswordSecurityAnalyzer.keyspaceBase.
    destruct (Z.eqb_spec (PasswordSecurityAnalyzer.charsetSize password) 0) as [H0|H0];
      [specialize (Hne Hp); lia|reflexivity].
  - reflexivity.
Qed.

Lemma charsetSize_zero_only_when_empty_witness :
  (10 <= PasswordSecurityAnalyzer.charsetSize "7")%Z
  /\ PasswordSecurityAnalyzer.keyspaceBase "7" = PasswordSecurityAnalyzer.charsetSize "7".
Proof.
  apply (proj1 (proj2 (proj2 (charsetSize_zero_only_when_empty "7")))).
  discriminate.
Defined.

(* ================================================================== *)
(** * The website detector *)
(* ================================================================== *)

Lemma any_char_notc p s : any_char (Regex.notc p) s = negb (JS.all_chars p s).
Proof.
  induction s as [|c s IH]; simpl; [reflexivity|].
  rewrite IH. unfold Regex.notc. destruct (p c); reflexivity.
Qed.

Lemma search_from_at r s n x :
  Regex.exec_at r s n = Some x -> Regex.search_from r s n = Some x.
Proof. intros H. destruct s; cbn [Regex.search_from]; rewrite H; reflexivity. Qed.

(** X13. The website detector calls a URL legitimate exactly when every
    check it lists is passed: the URL is parsed, its protocol is https, no
    character of the host name is in the invalid set, the host name has
    between 2 and 253 characters, and the address pattern does not match
    it.  A URL that does not parse is never called legitimate. *)
Theorem website_verdict_follows_the_checks (newURL : string -> option URL) (url : string) :
  let r := WebsiteDetector.validateWebsite newURL url in
  legitimate (snd r) = forallb WebsiteDetector.passed (fst r)
  /\ (legitimate (snd r) = true <->
      exists u, newURL url = Some u
        /\ WebsiteDetector.replaceFirst ":" EmptyString (protocol u) = "https"
        /\ any_char WebsiteDetector.invalidClass (hostname u) = false
        /\ (1 < String.length (hostname u) <= 253)%nat
        /\ Regex.test WebsiteDetector.ipRegex (hostname u) = false
        /\ snd r = "✅ This website looks legitimate: " ++ hostname u).
Proof.
  intros r. unfold r, WebsiteDetector.validateWebsite.
  destruct (newURL url) as [u|].
  - cbv zeta. cbn [app forallb WebsiteDetector.passed fst snd andb].
    unfold WebsiteDetector.invalidChars. rewrite test_chr.
    set (prot := WebsiteDetector.replaceFirst ":" EmptyString (protocol u)).
    set (host := hostname u).
    match goal with
    | |- context [if ?b then _ else _] => set (ok := b)
    end.
    assert (Hok : ok = true <->
              prot = "https"
              /\ any_char WebsiteDetector.invalidClass host = false
              /\ (1 < String.length host <= 253)%nat
              /\ Regex.test WebsiteDetector.ipRegex host = false).
    { unfold ok. rewrite !andb_true_iff, orb_true_iff, !negb_true_iff,
        !String.eqb_eq, Nat.ltb_lt, Nat.leb_le. tauto. }
    destruct ok.
    + split; [reflexivity|]. split.
      * intros _. exists u. destruct (proj1 Hok eq_refl) as (H1 & H2 & H3 & H4).
        exact (conj eq_refl (conj H1 (conj H2 (conj H3 (conj H4 eq_refl))))).
      * intros _. reflexivity.
    + split; [reflexivity|]. split.
      * intros H'. discriminate H'.
      * intros (u' & Hu & Hp' & Hi' & Hl & Hip' & _). injection Hu as <-.
        assert (false = true) as H' by (apply Hok; exact (conj Hp' (conj Hi' (conj Hl Hip')))).
        discriminate H'.
  - cbn [fst snd forallb WebsiteDetector.passed andb]. split; [reflexivity|]. split.
    + intros H'. discriminate H'.
    + intros (u' & Hu & _). discriminate Hu.
Qed.

Lemma digit_not_dot c : JS.is_digit c = true -> Regex.ch "." c = false.
Proof.
  intros H. unfold Regex.ch. destruct (Ascii.eqb_spec c ".") as [->|Hc]; [discriminate H|reflexivity].
Qed.

Lemma octet_shape s :
  octet s = true ->
  exists c1 t, s = String c1 t /\ JS.is_digit c1 = true
    /\ (t = EmptyString
        \/ exists c2 t', t = String c2 t' /\ JS.is_digit c2 = true
             /\ (t' = EmptyString
                 \/ exists c3, t' = String c3 EmptyString /\ JS.is_digit c3 = true)).
Proof.
  unfold octet. intros H. apply andb_prop in H. destruct H as [H Hd].
  apply andb_prop in H. destruct H as [H1 H3].
  destruct s as [|c1 [|c2 [|c3 [|c4 t]]]]; simpl in H1, H3, Hd; try discriminate;
    repeat (apply andb_prop in Hd; let Hc := fresh "Hc" in destruct Hd as [Hc Hd]).
  - exists c1, EmptyString. auto.
  - exists c1, (String c2 EmptyString). repeat split; auto. right.
    exists c2, EmptyString. auto.
  - exists c1, (String c2 (String c3 EmptyString)). repeat split; auto. right.
    exists c2, (String c3 EmptyString). repeat split; auto. right. exists c3. auto.
Qed.

Lemma octetDot_step a r k p cs :
  octet a = true ->
  exists st', Regex.rest st' = r
    /\ Regex.m WebsiteDetector.octetDot k (Regex.mkM p (a ++ String "." r) cs) = k st'.
Proof.
  intros Ha.
  destruct (octet_shape a Ha) as (c1 & t & -> & H1 & [->|(c2 & t' & -> & H2 & [->|(c3 & -> & H3)])]);
    unfold WebsiteDetector.octetDot, WebsiteDetector.digits13, WebsiteDetector.digit,
      Regex.Opt, Regex.lit;
    cbn [append Regex.lit_with Regex.m Regex.rest Regex.pos Regex.caps Regex.first_some];
    rewrite ?H1, ?H2, ?H3;
    cbn [append Regex.lit_with Regex.m Regex.rest Regex.pos Regex.caps Regex.first_some];
    rewrite ?H1, ?H2, ?H3, ?(digit_not_dot _ H1), ?(digit_not_dot _ H2), ?(digit_not_dot _ H3);
    change (JS.is_digit ".") with false; change (Regex.ch "." ".") with true;
    cbn [Regex.first_some Regex.rest Regex.pos Regex.caps].
  - eexists. split; [|reflexivity]. reflexivity.
  - exists (Regex.mkM (S (S (S p))) r cs). split; [reflexivity|].
    unfold Regex.first_some. destruct (k _); reflexivity.
  - exists (Regex.mkM (S (S (S (S p)))) r cs). split; [reflexivity|].
    unfold Regex.first_some. destruct (k _); reflexivity.
Qed.

Lemma digits13_end a k p cs :
  octet a = true ->
  (forall st, Regex.rest st = EmptyString -> exists r, k st = Some r) ->
  exists st, Regex.m WebsiteDetector.digits13 k (Regex.mkM p a cs) = Some st.
Proof.
  intros Ha Hk.
  destruct (octet_shape a Ha) as (c1 & t & -> & H1 & [->|(c2 & t' & -> & H2 & [->|(c3 & -> & H3)])]);
    unfold WebsiteDetector.digits13, WebsiteDetector.digit, Regex.Opt;
    cbn [Regex.m Regex.rest Regex.pos Regex.caps];
    rewrite ?H1, ?H2, ?H3;
    cbn [Regex.m Regex.rest Regex.pos Regex.caps];
    rewrite ?H1, ?H2, ?H3;
    cbn [Regex.m Regex.rest Regex.pos Regex.caps];
    match goal with
    | |- context [k ?st] => destruct (Hk st eq_refl) as [r ->]
    end;
    cbn [Regex.first_some]; eauto.
Qed.

Lemma ipRegex_dotted_quad a b c d :
  octet a = true -> octet b = true -> octet c = true -> octet d = true ->
  Regex.test WebsiteDetector.ipRegex (a ++ "." ++ b ++ "." ++ c ++ "." ++ d) = true.
Proof.
  intros Ha Hb Hc Hd. unfold Regex.test, Regex.exec.
  assert (Hat : exists x,
             Regex.exec_at WebsiteDetector.ipRegex
               (a ++ "." ++ b ++ "." ++ c ++ "." ++ d) 0 = Some x).
  { unfold Regex.exec_at, WebsiteDetector.ipRegex.
    cbn [seqs Regex.m Regex.pos Nat.eqb append].
    match goal with
    | |- context [Regex.m WebsiteDetector.octetDot ?k (Regex.mkM ?p (a ++ String "." ?r) ?cs)] =>
        destruct (octetDot_step a r k p cs Ha) as ([p1 r1 cs1] & Hr1 & ->)
    end.
    cbn [Regex.rest] in Hr1. subst r1.
    match goal with
    | |- context [Regex.m WebsiteDetector.octetDot ?k (Regex.mkM ?p (b ++ String "." ?r) ?cs)] =>
        destruct (octetDot_step b r k p cs Hb) as ([p2 r2 cs2] & Hr2 & ->)
    end.
    cbn [Regex.rest] in Hr2. subst r2.
    match goal with
    | |- context [Regex.m WebsiteDetector.octetDot ?k (Regex.mkM ?p (c ++ String "." ?r) ?cs)] =>
        destruct (octetDot_step c r k p cs Hc) as ([p3 r3 cs3] & Hr3 & ->)
    end.
    cbn [Regex.rest] in Hr3. subst r3.
    match goal with
    | |- context [Regex.m WebsiteDetector.digits13 ?k ?st0] =>
        destruct (digits13_end d k p3 cs3 Hd) as [st ->]
    end.
    - intros [p4 r4 cs4] Hr4. cbn [Regex.rest] in Hr4. subst r4.
      cbn [Regex.rest]. eauto.
    - cbn [Regex.first_some]. eauto. }
  destruct Hat as [x Hx]. rewrite (search_from_at _ _ _ _ Hx). reflexivity.
Qed.

(** X14. A host name written as four groups of one to three digits with
    dots between them matches the address pattern of the website detector,
    whatever the digits, so a URL with such a host is never called
    legitimate. *)
Theorem dotted_quad_host_is_never_legitimate
  (newURL : string -> option URL) (url : string) (u : URL) (a b c d : string) :
  octet a = true -> octet b = true -> octet c = true -> octet d = true ->
  newURL url = Some u ->
  hostname u = a ++ "." ++ b ++ "." ++ c ++ "." ++ d ->
  Regex.test WebsiteDetector.ipRegex (hostname u) = true
  /\ In (WebsiteDetector.mkCheck "Domain is not a raw IP address" false)
        (fst (WebsiteDetector.validateWebsite newURL url))
  /\ snd (WebsiteDetector.validateWebsite newURL url)
     = "⚠️ This website may be suspicious: " ++ hostname u.
Proof.
  intros Ha Hb Hc Hd Hu Hh.
  assert (Hip : Regex.test WebsiteDetector.ipRegex (hostname u) = true)
    by (rewrite Hh; apply ipRegex_dotted_quad; assumption).
  split; [exact Hip|].
  unfold WebsiteDetector.validateWebsite. rewrite Hu. cbv zeta.
  cbn [app forallb WebsiteDetector.passed fst snd]. rewrite Hip. cbn [negb].
  rewrite !andb_false_r. split; [|reflexivity].
  do 5 right. left. reflexivity.
Qed.

Lemma dotted_quad_host_is_never_legitimate_witness :
  snd (WebsiteDetector.validateWebsite
         (fun _ => Some (mkURL "https:" "192.168.1.10" "/login" "" ""))
         "https://192.168.1.10/login")
  = "⚠️ This website may be suspicious: " ++ "192.168.1.10".
Proof.
  apply (proj2 (proj2 (dotted_quad_host_is_never_legitimate
                         (fun _ => Some (mkURL "https:" "192.168.1.10" "/login" "" ""))
                         "https://192.168.1.10/login"
                         (mkURL "https:" "192.168.1.10" "/login" "" "")
                         "192" "168" "1" "10"
                         ltac:(reflexivity) ltac:(reflexivity) ltac:(reflexivity)
                         ltac:(reflexivity) ltac:(reflexivity) ltac:(reflexivity)))).
Defined.

(* ================================================================== *)
(** * The URL detector *)
(* ================================================================== *)

Lemma endsWith_hyphen c t :
  JS.endsWith (String c t) "-"
  = (Ascii.eqb c "-" && negb (JS.truthy t)) || JS.endsWith t "-".
Proof.
  cbn [JS.endsWith]. f_equal.
  change (String.eqb (String c t) "-") with (Ascii.eqb c "-" && String.eqb t EmptyString).
  destruct t; reflexivity.
Qed.

Lemma hyphenEdge_later s :
  forall n,
    match Regex.search_from URLDetector.hyphenEdge s (S n) with
    | Some _ => true
    | None => false
    end = JS.endsWith s "-".
Proof.
  induction s as [|c t IH]; intros n; [reflexivity|].
  rewrite endsWith_hyphen. cbn [Regex.search_from].
  unfold Regex.exec_at at 1, URLDetector.hyphenEdge, Regex.lit.
  cbn [Regex.lit_with Regex.m Regex.pos Regex.rest Regex.caps Nat.eqb Regex.first_some].
  unfold Regex.ch. destruct (Ascii.eqb c "-"); cbn [andb orb].
  - destruct t as [|c' t']; [reflexivity|]. cbn [JS.truthy negb orb]. apply IH.
  - apply IH.
Qed.

Lemma test_hyphenEdge s :
  Regex.test URLDetector.hyphenEdge s = JS.prefix "-" s || JS.endsWith s "-".
Proof.
  unfold Regex.test, Regex.exec. destruct s as [|c t]; [reflexivity|].
  rewrite endsWith_hyphen. cbn [Regex.search_from JS.prefix].
  unfold Regex.exec_at at 1, URLDetector.hyphenEdge, Regex.lit.
  cbn [Regex.lit_with Regex.m Regex.pos Regex.rest Regex.caps Nat.eqb Regex.first_some].
  unfold Regex.ch. rewrite (ascii_eqb_sym "-" c).
  destruct (Ascii.eqb c "-"); cbn [andb orb]; [reflexivity|].
  exact (hyphenEdge_later t 0).
Qed.

Lemma labelsLoop_forallb labels :
  URLDetector.labelsLoop labels = forallb goodLabel labels.
Proof.
  induction labels as [|l more IH]; [reflexivity|].
  cbn [URLDetector.labelsLoop forallb]. unfold goodLabel at 1.
  unfold URLDetector.badLabelChar. rewrite test_chr, any_char_notc, test_hyphenEdge.
  destruct (JS.truthy l); [|reflexivity]. cbn [negb andb].
  destruct (JS.all_chars URLDetector.labelChar l); [|reflexivity]. cbn [negb andb].
  destruct (JS.prefix "-" l); [reflexivity|].
  destruct (JS.endsWith l "-"); [reflexivity|]. exact IH.
Qed.

Lemma split_chars (p : ascii -> bool) sep s :
  Forall (fun l => JS.all_chars p l = true) (JS.split sep s) ->
  JS.all_chars (fun c => p c || Ascii.eqb c sep) s = true.
Proof.
  induction s as [|c t IH]; [reflexivity|]. cbn [JS.split JS.all_chars].
  destruct (Ascii.eqb c sep) eqn:Hc.
  - intros H. inversion H; subst. rewrite orb_true_r. cbn [andb]. apply IH. assumption.
  - destruct (JS.split sep t) as [|x r] eqn:Hs.
    + intros H. inversion H as [|? ? Hx _]; subst. cbn [JS.all_chars] in Hx.
      apply andb_prop in Hx. destruct Hx as [Hpc _]. rewrite Hpc. cbn [orb andb].
      apply IH. constructor.
    + intros H. inversion H as [|? ? Hx Hr]; subst. cbn [JS.all_chars] in Hx.
      apply andb_prop in Hx. destruct Hx as [Hpc Hx]. rewrite Hpc. cbn [orb andb].
      apply IH. constructor; assumption.
Qed.

(** X15. A domain passes [isValidDomain] exactly when every label between
    its dots is non-empty, is made of letters, digits and hyphens, and
    neither begins nor ends with a hyphen.  A domain that passes is not
    empty and holds letters, digits, hyphens and dots only. *)
Theorem isValidDomain_by_labels (domain : string) :
  URLDetector.isValidDomain domain = forallb goodLabel (JS.split "." domain)
  /\ (URLDetector.isValidDomain domain = true ->
      domain <> EmptyString
      /\ JS.all_chars (fun c => URLDetector.labelChar c || Ascii.eqb c ".") domain = true).
Proof.
  assert (H : URLDetector.isValidDomain domain = forallb goodLabel (JS.split "." domain))
    by (unfold URLDetector.isValidDomain; apply labelsLoop_forallb).
  split; [exact H|]. rewrite H. intros Hv. split.
  - intros ->. discriminate Hv.
  - apply split_chars. rewrite forallb_forall in Hv. apply Forall_forall.
    intros l Hl. specialize (Hv l Hl). unfold goodLabel in Hv.
    apply andb_prop in Hv. destruct Hv as [Hv _].
    apply andb_prop in Hv. destruct Hv as [Hv _].
    apply andb_prop in Hv. apply Hv.
Qed.

Lemma isValidDomain_by_labels_witness :
  "exa-mple.co.uk" <> EmptyString
  /\ JS.all_chars (fun c => URLDetector.labelChar c || Ascii.eqb c ".") "exa-mple.co.uk" = true.
Proof.
  apply (proj2 (isValidDomain_by_labels "exa-mple.co.uk")). reflexivity.
Defined.

Lemma checkPart_issue issues part name :
  URLDetector.checkPart issues part name
  = (issues ++ (if JS.all_chars URLDetector.urlChar part then []
                else [(name ++ " contains invalid characters")%string]))%list.
Proof.
  unfold URLDetector.checkPart, URLDetector.invalidChars.
  rewrite test_chr, any_char_notc.
  destruct (JS.all_chars URLDetector.urlChar part); cbn [negb];
    [rewrite app_nil_r|]; reflexivity.
Qed.

(** X16. [isValidURLPath] reports the path, the query and the fragment, in
    this order, each when one of its characters is outside the letters,
    the digits and the listed punctuation; it reports nothing exactly when
    all three parts hold such characters only. *)
Theorem isValidURLPath_issues (urlObj : URL) :
  URLDetector.isValidURLPath urlObj
  = ((if JS.all_chars URLDetector.urlChar (pathname urlObj) then []
      else ["Path contains invalid characters"])
     ++ (if JS.all_chars URLDetector.urlChar (search urlObj) then []
         else ["Query contains invalid characters"])
     ++ (if JS.all_chars URLDetector.urlChar (hash urlObj) then []
         else ["Fragment contains invalid characters"]))%list
  /\ (URLDetector.isValidURLPath urlObj = [] <->
      JS.all_chars URLDetector.urlChar (pathname urlObj ++ search urlObj ++ hash urlObj)
      = true).
Proof.
  assert (H : URLDetector.isValidURLPath urlObj
    = ((if JS.all_chars URLDetector.urlChar (pathname urlObj) then []
        else ["Path contains invalid characters"])
       ++ (if JS.all_chars URLDetector.urlChar (search urlObj) then []
           else ["Query contains invalid characters"])
       ++ (if JS.all_chars URLDetector.urlChar (hash urlObj) then []
           else ["Fragment contains invalid characters"]))%list).
  { unfold URLDetector.isValidURLPath. cbv zeta. rewrite !checkPart_issue.
    cbn [app]. rewrite <- app_assoc. reflexivity. }
  split; [exact H|]. rewrite H, !all_chars_app.
  destruct (JS.all_chars URLDetector.urlChar (pathname urlObj)),
    (JS.all_chars URLDetector.urlChar (search urlObj)),
    (JS.all_chars URLDetector.urlChar (hash urlObj)); cbn [app andb];
    split; intros H'; first [reflexivity | discriminate H'].
Qed.

Lemma pushIssue_fold issues :
  forall st,
    fold_left URLDetector.pushIssue issues st
    = ((fst st ++ map (fun issue => ("❌ " ++ issue)%string) issues)%list,
       (snd st ++ issues)%list).
Proof.
  induction issues as [|i l IH]; intros [w c]; cbn [fold_left map fst snd].
  - rewrite !app_nil_r. reflexivity.
  - rewrite IH. unfold URLDetector.pushIssue. cbn [fst snd].
    rewrite <- !app_assoc. reflexivity.
Qed.

Lemma schemeRe_https x : Regex.test URLDetector.schemeRe ("https://" ++ x) = true.
Proof.
  unfold Regex.test, Regex.exec. cbn [append].
  assert (H : exists r, Regex.exec_at URLDetector.schemeRe
                          (String "h" (String "t" (String "t" (String "p"
                             (String "s" (String ":" (String "/" (String "/" x)))))))) 0
                        = Some r).
  { unfold Regex.exec_at. vm_compute. eauto. }
  destruct H as [r Hr]. cbn [Regex.search_from]. rewrite Hr. reflexivity.
Qed.

Lemma warnings_not_legitimate issues :
  Forall (fun line => legitimate line = false)
    (map (fun issue => ("❌ " ++ issue)%string) issues).
Proof. induction issues; constructor; [reflexivity|assumption]. Qed.

Lemma domainChecks_shape (toASCII toUnicode : string -> string) domain :
  let st := URLDetector.domainChecks toASCII toUnicode domain ([], []) in
  Forall (fun line => legitimate line = false) (fst st)
  /\ List.length (snd st) = List.length (fst st)
  /\ (fst st = [] ->
      URLDetector.isValidDomain domain = true
      /\ toASCII domain = domain
      /\ existsb (String.eqb (URLDetector.lastLabel domain)) URLDetector.suspiciousTLDs
         = false).
Proof.
  unfold URLDetector.domainChecks. cbv zeta.
  destruct (URLDetector.isValidDomain domain);
    destruct (String.eqb_spec (toASCII domain) domain) as [Hascii|Hascii];
    destruct (URLDetector.lastLabel domain) as [|c t] eqn:Htld;
    cbn [JS.truthy negb andb fst snd app];
    try (destruct (existsb (String.eqb (String c t)) URLDetector.suspiciousTLDs) eqn:Hsus;
         cbn [fst snd app]);
    (split; [repeat (constructor; [reflexivity|]); constructor|]);
    (split; [reflexivity|]);
    intros H; first [discriminate H | repeat split; first [assumption | reflexivity]].
Qed.

(** X17. What [checkURL] reports is never empty and is of one of two kinds.
    Either it is the single line that calls the URL legitimate, with the
    four-item checklist: then the URL read begins with http:// or https://,
    a domain was found in it, the domain passes [isValidDomain], is its own
    ASCII form, its last label is not a listed top-level domain, and path,
    query and fragment raise no issue.  Or it is a list of warnings, none of
    which calls the URL legitimate, with one checklist item for each. *)
Theorem checkURL_report
  (newURL : string -> option URL) (getDomain : string -> option string)
  (toASCII toUnicode : string -> string) (input : string)
  (warningMessages checklistItems : list string) :
  URLDetector.checkURL newURL getDomain toASCII toUnicode input
  = URLDetector.Report warningMessages checklistItems ->
  warningMessages <> [] /\ checklistItems <> []
  /\ ((exists url urlObj domain,
          warningMessages = [URLDetector.LEGITIMATE ++ url]
          /\ checklistItems = LEGITIMATE_CHECKLIST
          /\ Regex.test URLDetector.schemeRe url = true
          /\ newURL url = Some urlObj
          /\ getDomain url = Some domain
          /\ URLDetector.isValidDomain domain = true
          /\ toASCII domain = domain
          /\ existsb (String.eqb (URLDetector.lastLabel domain)) URLDetector.suspiciousTLDs
             = false
          /\ URLDetector.isValidURLPath urlObj = [])
      \/ (Forall (fun line => legitimate line = false) warningMessages
          /\ List.length checklistItems = List.length warningMessages)).
Proof.
  unfold URLDetector.checkURL. cbv zeta.
  destruct (JS.truthy (JS.trim input)); cbn [negb]; [|discriminate].
  set (url := if negb (Regex.test URLDetector.schemeRe (JS.trim input))
              then "https://" ++ JS.trim input else JS.trim input).
  assert (Hscheme : Regex.test URLDetector.schemeRe url = true).
  { unfold url. destruct (Regex.test URLDetector.schemeRe (JS.trim input)) eqn:Ht;
      cbn [negb]; [exact Ht|apply schemeRe_https]. }
  destruct (newURL url) as [urlObj|] eqn:Hnew; [|discriminate].
  rewrite !pushIssue_fold.
  pose proof (warnings_not_legitimate (URLDetector.isValidURLPath urlObj)) as Hw.
  destruct (JS.nonEmpty (getDomain url)) as [domain|] eqn:Hdom.
  - assert (Hget : getDomain url = Some domain).
    { unfold JS.nonEmpty in Hdom. destruct (getDomain url) as [d|]; [|discriminate].
      destruct (JS.truthy d); [exact Hdom|discriminate]. }
    destruct (domainChecks_shape toASCII toUnicode domain) as (Hf & Hl & He).
    destruct (URLDetector.domainChecks toASCII toUnicode domain ([], [])) as [w c].
    cbn [fst snd] in *.
    destruct (w ++ map (fun issue => ("❌ " ++ issue)%string)
                     (URLDetector.isValidURLPath urlObj))%list as [|line more] eqn:Happ.
    + apply app_eq_nil in Happ. destruct Happ as [-> Hmap].
      apply map_eq_nil in Hmap. destruct c; [|discriminate Hl].
      rewrite Hmap. cbn [app]. intros H. injection H as <- <-.
      split; [discriminate|]. split; [discriminate|]. left.
      destruct (He eq_refl) as (H1 & H2 & H3).
      exists url, urlObj, domain. repeat split; assumption.
    + intros H. injection H as <- <-.
      split; [discriminate|]. split.
      * intros Hc. apply app_eq_nil in Hc. destruct Hc as [-> Hi].
        destruct w; [|discriminate Hl]. rewrite Hi in Happ. discriminate Happ.
      * right. rewrite <- Happ. split.
        -- apply Forall_app. split; assumption.
        -- rewrite !length_app, length_map, Hl. reflexivity.
  - cbn [fst snd app]. intros H. injection H as <- <-.
    split; [discriminate|]. split; [discriminate|]. right. split.
    + constructor; [reflexivity|exact Hw].
    + cbn [List.length]. rewrite length_map. reflexivity.
Qed.

Lemma checkURL_report_witness :
  Forall (fun line => legitimate line = false)
    [ "⚠️ Suspicious top-level domain: .xyz"; "❌ Path contains invalid characters" ].
Proof.
  pose proof (checkURL_report
                (fun _ => Some (mkURL "https:" "shop.xyz" "/a|b" "" ""))
                (fun _ => Some "shop.xyz") (fun d => d) (fun d => d)
                " shop.xyz/a|b "
                [ "⚠️ Suspicious top-level domain: .xyz";
                  "❌ Path contains invalid characters" ]
                [ "Suspicious TLD detected"; "Path contains invalid characters" ]
                ltac:(vm_compute; reflexivity)) as H.
  destruct H as (_ & _ & [(url & urlObj & domain & Hw & _)|[Hf _]]);
    [discriminate Hw|exact Hf].
Defined.

(* ================================================================== *)
(** * The quiz *)
(* ================================================================== *)

Lemma step_Inv questions s e :
  QuizShell.Inv questions s ->
  exists s', QuizShell.step questions s e = Some s' /\ QuizShell.Inv questions s'.
Proof.
  intros (Hi & Hs & Hx). unfold QuizShell.step.
  destruct (QuizShell.enabled questions e s) eqn:He;
    [|exists s; split; [reflexivity|repeat split; assumption]].
  destruct s as [i sel sc ex fin]. cbn [QuizShell.index QuizShell.score
    QuizShell.showExplanation QuizShell.finished QuizShell.selected] in *.
  destruct e as [c| | |]; cbn [QuizShell.enabled QuizShell.index QuizShell.score
    QuizShell.showExplanation QuizShell.finished QuizShell.selected] in He.
  - eexists. split; [reflexivity|]. unfold QuizShell.choose, QuizShell.Inv.
    cbn [QuizShell.index QuizShell.score QuizShell.showExplanation QuizShell.finished
           QuizShell.selected].
    destruct ex; cbn [negb QuizShell.index QuizShell.score QuizShell.showExplanation
                        QuizShell.finished QuizShell.selected];
      repeat split; try assumption. intros H'. discriminate H'.
  - apply andb_prop in He. destruct He as [Hfin He].
    apply negb_true_iff in Hfin, He. subst fin.
    destruct sel as [c|]; [|discriminate He]. cbn [orb] in He. subst ex.
    unfold QuizShell.submit, QuizShell.q.
    cbn [QuizShell.index QuizShell.score QuizShell.showExplanation QuizShell.finished
           QuizShell.selected].
    destruct (nth_error questions i) as [question|] eqn:Hq;
      [|apply nth_error_None in Hq; lia].
    eexists. split; [reflexivity|]. unfold QuizShell.Inv.
    cbn [QuizShell.index QuizShell.score QuizShell.showExplanation QuizShell.finished
           QuizShell.selected orb] in *.
    repeat split; [assumption| |intros _; discriminate].
    destruct (c =? QuizShell.answer question)%nat; lia.
  - apply andb_prop in He. destruct He as [Hfin He].
    apply negb_true_iff in Hfin. subst fin ex.
    eexists. split; [reflexivity|]. unfold QuizShell.next, QuizShell.Inv.
    cbn [QuizShell.index QuizShell.score QuizShell.showExplanation QuizShell.finished
           QuizShell.selected orb] in *.
    destruct (Nat.leb_spec (List.length questions) (i + 1));
      cbn [QuizShell.index QuizShell.score QuizShell.showExplanation QuizShell.finished
             QuizShell.selected orb];
      repeat split; try lia; try (intros H'; discriminate H').
  - eexists. split; [reflexivity|]. unfold QuizShell.restart, QuizShell.Inv.
    cbn [QuizShell.index QuizShell.score QuizShell.showExplanation QuizShell.finished
           QuizShell.selected orb].
    repeat split; try lia; try (intros H'; discriminate H').
Qed.

Lemma run_Inv questions es :
  forall s, QuizShell.Inv questions s ->
    exists s', QuizShell.run questions s es = Some s' /\ QuizShell.Inv questions s'.
Proof.
  induction es as [|e es IH]; intros s Hs; cbn [QuizShell.run]; [eauto|].
  destruct (step_Inv questions s e Hs) as (s1 & -> & H1). apply IH, H1.
Qed.

Lemma step_Agree questions s t e s' :
  QuizShell.Inv questions s -> Agree s t ->
  QuizShell.step questions s e = Some s' ->
  Agree s' (tallyStep questions s t e).
Proof.
  intros (Hi & _ & Hx) (Hsc & Hle & Hsub) Hstep.
  unfold QuizShell.step in Hstep. unfold tallyStep.
  destruct (QuizShell.enabled questions e s) eqn:He;
    [|injection Hstep as <-; repeat split; assumption].
  destruct s as [i sel sc ex fin]. unfold Agree, accountedFor in *.
  cbn [QuizShell.index QuizShell.score QuizShell.showExplanation QuizShell.finished
         QuizShell.selected] in *.
  destruct e as [c| | |]; cbn [QuizShell.enabled QuizShell.index QuizShell.score
    QuizShell.showExplanation QuizShell.finished QuizShell.selected] in He.
  - injection Hstep as <-. unfold QuizShell.choose.
    cbn [QuizShell.index QuizShell.score QuizShell.showExplanation QuizShell.finished
           QuizShell.selected].
    destruct ex; cbn [negb QuizShell.index QuizShell.score QuizShell.showExplanation
                        QuizShell.finished QuizShell.selected];
      repeat split; assumption.
  - apply andb_prop in He. destruct He as [Hfin He].
    apply negb_true_iff in Hfin, He. subst fin.
    destruct sel as [c|]; [|discriminate He]. cbn [orb] in He. subst ex.
    unfold QuizShell.submit, QuizShell.q in *.
    cbn [QuizShell.index QuizShell.score QuizShell.showExplanation QuizShell.finished
           QuizShell.selected orb] in *.
    destruct (nth_error questions i) as [question|] eqn:Hq; [|discriminate Hstep].
    injection Hstep as <-.
    cbn [QuizShell.index QuizShell.score QuizShell.showExplanation QuizShell.finished
           QuizShell.selected orb submitted correct].
    destruct (c =? QuizShell.answer question)%nat; repeat split; lia.
  - apply andb_prop in He. destruct He as [Hfin He].
    apply negb_true_iff in Hfin. subst fin ex.
    injection Hstep as <-. unfold QuizShell.next.
    cbn [QuizShell.index QuizShell.score QuizShell.showExplanation QuizShell.finished
           QuizShell.selected orb] in *.
    destruct (Nat.leb_spec (List.length questions) (i + 1));
      cbn [QuizShell.index QuizShell.score QuizShell.showExplanation QuizShell.finished
             QuizShell.selected orb];
      repeat split; lia.
  - injection Hstep as <-. unfold QuizShell.restart.
    cbn [QuizShell.index QuizShell.score QuizShell.showExplanation QuizShell.finished
           QuizShell.selected orb submitted correct].
    repeat split; lia.
Qed.

Lemma run_Agree questions clicks :
  forall s t, QuizShell.Inv questions s -> Agree s t ->
    exists s', QuizShell.run questions s clicks = Some s'
      /\ QuizShell.Inv questions s'
      /\ Agree s' (tally questions s t clicks).
Proof.
  induction clicks as [|e clicks IH]; intros s t Hs Ht;
    cbn [QuizShell.run tally]; [eauto|].
  destruct (step_Inv questions s e Hs) as (s1 & Hstep & H1). rewrite Hstep.
  apply IH; [exact H1|exact (step_Agree questions s t e s1 Hs Ht Hstep)].
Qed.

(** X18. With a bank that is not empty, whatever the player clicks, and in
    whatever order, no click fails and the quiz always stands on a question
    of the bank.  The score is the number of right answers among the
    submissions made since the quiz was last started; these submissions are
    as many as the questions before the one on display, and one more once
    that one is submitted, so never more than the bank holds; and an
    explanation is only shown with a choice selected. *)
Theorem quiz_stays_within_the_bank (questions : list QuizShell.Question)
  (clicks : list QuizShell.Event) :
  questions <> [] ->
  exists s,
    QuizShell.run questions QuizShell.initial clicks = Some s
    /\ (exists question, QuizShell.q questions s = Some question)
    /\ QuizShell.score s
       = correct (tally questions QuizShell.initial (mkTally 0 0) clicks)
    /\ (correct (tally questions QuizShell.initial (mkTally 0 0) clicks)
        <= submitted (tally questions QuizShell.initial (mkTally 0 0) clicks))%nat
    /\ submitted (tally questions QuizShell.initial (mkTally 0 0) clicks)
       = accountedFor s
    /\ (accountedFor s <= List.length questions)%nat
    /\ (QuizShell.showExplanation s = true -> QuizShell.selected s <> None).
Proof.
  intros Hne.
  assert (H0 : QuizShell.Inv questions QuizShell.initial).
  { unfold QuizShell.Inv. cbn. split; [|split].
    - destruct questions; [congruence|simpl; lia].
    - lia.
    - intros H'. discriminate H'. }
  assert (A0 : Agree QuizShell.initial (mkTally 0 0))
    by (repeat split; reflexivity).
  destruct (run_Agree questions clicks _ _ H0 A0)
    as (s & Hrun & (Hi & Hs & Hx) & (Hsc & Hle & Hsub)).
  exists s. split; [exact Hrun|]. split; [|split; [exact Hsc|split; [exact Hle|
    split; [exact Hsub|split; [|exact Hx]]]]].
  - unfold QuizShell.q. destruct (nth_error questions (QuizShell.index s)) eqn:Hq;
      [eauto|apply nth_error_None in Hq; lia].
  - unfold accountedFor.
    destruct (QuizShell.showExplanation s || QuizShell.finished s); lia.
Qed.

Lemma quiz_stays_within_the_bank_witness :
  exists s,
    QuizShell.run QuizShell.urlQuestions QuizShell.initial
      [QuizShell.Submit; QuizShell.Choose 3; QuizShell.Choose 1; QuizShell.Submit;
       QuizShell.Submit; QuizShell.Choose 0; QuizShell.Next; QuizShell.Next;
       QuizShell.Choose 7; QuizShell.Choose 0; QuizShell.Submit] = Some s
    /\ QuizShell.score s = 1%nat
    /\ accountedFor s = 2%nat.
Proof.
  destruct (quiz_stays_within_the_bank QuizShell.urlQuestions
              [QuizShell.Submit; QuizShell.Choose 3; QuizShell.Choose 1; QuizShell.Submit;
               QuizShell.Submit; QuizShell.Choose 0; QuizShell.Next; QuizShell.Next;
               QuizShell.Choose 7; QuizShell.Choose 0; QuizShell.Submit]
              ltac:(discriminate))
    as (s & Hrun & _ & Hsc & _ & Hsub & _).
  exists s. split; [exact Hrun|]. split.
  - rewrite Hsc. reflexivity.
  - rewrite <- Hsub. reflexivity.
Defined.

Lemma nth_error_middle {A} (done : list A) x rest :
  nth_error (done ++ x :: rest) (List.length done) = Some x.
Proof. induction done as [|d done IH]; [reflexivity|exact IH]. Qed.

Lemma right_answer_round questions question i sc more :
  nth_error questions i = Some question ->
  (QuizShell.answer question < List.length (QuizShell.choices question))%nat ->
  QuizShell.run questions (QuizShell.mkState i None sc false false)
    (QuizShell.Choose (QuizShell.answer question) :: QuizShell.Submit
     :: QuizShell.Next :: more)
  = QuizShell.run questions
      (if (List.length questions <=? i + 1)%nat
       then QuizShell.mkState i None (S sc) false true
       else QuizShell.mkState (i + 1) None (S sc) false false)
      more.
Proof.
  intros Hq Hans. apply Nat.ltb_lt in Hans.
  cbn [QuizShell.run].
  unfold QuizShell.step at 1, QuizShell.enabled, QuizShell.q.
  cbn [QuizShell.index QuizShell.finished negb andb]. rewrite Hq, Hans.
  unfold QuizShell.choose.
  cbn [QuizShell.showExplanation QuizShell.index QuizShell.score QuizShell.finished
         QuizShell.selected negb].
  unfold QuizShell.step at 1, QuizShell.enabled.
  cbn [QuizShell.finished QuizShell.selected QuizShell.showExplanation negb orb andb].
  unfold QuizShell.submit, QuizShell.q.
  cbn [QuizShell.showExplanation QuizShell.index QuizShell.score QuizShell.finished
         QuizShell.selected].
  rewrite Hq, Nat.eqb_refl.
  unfold QuizShell.step at 1, QuizShell.enabled.
  cbn [QuizShell.finished QuizShell.selected QuizShell.showExplanation negb orb andb].
  unfold QuizShell.next.
  cbn [QuizShell.showExplanation QuizShell.index QuizShell.score QuizShell.finished
         QuizShell.selected].
  reflexivity.
Qed.

Lemma perfect_from rest :
  forall question done,
    Forall (fun qu => (QuizShell.answer qu < List.length (QuizShell.choices qu))%nat)
      (question :: rest) ->
    QuizShell.run (done ++ question :: rest)
      (QuizShell.mkState (List.length done) None (List.length done) false false)
      (QuizShell.perfectClicks (question :: rest))
    = Some (QuizShell.mkState (List.length (done ++ question :: rest) - 1) None
              (List.length (done ++ question :: rest)) false true).
Proof.
  induction rest as [|question' rest IH]; intros question done Hall;
    inversion Hall as [|? ? Hans Hrest]; subst;
    change (QuizShell.perfectClicks (question :: ?l))
      with (QuizShell.Choose (QuizShell.answer question) :: QuizShell.Submit
            :: QuizShell.Next :: QuizShell.perfectClicks l);
    rewrite (right_answer_round _ question _ _ _ (nth_error_middle done question _) Hans);
    rewrite length_app; cbn [List.length].
  - destruct (Nat.leb_spec (List.length done + 1) (List.length done + 1)); [|lia].
    cbn [QuizShell.perfectClicks flat_map QuizShell.run].
    do 2 f_equal; lia.
  - destruct (Nat.leb_spec (List.length done + S (S (List.length rest)))
                (List.length done + 1)); [lia|].
    specialize (IH question' (done ++ [question])%list Hrest).
    rewrite <- app_assoc in IH. cbn [app] in IH.
    rewrite !length_app in IH. cbn [List.length] in IH.
    replace (S (List.length done)) with (List.length done + 1)%nat by lia.
    rewrite IH. do 2 f_equal; lia.
Qed.

(** X19. A player who picks the right answer to every question, submits it
    and goes on, ends on the final view with a score equal to the number of
    questions, provided the bank is not empty and the answer of every
    question is one of its choices. *)
Theorem perfect_play_scores_full_marks (questions : list QuizShell.Question) :
  questions <> [] ->
  Forall (fun qu => (QuizShell.answer qu < List.length (QuizShell.choices qu))%nat)
    questions ->
  QuizShell.run questions QuizShell.initial (QuizShell.perfectClicks questions)
  = Some (QuizShell.mkState (List.length questions - 1) None (List.length questions)
            false true).
Proof.
  intros Hne Hall. destruct questions as [|question rest]; [congruence|].
  exact (perfect_from rest question [] Hall).
Qed.

Lemma perfect_play_scores_full_marks_witness :
  QuizShell.run QuizShell.urlQuestions QuizShell.initial
    (QuizShell.perfectClicks QuizShell.urlQuestions)
  = Some (QuizShell.mkState 1 None 2 false true).
Proof.
  apply (perfect_play_scores_full_marks QuizShell.urlQuestions).
  - discriminate.
  - repeat constructor.
Defined.

(* ================================================================== *)
(** * The From against Reply-To rule *)
(* ================================================================== *)

Lemma emailToDomain_nonempty E email d : emailToDomain E email = Some d -> JS.truthy d = true.
Proof.
  intros H. unfold emailToDomain in H.
  destruct (Regex.exec emailRe (JS.toLowerCase email)) as [x|]; [|discriminate].
  destruct (JS.orOpt (Regex.group 1 x) (Regex.group 2 x)) as [h|]; [|discriminate].
  destruct h as [|c h]; [discriminate|]. cbn [JS.truthy] in H.
  inversion H; subst; clear H. unfold JS.orElse.
  destruct (getDomain E (String c h)) as [[|c' d']|]; reflexivity.
Qed.

Lemma orElse_domain E email d :
  emailToDomain E email = Some d -> JS.orElse (emailToDomain E email) EmptyString = d.
Proof.
  intros H. pose proof (emailToDomain_nonempty E email d H) as Ht. rewrite H.
  destruct d; [discriminate Ht|reflexivity].
Qed.

Lemma no_mismatch_in st :
  Only (fun r => r <> replyToMismatch) st -> mismatchReasons (fst st) = [].
Proof.
  unfold Only, mismatchReasons. induction (fst st) as [|s l IH]; intros H; [reflexivity|].
  inversion H as [|? ? (r & Hr & Hn) Hl]; subst. cbn [filter]. rewrite Hr.
  destruct r; try congruence; apply IH, Hl.
Qed.

Lemma mismatchReasons_app a b :
  mismatchReasons (a ++ b) = (mismatchReasons a ++ mismatchReasons b)%list.
Proof. apply filter_app. Qed.

(** X20. Among the reasons of [detect], the From against Reply-To rule is
    reported exactly once, with both domains in its text, when both
    addresses have a domain and the two differ; it is not reported at all
    when one of the addresses has no domain or both have the same one.  No
    other rule of the detector produces a reason of this kind. *)
Theorem replyTo_mismatch_reported_once (E : Env) (i : DetectionInput) :
  (forall f r,
      emailToDomain E (fromEmail i) = Some f ->
      emailToDomain E (replyToEmail i) = Some r ->
      f <> r ->
      mismatchReasons (reasons (detect E i))
      = ["From (" ++ f ++ ") ≠ Reply-To (" ++ r ++ ")"])
  /\ (emailToDomain E (fromEmail i) = None
      \/ emailToDomain E (replyToEmail i) = None
      \/ emailToDomain E (fromEmail i) = emailToDomain E (replyToEmail i) ->
      mismatchReasons (reasons (detect E i)) = []).
Proof.
  assert (Hparts : mismatchReasons (reasons (detect E i))
                   = mismatchReasons
                       (fst (replyToStep
                               (JS.orElse (emailToDomain E (fromEmail i)) EmptyString)
                               (JS.orElse (emailToDomain E (replyToEmail i)) EmptyString)
                               empty))).
  { rewrite reasons_by_pass. cbv zeta. rewrite !mismatchReasons_app.
    rewrite (no_mismatch_in (fold_left (keywordStep _) PHISHING_KEYWORDS empty)).
    2:{ apply Only_fold; [|apply Only_empty].
        intros; apply Only_keywordStep; [discriminate|assumption]. }
    rewrite (no_mismatch_in (fold_left (urlStep E _) _ empty)).
    2:{ apply Only_fold; [|apply Only_empty].
        intros; apply Only_urlStep; try assumption; discriminate. }
    rewrite (no_mismatch_in (fold_left (linkStep E) _ empty)).
    2:{ apply Only_fold; [|apply Only_empty].
        intros; apply Only_linkStep; [discriminate|assumption]. }
    rewrite (no_mismatch_in (fold_left attachmentStep _ empty)).
    2:{ apply Only_fold; [|apply Only_empty].
        intros; apply Only_attachmentStep; try assumption; discriminate. }
    rewrite (no_mismatch_in (spfStep _ empty)).
    2:{ apply Only_spfStep; [discriminate|apply Only_empty]. }
    rewrite (no_mismatch_in (freeProviderStep _ _ _ empty)).
    2:{ apply Only_freeProviderStep; [discriminate|apply Only_empty]. }
    cbn [app]. rewrite !app_nil_r. reflexivity. }
  rewrite Hparts. split.
  - intros f r Hf Hr Hne.
    rewrite (orElse_domain E _ f Hf), (orElse_domain E _ r Hr).
    unfold replyToStep.
    rewrite (emailToDomain_nonempty E _ f Hf), (emailToDomain_nonempty E _ r Hr).
    destruct (String.eqb_spec f r) as [Heq|_]; [contradiction|].
    cbn [andb negb fire fst empty app]. unfold mismatchReasons. cbn [filter].
    replace (ruleOfReason ("From (" ++ f ++ ") ≠ Reply-To (" ++ r ++ ")"))
      with (Some replyToMismatch) by (symmetry; rule_of_reason).
    reflexivity.
  - intros [H|[H|H]].
    + rewrite H. reflexivity.
    + rewrite H. cbn [JS.orElse]. unfold replyToStep. cbn [JS.truthy].
      rewrite andb_false_r. reflexivity.
    + rewrite H. unfold replyToStep. rewrite String.eqb_refl. cbn [negb].
      rewrite andb_false_r. reflexivity.
Qed.

Lemma replyTo_mismatch_reported_once_witness :
  mismatchReasons
    (reasons (detect Tldts.env
                (mkInput "Invoice" "See the invoice." "billing@vendor.com"
                   "pay@collect.net" EmptyString []
                   (mkOptions true true 7))))
  = ["From (vendor.com) ≠ Reply-To (collect.net)"].
Proof.
  apply (proj1 (replyTo_mismatch_reported_once Tldts.env
                  (mkInput "Invoice" "See the invoice." "billing@vendor.com"
                     "pay@collect.net" EmptyString []
                     (mkOptions true true 7)))
           "vendor.com" "collect.net");
    [vm_compute; reflexivity|vm_compute; reflexivity|discriminate].
Defined.

(* ================================================================== *)
(** * What a match has read and which groups it has set *)
(* ================================================================== *)

Lemma went_refl st : went st st EmptyString [].
Proof. unfold went. simpl. repeat split. lia. Qed.

Lemma string_length_app (a b : string) :
  String.length (a ++ b) = String.length a + String.length b.
Proof. induction a as [|c a IH]; simpl; [reflexivity|]. rewrite IH. reflexivity. Qed.

Lemma went_trans st1 st2 st3 p1 n1 p2 n2 :
  went st1 st2 p1 n1 -> went st2 st3 p2 n2 -> went st1 st3 (p1 ++ p2) (n2 ++ n1)%list.
Proof.
  intros (Hr1 & Hp1 & Hc1) (Hr2 & Hp2 & Hc2). unfold went.
  rewrite Hr1, Hr2, Hp2, Hp1, Hc2, Hc1, string_length_app, append_assoc, app_assoc.
  repeat split. lia.
Qed.

Lemma lookup_app n a b :
  Regex.lookup n (a ++ b)
  = match Regex.lookup n a with Some s => Some s | None => Regex.lookup n b end.
Proof.
  induction a as [|[i s] a IH]; simpl; [reflexivity|].
  destruct (i =? n)%nat; [reflexivity|exact IH].
Qed.

Lemma append_nonempty_l (a b : string) : a <> EmptyString -> a ++ b <> EmptyString.
Proof. destruct a; [congruence|discriminate]. Qed.

Lemma append_nonempty_r (a b : string) : b <> EmptyString -> a ++ b <> EmptyString.
Proof. destruct a; [auto|discriminate]. Qed.

(** Where a match hands over to its continuation: what it has read up to
    there, the groups it has set, and that it has read a character when the
    pattern asks for one. *)
Lemma m_track r :
  forall k st res,
    Regex.m r k st = Some res ->
    exists st' pre new,
      went st st' pre new /\ k st' = Some res
      /\ (forall n, sets n r = true -> Regex.lookup n new <> None)
      /\ (readsOne r = true -> pre <> EmptyString).
Proof.
  induction r as [p| |a IHa b IHb|a IHa b IHb|g a IHa|i a IHa| |];
    intros k st res Hm; cbn [Regex.m] in Hm.
  - destruct st as [ps [|c t] cs]; cbn [Regex.rest Regex.pos Regex.caps] in Hm;
      [discriminate|].
    destruct (p c); [|discriminate].
    exists (Regex.mkM (S ps) t cs), (String c EmptyString), [].
    split; [|split; [exact Hm|split; [intros n Hn; discriminate Hn|intros _; discriminate]]].
    unfold went. simpl. repeat split. lia.
  - exists st, EmptyString, [].
    split; [apply went_refl|split; [exact Hm|split; intros; discriminate]].
  - destruct (IHa _ _ _ Hm) as (st1 & p1 & n1 & Hw1 & Hm1 & Hs1 & Hr1).
    destruct (IHb _ _ _ Hm1) as (st2 & p2 & n2 & Hw2 & Hm2 & Hs2 & Hr2).
    exists st2, (p1 ++ p2), (n2 ++ n1)%list.
    split; [exact (went_trans _ _ _ _ _ _ _ Hw1 Hw2)|split; [exact Hm2|split]].
    + intros n Hn. cbn [sets] in Hn. rewrite lookup_app.
      destruct (Regex.lookup n n2) eqn:H2; [discriminate|].
      apply orb_prop in Hn. destruct Hn as [Hn|Hn]; [exact (Hs1 n Hn)|].
      exfalso. exact (Hs2 n Hn H2).
    + intros Hn. cbn [readsOne] in Hn. apply orb_prop in Hn. destruct Hn as [Hn|Hn].
      * apply append_nonempty_l, Hr1, Hn.
      * apply append_nonempty_r, Hr2, Hn.
  - unfold Regex.first_some in Hm.
    destruct (Regex.m a k st) as [x|] eqn:Ha.
    + inversion Hm; subst.
      destruct (IHa _ _ _ Ha) as (st1 & p1 & n1 & Hw1 & Hm1 & Hs1 & Hr1).
      exists st1, p1, n1. split; [exact Hw1|split; [exact Hm1|split]].
      * intros n Hn. cbn [sets] in Hn. apply andb_prop in Hn. apply Hs1, Hn.
      * intros Hn. cbn [readsOne] in Hn. apply andb_prop in Hn. apply Hr1, Hn.
    + destruct (IHb _ _ _ Hm) as (st1 & p1 & n1 & Hw1 & Hm1 & Hs1 & Hr1).
      exists st1, p1, n1. split; [exact Hw1|split; [exact Hm1|split]].
      * intros n Hn. cbn [sets] in Hn. apply andb_prop in Hn. apply Hs1, Hn.
      * intros Hn. cbn [readsOne] in Hn. apply andb_prop in Hn. apply Hr1, Hn.
  - assert (Hloop : forall fuel st res,
              Regex.star_loop g (Regex.m a) k fuel st = Some res ->
              exists st' pre new, went st st' pre new /\ k st' = Some res).
    { clear Hm st res. induction fuel as [|f IHf]; intros st res Hm.
      - exists st, EmptyString, []. split; [apply went_refl|exact Hm].
      - cbn [Regex.star_loop] in Hm. cbv zeta in Hm.
        assert (Hagain :
          Regex.m a (fun st' =>
            if (Regex.pos st <? Regex.pos st')%nat
            then Regex.star_loop g (Regex.m a) k f st' else None) st = Some res ->
          exists st' pre new, went st st' pre new /\ k st' = Some res).
        { intros Ha. destruct (IHa _ _ _ Ha) as (st1 & p1 & n1 & Hw1 & Hm1 & _).
          destruct (Regex.pos st <? Regex.pos st1)%nat; [|discriminate].
          destruct (IHf _ _ Hm1) as (st2 & p2 & n2 & Hw2 & Hm2).
          exists st2, (p1 ++ p2), (n2 ++ n1)%list.
          split; [exact (went_trans _ _ _ _ _ _ _ Hw1 Hw2)|exact Hm2]. }
        unfold Regex.first_some in Hm. destruct g.
        + match type of Hm with
          | match ?x with _ => _ end = _ => destruct x as [y|] eqn:Hx
          end.
          * inversion Hm; subst. exact (Hagain eq_refl).
          * exists st, EmptyString, []. split; [apply went_refl|exact Hm].
        + destruct (k st) as [y|] eqn:Hks.
          * inversion Hm; subst. exists st, EmptyString, [].
            split; [apply went_refl|exact Hks].
          * exact (Hagain Hm). }
    destruct (Hloop _ _ _ Hm) as (st' & pre & new & Hw & Hk).
    exists st', pre, new. split; [exact Hw|split; [exact Hk|split; intros; discriminate]].
  - destruct (IHa _ _ _ Hm) as (st1 & p1 & n1 & Hw1 & Hm1 & Hs1 & Hr1).
    cbv beta in Hm1.
    eexists (Regex.mkM (Regex.pos st1) (Regex.rest st1) (_ :: Regex.caps st1)),
      p1, (_ :: n1).
    split; [|split; [exact Hm1|split]].
    + destruct Hw1 as (H1 & H2 & H3). unfold went. cbn [Regex.rest Regex.pos Regex.caps].
      rewrite H3. repeat split; assumption.
    + intros n Hn. cbn [sets] in Hn. cbn [Regex.lookup].
      destruct (i =? n)%nat; [discriminate|]. apply Hs1. exact Hn.
    + exact Hr1.
  - destruct (Regex.pos st =? 0)%nat; [|discriminate].
    exists st, EmptyString, [].
    split; [apply went_refl|split; [exact Hm|split; intros; discriminate]].
  - destruct (Regex.rest st) eqn:Hrest; [|discriminate].
    exists st, EmptyString, [].
    split; [apply went_refl|split; [exact Hm|split; intros; discriminate]].
Qed.

Lemma substring_prefix (a b : string) : String.substring 0 (String.length a) (a ++ b) = a.
Proof. induction a as [|c a IH]; simpl; [destruct b; reflexivity|]. rewrite IH. reflexivity. Qed.

(** A match found at an index: its text is what the input begins with
    there, the groups the pattern sets are defined, and it is not empty when
    the pattern reads a character. *)
Lemma exec_at_track r s p x :
  Regex.exec_at r s p = Some x ->
  Regex.index x = p
  /\ (exists post, s = Regex.matched x ++ post)
  /\ (forall n, sets n r = true -> Regex.group n x <> None)
  /\ (readsOne r = true -> Regex.matched x <> EmptyString).
Proof.
  unfold Regex.exec_at. intros H.
  destruct (Regex.m r Some (Regex.mkM p s [])) as [st|] eqn:Hm; [|discriminate].
  inversion H; subst; clear H.
  destruct (m_track r _ _ _ Hm) as (st' & pre & new & (Hr & Hp & Hc) & Hk & Hs & Hn).
  inversion Hk; subst st'; clear Hk.
  cbn [Regex.rest Regex.pos Regex.caps] in Hr, Hp, Hc.
  cbn [Regex.index Regex.matched Regex.groups Regex.group].
  assert (Hm' : String.substring 0 (Regex.pos st - p) s = pre).
  { rewrite Hp, Hr. replace (p + String.length pre - p) with (String.length pre) by lia.
    apply substring_prefix. }
  rewrite Hm'. split; [reflexivity|]. split; [exists (Regex.rest st); exact Hr|].
  split; [|exact Hn].
  intros n Hsn. unfold Regex.group. cbn [Regex.groups]. rewrite Hc, app_nil_r.
  apply Hs, Hsn.
Qed.

Lemma scan_Forall (P : Regex.Match -> Prop) r :
  (forall s p x, Regex.exec_at r s p = Some x -> P x) ->
  forall s p skip, Forall P (Regex.scan r s p skip).
Proof.
  intros HP s. induction s as [|c s IH]; intros p skip.
  - destruct skip; simpl; [|constructor].
    destruct (Regex.exec_at r EmptyString p) as [x|] eqn:Hx; [|constructor].
    constructor; [exact (HP _ _ _ Hx)|constructor].
  - destruct skip; simpl; [|apply IH].
    destruct (Regex.exec_at r (String c s) p) as [x|] eqn:Hx; [|apply IH].
    constructor; [exact (HP _ _ _ Hx)|apply IH].
Qed.

Lemma matchAll_groups r text n :
  sets n r = true ->
  Forall (fun x => Regex.group n x = Some (grp n x)) (Regex.matchAll r text).
Proof.
  intros Hs. unfold Regex.matchAll. apply scan_Forall. intros s p x Hx.
  destruct (exec_at_track r s p x Hx) as (_ & _ & Hg & _). specialize (Hg n Hs).
  unfold grp. destruct (Regex.group n x); [reflexivity|congruence].
Qed.

(* ================================================================== *)
(** * The loops over [exec] come to an end *)
(* ================================================================== *)

Lemma drop_length n : forall s, String.length (Throwing.drop n s) = String.length s - n.
Proof.
  induction n as [|n IH]; intros s; simpl; [lia|].
  destruct s as [|c t]; simpl; [reflexivity|apply IH].
Qed.

Lemma drop_drop n : forall k s, Throwing.drop k (Throwing.drop n s) = Throwing.drop (n + k) s.
Proof.
  induction n as [|n IH]; intros k s; simpl; [reflexivity|].
  destruct s as [|c t]; [destruct k; reflexivity|apply IH].
Qed.

Lemma drop_app (a b : string) : Throwing.drop (String.length a) (a ++ b) = b.
Proof. induction a as [|c a IH]; simpl; [reflexivity|exact IH]. Qed.

Lemma scan_skip r :
  forall n s p, n <= String.length s ->
    Regex.scan r s p n = Regex.scan r (Throwing.drop n s) (p + n) 0.
Proof.
  induction n as [|n IH]; intros s p Hn.
  - simpl. replace (p + 0) with p by lia. reflexivity.
  - destruct s as [|c t]; simpl in Hn; [lia|].
    cbn [Regex.scan Throwing.drop]. rewrite IH by lia.
    replace (S p + n) with (p + S n) by lia. reflexivity.
Qed.

Lemma readsOne_NonEmpty r : readsOne r = true -> NonEmpty r.
Proof.
  intros Hr s p x Hx.
  destruct (exec_at_track r s p x Hx) as (Hi & (post & Hs) & _ & Hn).
  specialize (Hn Hr). split; [exact Hi|].
  assert (Hlen : String.length s
                 = String.length (Regex.matched x) + String.length post)
    by (rewrite Hs at 1; apply string_length_app).
  destruct (Regex.matched x); [congruence|]. simpl in *. lia.
Qed.

Lemma scan_none r :
  forall s p, Regex.search_from r s p = None -> Regex.scan r s p 0 = [].
Proof.
  induction s as [|c s IH]; intros p H; cbn [Regex.search_from Regex.scan] in *.
  - destruct (Regex.exec_at r EmptyString p); [discriminate|reflexivity].
  - destruct (Regex.exec_at r (String c s) p); [discriminate|]. apply IH, H.
Qed.

(** The list of all matches, one search after the other: the next search
    starts where the match found ends. *)
Lemma scan_found r :
  NonEmpty r ->
  forall s p x, Regex.search_from r s p = Some x ->
    p <= Regex.index x
    /\ Regex.index x + String.length (Regex.matched x) <= p + String.length s
    /\ 1 <= String.length (Regex.matched x)
    /\ Regex.scan r s p 0
       = x :: Regex.scan r
                (Throwing.drop (Regex.index x - p + String.length (Regex.matched x)) s)
                (Regex.index x + String.length (Regex.matched x)) 0.
Proof.
  intros Hne. induction s as [|c s IH]; intros p x H;
    cbn [Regex.search_from Regex.scan] in *.
  - destruct (Regex.exec_at r EmptyString p) as [y|] eqn:Hy; [|discriminate].
    destruct (Hne _ _ _ Hy) as (_ & H1 & H2). simpl in H2. lia.
  - destruct (Regex.exec_at r (String c s) p) as [y|] eqn:Hy.
    + inversion H; subst y; clear H.
      destruct (Hne _ _ _ Hy) as (Hi & H1 & H2). cbn [String.length] in H2.
      rewrite Hi. split; [lia|]. split; [simpl; lia|]. split; [exact H1|].
      f_equal. rewrite scan_skip by lia.
      replace (p - p + String.length (Regex.matched x))
        with (S (pred (String.length (Regex.matched x)))) by lia.
      cbn [Throwing.drop]. f_equal. lia.
    + destruct (IH (S p) x H) as (H1 & H2 & H3 & H4).
      split; [lia|]. split; [simpl; lia|]. split; [exact H3|].
      rewrite H4.
      replace (Regex.index x - p + String.length (Regex.matched x))
        with (S (Regex.index x - S p + String.length (Regex.matched x))) by lia.
      reflexivity.
Qed.

(** With more fuel than the text has characters, the loop over [exec]
    returns, and it has gone through the matches of the pattern from left to
    right. *)
Lemma whileExec_scan {S : Type} r text (body : S -> Regex.Match -> S) :
  NonEmpty r ->
  forall fuel li st,
    li <= String.length text ->
    String.length text - li < fuel ->
    Throwing.whileExec fuel (Throwing.mkRegExp r li) text body st
    = Throwing.Returns
        (fold_left body (Regex.scan r (Throwing.drop li text) li 0) st).
Proof.
  intros Hne. induction fuel as [|fuel IH]; intros li st Hli Hfuel; [lia|].
  cbn [Throwing.whileExec]. unfold Throwing.exec.
  cbn [Throwing.lastIndex Throwing.pattern].
  destruct (Nat.leb_spec li (String.length text)) as [_|Hbad]; [|lia].
  destruct (Regex.search_from r (Throwing.drop li text) li) as [x|] eqn:Hsearch.
  - destruct (scan_found r Hne _ _ _ Hsearch) as (H1 & H2 & H3 & H4).
    rewrite drop_length in H2.
    rewrite H4. cbn [fold_left]. rewrite drop_drop.
    replace (li + (Regex.index x - li + String.length (Regex.matched x)))
      with (Regex.index x + String.length (Regex.matched x)) by lia.
    apply IH; lia.
  - rewrite (scan_none r _ _ Hsearch). reflexivity.
Qed.

Lemma whileExec_matchAll {S : Type} r text (body : S -> Regex.Match -> S) fuel st :
  readsOne r = true ->
  String.length text < fuel ->
  Throwing.whileExec fuel (Throwing.mkRegExp r 0) text body st
  = Throwing.Returns (fold_left body (Regex.matchAll r text) st).
Proof.
  intros Hr Hfuel.
  rewrite (whileExec_scan r text body (readsOne_NonEmpty r Hr) fuel 0 st) by lia.
  reflexivity.
Qed.

(* ================================================================== *)
(** * [detect] returns *)
(* ================================================================== *)

Lemma safeGetDomainFromUrl_returns E raw :
  Throwing.safeGetDomainFromUrl E (Some raw)
  = Throwing.Returns (safeGetDomainFromUrl E raw).
Proof.
  unfold Throwing.safeGetDomainFromUrl, safeGetDomainFromUrl, Throwing.newURL_hostname.
  cbn [Throwing.toText]. cbv zeta.
  destruct (URL_hostname E _); reflexivity.
Qed.

Lemma urlStep_returns E strict st u :
  Throwing.urlStep E strict st (Some u) = Throwing.Returns (urlStep E strict st u).
Proof.
  unfold Throwing.urlStep, urlStep. rewrite safeGetDomainFromUrl_returns.
  cbn [Throwing.bind]. destruct (safeGetDomainFromUrl E u) as [d|]; [|reflexivity].
  destruct (JS.truthy d); reflexivity.
Qed.

Lemma linkStep_returns E st p :
  Throwing.linkStep E st (asValues p) = Throwing.Returns (linkStep E st p).
Proof.
  unfold Throwing.linkStep, linkStep, asValues, Throwing.normalizeStr, Throwing.receiver.
  cbn [Throwing.href Throwing.display Throwing.toText].
  rewrite safeGetDomainFromUrl_returns. cbn [Throwing.bind]. cbv zeta.
  match goal with |- context [if ?b then _ else _] => destruct b end; reflexivity.
Qed.

Lemma forOf_returns {A B S : Type} (stepX : S -> B -> Throwing.Outcome S)
  (step : S -> A -> S) (f : A -> B) :
  (forall st x, stepX st (f x) = Throwing.Returns (step st x)) ->
  forall l st, Throwing.forOf stepX (map f l) st = Throwing.Returns (fold_left step l st).
Proof.
  intros H l. induction l as [|x l IH]; intros st; cbn [map Throwing.forOf fold_left];
    [reflexivity|].
  rewrite H. cbn [Throwing.bind]. apply IH.
Qed.

Lemma Set_add_Some acc u :
  Throwing.Set_add (map Some acc) (Some u) = map Some (JS.Set_add acc u).
Proof.
  unfold Throwing.Set_add, JS.Set_add.
  assert (H : existsb (Throwing.value_eqb (Some u)) (map Some acc)
              = existsb (String.eqb u) acc).
  { induction acc as [|a acc IH]; simpl; [reflexivity|]. rewrite IH. reflexivity. }
  rewrite H. destruct (existsb (String.eqb u) acc); [reflexivity|].
  rewrite map_app. reflexivity.
Qed.

Lemma fold_Set_add_Some l :
  forall acc,
    fold_left (fun urls u => Throwing.Set_add urls (Some u)) l (map Some acc)
    = map Some (fold_left JS.Set_add l acc).
Proof.
  induction l as [|u l IH]; intros acc; cbn [fold_left]; [reflexivity|].
  rewrite Set_add_Some. apply IH.
Qed.

Lemma fold_Set_add_group n l :
  Forall (fun x => Regex.group n x = Some (grp n x)) l ->
  forall acc,
    fold_left (fun urls m => Throwing.Set_add urls (Regex.group n m)) l (map Some acc)
    = map Some (fold_left (fun urls x => JS.Set_add urls (grp n x)) l acc).
Proof.
  induction 1 as [|x l Hx Hl IH]; intros acc; cbn [fold_left]; [reflexivity|].
  rewrite Hx, Set_add_Some. apply IH.
Qed.

Lemma fold_pairs_groups a b l :
  Forall (fun x => Regex.group a x = Some (grp a x)) l ->
  Forall (fun x => Regex.group b x = Some (grp b x)) l ->
  forall acc,
    fold_left (fun pairs m =>
                 (pairs ++ [Throwing.mkLink (Regex.group a m) (Regex.group b m)])%list)
              l (map asValues acc)
    = map asValues
        (fold_left (fun pairs x => (pairs ++ [mkLink (grp a x) (grp b x)])%list) l acc).
Proof.
  intros Ha. induction Ha as [|x l Hx Hl IH]; intros Hb acc; cbn [fold_left];
    [reflexivity|].
  inversion Hb as [|? ? Hbx Hbl]; subst. rewrite Hx, Hbx.
  rewrite <- (IH Hbl). rewrite map_app. reflexivity.
Qed.

Lemma extractAllUrls_returns fuel text :
  String.length text < fuel ->
  Throwing.extractAllUrls fuel text = Throwing.Returns (map Some (extractAllUrls text)).
Proof.
  intros Hfuel. unfold Throwing.extractAllUrls, extractAllUrls. cbv zeta.
  rewrite (whileExec_matchAll mdReg text _ fuel _ eq_refl Hfuel). cbn [Throwing.bind].
  rewrite (whileExec_matchAll htmlReg text _ fuel _ eq_refl Hfuel). cbn [Throwing.bind].
  rewrite (fold_Set_add_Some _ []).
  rewrite (fold_Set_add_group 1 _ (matchAll_groups mdReg text 1 eq_refl)).
  rewrite (fold_Set_add_group 1 _ (matchAll_groups htmlReg text 1 eq_refl)).
  reflexivity.
Qed.

Lemma extractLinkTextPairs_returns fuel text :
  String.length text < fuel ->
  Throwing.extractLinkTextPairs fuel text
  = Throwing.Returns (map asValues (extractLinkTextPairs text)).
Proof.
  intros Hfuel. unfold Throwing.extractLinkTextPairs, extractLinkTextPairs. cbv zeta.
  rewrite (whileExec_matchAll md text _ fuel _ eq_refl Hfuel). cbn [Throwing.bind].
  rewrite (whileExec_matchAll html text _ fuel _ eq_refl Hfuel). cbn [Throwing.bind].
  pose proof (fold_pairs_groups 1 2 _ (matchAll_groups md text 1 eq_refl)
                (matchAll_groups md text 2 eq_refl) []) as Hmd.
  cbn [map] in Hmd. rewrite Hmd.
  rewrite (fold_pairs_groups 2 1 _ (matchAll_groups html text 2 eq_refl)
             (matchAll_groups html text 1 eq_refl)).
  reflexivity.
Qed.

Lemma detect_returns E i fuel :
  String.length (body i) < fuel ->
  Throwing.detect fuel E i = Throwing.Returns (detect E i).
Proof.
  intros Hfuel. unfold Throwing.detect. cbv zeta.
  rewrite (extractAllUrls_returns fuel _ Hfuel). cbn [Throwing.bind].
  rewrite (forOf_returns _ _ Some (urlStep_returns E _)). cbn [Throwing.bind].
  rewrite (extractLinkTextPairs_returns fuel _ Hfuel). cbn [Throwing.bind].
  rewrite (forOf_returns _ _ asValues (linkStep_returns E)). cbn [Throwing.bind].
  reflexivity.
Qed.





(* ================================================================== *)
(** * The matcher on literals and on runs of a class *)
(* ================================================================== *)

Lemma m_lit_fwd s :
  forall k pos t caps,
    Regex.m (Regex.lit s) k (Regex.mkM pos (s ++ t) caps)
    = k (Regex.mkM (pos + String.length s) t caps).
Proof.
  induction s as [|c s IH]; intros k pos t caps.
  - simpl. rewrite Nat.add_0_r. reflexivity.
  - destruct s as [|c' s].
    + simpl. unfold Regex.ch. rewrite Ascii.eqb_refl.
      replace (pos + 1) with (S pos) by lia. reflexivity.
    + change (Regex.lit (String c (String c' s)))
        with (Regex.Seq (Regex.Chr (Regex.ch c)) (Regex.lit (String c' s))).
      change (String c (String c' s) ++ t) with (String c (String c' s ++ t)).
      cbn [Regex.m Regex.rest Regex.pos Regex.caps].
      unfold Regex.ch at 1. rewrite Ascii.eqb_refl.
      rewrite (IH k (S pos) t caps).
      replace (S pos + String.length (String c' s))
        with (pos + String.length (String c (String c' s))) by (simpl; lia).
      reflexivity.
Qed.

Lemma m_liti_fwd s :
  forall x k pos t caps,
    same_ci x s ->
    Regex.m (Regex.liti s) k (Regex.mkM pos (x ++ t) caps)
    = k (Regex.mkM (pos + String.length x) t caps).
Proof.
  induction s as [|c s IH]; intros x k pos t caps Hx.
  - destruct x; [|destruct Hx]. simpl. rewrite Nat.add_0_r. reflexivity.
  - destruct x as [|y x]; [destruct Hx|]. destruct Hx as [Hy Hx].
    destruct s as [|c' s].
    + destruct x; [|destruct Hx]. simpl. unfold Regex.chi. rewrite Hy, Ascii.eqb_refl.
      replace (pos + 1) with (S pos) by lia. reflexivity.
    + change (Regex.liti (String c (String c' s)))
        with (Regex.Seq (Regex.Chr (Regex.chi c)) (Regex.liti (String c' s))).
      change (String y x ++ t) with (String y (x ++ t)).
      cbn [Regex.m Regex.rest Regex.pos Regex.caps].
      unfold Regex.chi at 1. rewrite Hy, Ascii.eqb_refl.
      rewrite (IH x k (S pos) t caps Hx).
      replace (S pos + String.length x) with (pos + String.length (String y x))
        by (simpl; lia).
      reflexivity.
Qed.

Lemma same_ci_refl s : same_ci s s.
Proof. induction s as [|c s IH]; simpl; auto. Qed.

Lemma m_lit_inv s :
  s <> EmptyString ->
  forall k st res,
    Regex.m (Regex.lit s) k st = Some res ->
    exists t, Regex.rest st = s ++ t
              /\ k (Regex.mkM (Regex.pos st + String.length s) t (Regex.caps st)) = Some res.
Proof.
  induction s as [|c s IH]; [congruence|]. intros _ k st res Hm.
  destruct s as [|c' s].
  - simpl in Hm. destruct (Regex.rest st) as [|y t] eqn:Hrest; [discriminate|].
    destruct (Regex.ch c y) eqn:Hy; [|discriminate].
    unfold Regex.ch in Hy. apply Ascii.eqb_eq in Hy. subst y.
    exists t. split; [reflexivity|].
    simpl. replace (Regex.pos st + 1) with (S (Regex.pos st)) by lia. exact Hm.
  - change (Regex.lit (String c (String c' s)))
      with (Regex.Seq (Regex.Chr (Regex.ch c)) (Regex.lit (String c' s))) in Hm.
    cbn [Regex.m] in Hm. destruct (Regex.rest st) as [|y t] eqn:Hrest; [discriminate|].
    destruct (Regex.ch c y) eqn:Hy; [|discriminate].
    unfold Regex.ch in Hy. apply Ascii.eqb_eq in Hy. subst y.
    destruct (IH ltac:(discriminate) _ _ _ Hm) as (t' & Hx & Hk).
    cbn [Regex.rest Regex.pos Regex.caps] in *.
    exists t'. split; [simpl; rewrite Hx; reflexivity|].
    simpl. replace (Regex.pos st + S (S (String.length s)))
      with (S (Regex.pos st) + String.length (String c' s)) by (simpl; lia).
    exact Hk.
Qed.

Lemma m_chr_inv p k st res :
  Regex.m (Regex.Chr p) k st = Some res ->
  exists c t, Regex.rest st = String c t /\ p c = true
              /\ k (Regex.mkM (S (Regex.pos st)) t (Regex.caps st)) = Some res.
Proof.
  cbn [Regex.m]. intros Hm. destruct (Regex.rest st) as [|c t]; [discriminate|].
  destruct (p c) eqn:Hc; [|discriminate]. exists c, t. auto.
Qed.

Lemma state_eta st : Regex.mkM (Regex.pos st) (Regex.rest st) (Regex.caps st) = st.
Proof. destruct st; reflexivity. Qed.

(** A star over a class, whatever comes after it: it has read characters of
    the class. *)
Lemma star_class_inv g p k :
  forall fuel st res,
    Regex.star_loop g (Regex.m (Regex.Chr p)) k fuel st = Some res ->
    exists a t, Regex.rest st = a ++ t /\ JS.all_chars p a = true
                /\ k (Regex.mkM (Regex.pos st + String.length a) t (Regex.caps st))
                   = Some res.
Proof.
  induction fuel as [|f IH]; intros st res Hm.
  - exists EmptyString, (Regex.rest st). simpl. rewrite Nat.add_0_r, state_eta. auto.
  - cbn [Regex.star_loop] in Hm. cbv zeta in Hm.
    assert (Hhere : k st = Some res ->
              exists a t, Regex.rest st = a ++ t /\ JS.all_chars p a = true
                /\ k (Regex.mkM (Regex.pos st + String.length a) t (Regex.caps st))
                   = Some res).
    { intros Hk. exists EmptyString, (Regex.rest st). simpl.
      rewrite Nat.add_0_r, state_eta. auto. }
    assert (Hagain :
      Regex.m (Regex.Chr p) (fun st' =>
        if (Regex.pos st <? Regex.pos st')%nat
        then Regex.star_loop g (Regex.m (Regex.Chr p)) k f st' else None) st = Some res ->
      exists a t, Regex.rest st = a ++ t /\ JS.all_chars p a = true
        /\ k (Regex.mkM (Regex.pos st + String.length a) t (Regex.caps st)) = Some res).
    { intros Ha. destruct (m_chr_inv _ _ _ _ Ha) as (c & t & Hrest & Hc & Hk).
      cbn [Regex.pos] in Hk.
      destruct (Regex.pos st <? S (Regex.pos st))%nat; [|discriminate].
      destruct (IH _ _ Hk) as (a & t' & Hr' & Ha' & Hk').
      cbn [Regex.rest Regex.pos Regex.caps] in *.
      exists (String c a), t'. split; [rewrite Hrest, Hr'; reflexivity|].
      split; [simpl; rewrite Hc; exact Ha'|].
      simpl. replace (Regex.pos st + S (String.length a))
        with (S (Regex.pos st) + String.length a) by lia. exact Hk'. }
    unfold Regex.first_some in Hm. destruct g.
    + match type of Hm with
      | match ?x with _ => _ end = _ => destruct x as [y|] eqn:Hx
      end.
      * inversion Hm; subst. exact (Hagain eq_refl).
      * exact (Hhere Hm).
    + destruct (k st) as [y|] eqn:Hks.
      * inversion Hm; subst. exact (Hhere eq_refl).
      * exact (Hagain Hm).
Qed.

Lemma m_star_class_inv g p k st res :
  Regex.m (Regex.Star g (Regex.Chr p)) k st = Some res ->
  exists a t, Regex.rest st = a ++ t /\ JS.all_chars p a = true
              /\ k (Regex.mkM (Regex.pos st + String.length a) t (Regex.caps st)) = Some res.
Proof. cbn [Regex.m]. apply star_class_inv. Qed.

Lemma m_plus_class_inv p k st res :
  Regex.m (Regex.Plus (Regex.Chr p)) k st = Some res ->
  exists a t, Regex.rest st = a ++ t /\ a <> EmptyString /\ JS.all_chars p a = true
              /\ k (Regex.mkM (Regex.pos st + String.length a) t (Regex.caps st)) = Some res.
Proof.
  intros Hm.
  change (Regex.m (Regex.Plus (Regex.Chr p)) k st)
    with (Regex.m (Regex.Chr p) (Regex.m (Regex.Star true (Regex.Chr p)) k) st) in Hm.
  destruct (m_chr_inv _ _ _ _ Hm) as (c & t & Hrest & Hc & Hk).
  destruct (m_star_class_inv _ _ _ _ _ Hk) as (a & t' & Hr' & Ha' & Hk').
  cbn [Regex.rest Regex.pos Regex.caps] in *.
  exists (String c a), t'. split; [rewrite Hrest, Hr'; reflexivity|].
  split; [discriminate|]. split; [simpl; rewrite Hc; exact Ha'|].
  simpl. replace (Regex.pos st + S (String.length a))
    with (S (Regex.pos st) + String.length a) by lia. exact Hk'.
Qed.

Lemma star_class_step p k f pos s caps :
  Regex.star_loop true (Regex.m (Regex.Chr p)) k (S f) (Regex.mkM pos s caps)
  = Regex.first_some
      (match s with
       | String c t =>
           if p c
           then Regex.star_loop true (Regex.m (Regex.Chr p)) k f
                  (Regex.mkM (S pos) t caps)
           else None
       | EmptyString => None
       end)
      (fun _ => k (Regex.mkM pos s caps)).
Proof.
  set (ma := Regex.m (Regex.Chr p)).
  cbn [Regex.star_loop]. cbv zeta. unfold ma at 1.
  cbn [Regex.m Regex.rest Regex.pos Regex.caps].
  destruct s as [|c t]; [reflexivity|]. destruct (p c); [|reflexivity].
  destruct (Nat.ltb_spec pos (S pos)) as [_|Hbad]; [reflexivity|lia].
Qed.

(** A greedy star over a class goes as far as the class goes, when what
    comes after it accepts there. *)
Lemma star_class_fwd p k caps res :
  forall a fuel pos t,
    JS.all_chars p a = true -> halts p t -> String.length a < fuel ->
    k (Regex.mkM (pos + String.length a) t caps) = Some res ->
    Regex.star_loop true (Regex.m (Regex.Chr p)) k fuel (Regex.mkM pos (a ++ t) caps)
    = Some res.
Proof.
  induction a as [|c a IH]; intros fuel pos t Ha Ht Hfuel Hk.
  - destruct fuel as [|f]; [simpl in Hfuel; lia|].
    rewrite star_class_step. cbn [append].
    simpl in Hk. rewrite Nat.add_0_r in Hk.
    destruct t as [|c t]; [cbn [Regex.first_some]; exact Hk|].
    simpl in Ht. rewrite Ht. cbn [Regex.first_some]. exact Hk.
  - destruct fuel as [|f]; [simpl in Hfuel; lia|].
    simpl in Ha. apply andb_prop in Ha. destruct Ha as [Hc Ha].
    rewrite star_class_step. change (String c a ++ t) with (String c (a ++ t)).
    cbv iota. rewrite Hc.
    rewrite (IH f (S pos) t Ha Ht); [reflexivity|simpl in Hfuel; lia|].
    simpl in Hk. replace (S pos + String.length a) with (pos + S (String.length a)) by lia.
    exact Hk.
Qed.

Lemma m_star_class_fwd p k caps res a pos t :
  JS.all_chars p a = true -> halts p t ->
  k (Regex.mkM (pos + String.length a) t caps) = Some res ->
  Regex.m (Regex.Star true (Regex.Chr p)) k (Regex.mkM pos (a ++ t) caps) = Some res.
Proof.
  intros Ha Ht Hk.
  change (Regex.m (Regex.Star true (Regex.Chr p)) k (Regex.mkM pos (a ++ t) caps))
    with (Regex.star_loop true (Regex.m (Regex.Chr p)) k
            (S (String.length (a ++ t))) (Regex.mkM pos (a ++ t) caps)).
  apply star_class_fwd; try assumption. rewrite string_length_app. lia.
Qed.

Lemma m_plus_class_fwd p k caps res a pos t :
  a <> EmptyString -> JS.all_chars p a = true -> halts p t ->
  k (Regex.mkM (pos + String.length a) t caps) = Some res ->
  Regex.m (Regex.Plus (Regex.Chr p)) k (Regex.mkM pos (a ++ t) caps) = Some res.
Proof.
  intros Hne Ha Ht Hk. destruct a as [|c a]; [congruence|].
  simpl in Ha. apply andb_prop in Ha. destruct Ha as [Hc Ha].
  change (Regex.m (Regex.Plus (Regex.Chr p)) k (Regex.mkM pos (String c a ++ t) caps))
    with (if p c
          then Regex.m (Regex.Star true (Regex.Chr p)) k (Regex.mkM (S pos) (a ++ t) caps)
          else None).
  rewrite Hc. apply m_star_class_fwd; try assumption.
  simpl in Hk. replace (S pos + String.length a) with (pos + S (String.length a)) by lia.
  exact Hk.
Qed.

(** Where nothing after the star accepts, however far the star goes, the
    star fails. *)
Lemma star_class_none p k caps :
  forall fuel b pos,
    (forall a' b', b = a' ++ b' -> JS.all_chars p a' = true ->
                   k (Regex.mkM (pos + String.length a') b' caps) = None) ->
    Regex.star_loop true (Regex.m (Regex.Chr p)) k fuel (Regex.mkM pos b caps) = None.
Proof.
  induction fuel as [|f IH]; intros b pos Hk.
  - cbn [Regex.star_loop]. specialize (Hk EmptyString b eq_refl eq_refl).
    simpl in Hk. rewrite Nat.add_0_r in Hk. exact Hk.
  - rewrite star_class_step.
    assert (Hhere : k (Regex.mkM pos b caps) = None).
    { specialize (Hk EmptyString b eq_refl eq_refl).
      simpl in Hk. rewrite Nat.add_0_r in Hk. exact Hk. }
    destruct b as [|c b]; [cbn [Regex.first_some]; exact Hhere|].
    destruct (p c) eqn:Hc; [|cbn [Regex.first_some]; exact Hhere].
    rewrite IH; [cbn [Regex.first_some]; exact Hhere|].
    intros a' b' Hb Ha'. specialize (Hk (String c a') b').
    simpl in Hk. rewrite Hc in Hk.
    replace (S pos + String.length a') with (pos + S (String.length a')) by lia.
    apply Hk; [rewrite Hb; reflexivity|exact Ha'].
Qed.

(** A greedy star over a class, followed by something that accepts after
    [a] and nowhere further on: the star reads [a]. *)
Lemma star_class_pick p k caps res :
  forall a fuel pos b,
    JS.all_chars p a = true -> String.length a < fuel ->
    (forall a' b', b = a' ++ b' -> a' <> EmptyString -> JS.all_chars p a' = true ->
                   k (Regex.mkM (pos + String.length a + String.length a') b' caps)
                   = None) ->
    k (Regex.mkM (pos + String.length a) b caps) = Some res ->
    Regex.star_loop true (Regex.m (Regex.Chr p)) k fuel (Regex.mkM pos (a ++ b) caps)
    = Some res.
Proof.
  induction a as [|c a IH]; intros fuel pos b Ha Hfuel Hnone Hk.
  - destruct fuel as [|f]; [simpl in Hfuel; lia|].
    rewrite star_class_step. cbn [append].
    simpl in Hk. rewrite Nat.add_0_r in Hk.
    destruct b as [|c b]; [cbn [Regex.first_some]; exact Hk|].
    destruct (p c) eqn:Hc; [|cbn [Regex.first_some]; exact Hk].
    rewrite star_class_none; [cbn [Regex.first_some]; exact Hk|].
    intros a' b' Hb Ha'. specialize (Hnone (String c a') b').
    simpl in Hnone. rewrite Hc, Nat.add_0_r in Hnone.
    replace (S pos + String.length a') with (pos + S (String.length a')) by lia.
    apply Hnone; [rewrite Hb; reflexivity|discriminate|exact Ha'].
  - destruct fuel as [|f]; [simpl in Hfuel; lia|].
    simpl in Ha. apply andb_prop in Ha. destruct Ha as [Hc Ha].
    rewrite star_class_step. change (String c a ++ b) with (String c (a ++ b)).
    cbv iota. rewrite Hc.
    rewrite (IH f (S pos) b Ha); [reflexivity|simpl in Hfuel; lia| |].
    + intros a' b' Hb Hne Ha'.
      replace (S pos + String.length a + String.length a')
        with (pos + String.length (String c a) + String.length a') by (simpl; lia).
      apply Hnone; assumption.
    + replace (S pos + String.length a) with (pos + String.length (String c a))
        by (simpl; lia).
      exact Hk.
Qed.

(** A greedy star over a class that nothing follows reads the longest run
    of the class. *)
Lemma star_class_Some p caps :
  forall s fuel pos,
    String.length s < fuel ->
    Regex.star_loop true (Regex.m (Regex.Chr p)) Some fuel (Regex.mkM pos s caps)
    = Some (Regex.mkM (pos + String.length (run p s)) (afterRun p s) caps).
Proof.
  induction s as [|c s IH]; intros fuel pos Hfuel;
    (destruct fuel as [|f]; [simpl in Hfuel; lia|]); rewrite star_class_step.
  - simpl. rewrite Nat.add_0_r. reflexivity.
  - cbn [run afterRun]. destruct (p c) eqn:Hc.
    + rewrite IH by (simpl in Hfuel; lia). cbn [Regex.first_some String.length].
      do 2 f_equal. lia.
    + cbn [Regex.first_some]. simpl. rewrite Nat.add_0_r. reflexivity.
Qed.

Lemma run_split p s : s = run p s ++ afterRun p s.
Proof.
  induction s as [|c s IH]; simpl; [reflexivity|].
  destruct (p c); simpl; [rewrite <- IH|]; reflexivity.
Qed.

Lemma run_all p s : JS.all_chars p (run p s) = true.
Proof.
  induction s as [|c s IH]; simpl; [reflexivity|].
  destruct (p c) eqn:Hc; simpl; [rewrite Hc; exact IH|reflexivity].
Qed.

Lemma afterRun_halts p s : halts p (afterRun p s).
Proof.
  induction s as [|c s IH]; simpl; [exact I|].
  destruct (p c) eqn:Hc; [exact IH|simpl; exact Hc].
Qed.

(* ================================================================== *)
(** * What the three patterns of [extractAllUrls] match *)
(* ================================================================== *)

Lemma same_ci_lower x s : same_ci x s -> JS.toLowerCase x = JS.toLowerCase s.
Proof.
  revert s. induction x as [|c x IH]; intros [|d s] H; simpl in H; try contradiction.
  - reflexivity.
  - destruct H as [Hc Hx]. unfold JS.toLowerCase in *. simpl. rewrite Hc, (IH s Hx).
    reflexivity.
Qed.

Lemma lower_same_ci x s : JS.toLowerCase x = JS.toLowerCase s -> same_ci x s.
Proof.
  revert s. induction x as [|c x IH]; intros [|d s] H; unfold JS.toLowerCase in H;
    simpl in H; try discriminate; simpl; [exact I|].
  injection H as Hc Hx. split; [exact Hc|apply IH; exact Hx].
Qed.

Lemma toLowerCase_app a b : JS.toLowerCase (a ++ b) = JS.toLowerCase a ++ JS.toLowerCase b.
Proof. apply map_chars_app. Qed.

Lemma append_inv_length (a b x y : string) :
  a ++ x = b ++ y -> String.length a = String.length b -> a = b /\ x = y.
Proof.
  revert b. induction a as [|c a IH]; intros [|d b] H Hlen; simpl in *; try discriminate.
  - auto.
  - injection H as -> H. destruct (IH b H ltac:(lia)) as [-> ->]. auto.
Qed.

Lemma append_split (a b x y : string) :
  a ++ x = b ++ y -> String.length a <= String.length b ->
  exists e, b = a ++ e /\ x = e ++ y.
Proof.
  revert b. induction a as [|c a IH]; intros b H Hlen; simpl in *.
  - exists b. auto.
  - destruct b as [|d b]; simpl in *; [lia|].
    injection H as -> H. destruct (IH b H ltac:(lia)) as (e & -> & ->).
    exists e. auto.
Qed.

Lemma lower_length s : String.length (JS.toLowerCase s) = String.length s.
Proof. induction s as [|c s IH]; simpl; [reflexivity|]. f_equal. exact IH. Qed.

(** [http] and an optional [s], in any case of the letters, whatever comes
    after them. *)
Lemma http_s_inv K st res :
  Regex.m (Regex.liti "http") (Regex.m (Regex.Opt (Regex.Chr (Regex.chi "s"))) K) st
  = Some res ->
  exists w t,
    Regex.rest st = w ++ t
    /\ (JS.toLowerCase w = "http" \/ JS.toLowerCase w = "https")
    /\ K (Regex.mkM (Regex.pos st + String.length w) t (Regex.caps st)) = Some res.
Proof.
  intros Hm.
  destruct (m_liti_inv "http" ltac:(discriminate) _ _ _ Hm) as (x & t1 & Hx & Hci & Hk1).
  apply same_ci_lower in Hci. change (JS.toLowerCase "http") with "http" in Hci.
  change (Regex.first_some
            (Regex.m (Regex.Chr (Regex.chi "s")) K
               (Regex.mkM (Regex.pos st + String.length x) t1 (Regex.caps st)))
            (fun _ => K (Regex.mkM (Regex.pos st + String.length x) t1 (Regex.caps st)))
          = Some res) in Hk1.
  unfold Regex.first_some in Hk1.
  destruct (Regex.m (Regex.Chr (Regex.chi "s")) K
              (Regex.mkM (Regex.pos st + String.length x) t1 (Regex.caps st)))
    as [y|] eqn:Hs.
  - inversion Hk1; subst y; clear Hk1.
    destruct (m_chr_inv _ _ _ _ Hs) as (c & t2 & Ht1 & Hc & Hk2).
    cbn [Regex.rest Regex.pos Regex.caps] in *.
    exists (x ++ String c EmptyString), t2. split; [|split].
    + rewrite Hx, Ht1, append_assoc. reflexivity.
    + right. rewrite toLowerCase_app, Hci.
      unfold Regex.chi in Hc. apply Ascii.eqb_eq in Hc.
      unfold JS.toLowerCase. simpl. rewrite Hc. reflexivity.
    + rewrite string_length_app.
      replace (Regex.pos st + (String.length x + String.length (String c EmptyString)))
        with (S (Regex.pos st + String.length x)) by (simpl; lia).
      exact Hk2.
  - exists x, t1. auto.
Qed.

Lemma http_s_fwd K w t pos caps res :
  (JS.toLowerCase w = "http" /\ halts (Regex.chi "s") t) \/ JS.toLowerCase w = "https" ->
  K (Regex.mkM (pos + String.length w) t caps) = Some res ->
  Regex.m (Regex.liti "http") (Regex.m (Regex.Opt (Regex.Chr (Regex.chi "s"))) K)
    (Regex.mkM pos (w ++ t) caps) = Some res.
Proof.
  intros [[Hw Ht]|Hw] HK.
  - rewrite (m_liti_fwd "http" w _ pos t caps (lower_same_ci w "http" Hw)).
    change (Regex.first_some
              (Regex.m (Regex.Chr (Regex.chi "s")) K
                 (Regex.mkM (pos + String.length w) t caps))
              (fun _ => K (Regex.mkM (pos + String.length w) t caps)) = Some res).
    cbn [Regex.m Regex.rest]. destruct t as [|c t]; [exact HK|].
    simpl in Ht. rewrite Ht. exact HK.
  - destruct w as [|c1 [|c2 [|c3 [|c4 [|c5 [|c6 w]]]]]]; try discriminate Hw.
    unfold JS.toLowerCase in Hw. simpl in Hw.
    injection Hw as H1 H2 H3 H4 H5.
    change (String c1 (String c2 (String c3 (String c4 (String c5 EmptyString)))) ++ t)
      with (String c1 (String c2 (String c3 (String c4 EmptyString))) ++ String c5 t).
    rewrite (m_liti_fwd "http" (String c1 (String c2 (String c3 (String c4 EmptyString))))
               _ pos (String c5 t) caps
               ltac:(simpl; repeat split; assumption)).
    change (Regex.first_some
              (Regex.m (Regex.Chr (Regex.chi "s")) K
                 (Regex.mkM (pos + 4) (String c5 t) caps))
              (fun _ => K (Regex.mkM (pos + 4) (String c5 t) caps)) = Some res).
    cbn [Regex.m Regex.rest Regex.pos Regex.caps]. unfold Regex.chi at 1.
    rewrite H5. change (JS.lower_char "s") with "s"%char. rewrite Ascii.eqb_refl.
    simpl in HK. replace (S (pos + 4)) with (pos + 5) by lia. rewrite HK. reflexivity.
Qed.

Lemma httpUrl_inv k st res :
  Regex.m httpUrl k st = Some res ->
  exists u t,
    Regex.rest st = u ++ t /\ httpRun u
    /\ k (Regex.mkM (Regex.pos st + String.length u) t (Regex.caps st)) = Some res.
Proof.
  intros Hm.
  change (Regex.m (Regex.liti "http")
            (Regex.m (Regex.Opt (Regex.Chr (Regex.chi "s")))
               (Regex.m (Regex.lit "://") (Regex.m (Regex.Plus (Regex.Chr url_char)) k)))
            st = Some res) in Hm.
  destruct (http_s_inv _ _ _ Hm) as (w & t1 & Hrest & Hw & Hk1).
  destruct (m_lit_inv "://" ltac:(discriminate) _ _ _ Hk1) as (t2 & Ht1 & Hk2).
  cbn [Regex.rest Regex.pos Regex.caps] in *.
  destruct (m_plus_class_inv _ _ _ _ Hk2) as (a & t3 & Ht2 & Hne & Ha & Hk3).
  cbn [Regex.rest Regex.pos Regex.caps] in *.
  exists (w ++ "://" ++ a), t3. split; [|split].
  - rewrite Hrest, Ht1, Ht2, !append_assoc. reflexivity.
  - exists w, a. auto.
  - rewrite !string_length_app.
    replace (Regex.pos st + (String.length w + (String.length "://" + String.length a)))
      with (Regex.pos st + String.length w + String.length "://" + String.length a) by lia.
    exact Hk3.
Qed.

Lemma httpUrl_fwd k u t pos caps res :
  httpRun u -> halts url_char t ->
  k (Regex.mkM (pos + String.length u) t caps) = Some res ->
  Regex.m httpUrl k (Regex.mkM pos (u ++ t) caps) = Some res.
Proof.
  intros (w & tail & -> & Hw & Hne & Htail) Ht Hk.
  change (Regex.m (Regex.liti "http")
            (Regex.m (Regex.Opt (Regex.Chr (Regex.chi "s")))
               (Regex.m (Regex.lit "://") (Regex.m (Regex.Plus (Regex.Chr url_char)) k)))
            (Regex.mkM pos ((w ++ "://" ++ tail) ++ t) caps) = Some res).
  rewrite !append_assoc. apply http_s_fwd.
  - destruct Hw as [Hw|Hw]; [left; split; [exact Hw|reflexivity]|right; exact Hw].
  - rewrite m_lit_fwd. apply m_plus_class_fwd; try assumption.
    rewrite !string_length_app in Hk.
    replace (pos + String.length w + String.length "://" + String.length tail)
      with (pos + (String.length w + (String.length "://" + String.length tail))) by lia.
    exact Hk.
Qed.

Lemma m_plus_class_Some p pos s caps res :
  Regex.m (Regex.Plus (Regex.Chr p)) Some (Regex.mkM pos s caps) = Some res ->
  exists c t,
    s = String c t /\ p c = true
    /\ res = Regex.mkM (pos + String.length (String c (run p t))) (afterRun p t) caps.
Proof.
  intros Hm.
  change (Regex.m (Regex.Chr p) (Regex.m (Regex.Star true (Regex.Chr p)) Some)
            (Regex.mkM pos s caps) = Some res) in Hm.
  destruct (m_chr_inv _ _ _ _ Hm) as (c & t & Hs & Hc & Hk).
  cbn [Regex.rest Regex.pos Regex.caps] in *.
  exists c, t. split; [exact Hs|]. split; [exact Hc|].
  change (Regex.star_loop true (Regex.m (Regex.Chr p)) Some (S (String.length t))
            (Regex.mkM (S pos) t caps) = Some res) in Hk.
  rewrite star_class_Some in Hk by lia. inversion Hk; subst.
  f_equal. simpl. lia.
Qed.

Lemma exec_at_final r s p x :
  Regex.exec_at r s p = Some x ->
  exists st, Regex.m r Some (Regex.mkM p s []) = Some st
             /\ x = Regex.mkMatch p (String.substring 0 (Regex.pos st - p) s)
                      (Regex.caps st).
Proof.
  unfold Regex.exec_at. intros H.
  destruct (Regex.m r Some (Regex.mkM p s [])) as [st|]; [|discriminate].
  inversion H; subst. exists st. auto.
Qed.

(** A match that read [m] and left [post]. *)
Lemma exec_at_of r p m post caps :
  Regex.m r Some (Regex.mkM p (m ++ post) [])
  = Some (Regex.mkM (p + String.length m) post caps) ->
  Regex.exec_at r (m ++ post) p = Some (Regex.mkMatch p m caps).
Proof.
  intros H. unfold Regex.exec_at. rewrite H. cbn [Regex.pos Regex.caps].
  replace (p + String.length m - p) with (String.length m) by lia.
  rewrite substring_prefix. reflexivity.
Qed.

(** What the plain pattern matches at an index. *)
Lemma plain_exec_inv s p x :
  Regex.exec_at plainRe s p = Some x -> plainAt s (Regex.matched x) (Regex.matched x).
Proof.
  intros Hx. destruct (exec_at_final _ _ _ _ Hx) as (st & Hm & ->). clear Hx.
  cbn [Regex.matched].
  change (Regex.m (Regex.liti "http")
            (Regex.m (Regex.Opt (Regex.Chr (Regex.chi "s")))
               (Regex.m (Regex.lit "://")
                  (Regex.m (Regex.Plus (Regex.Chr url_char)) Some)))
            (Regex.mkM p s []) = Some st) in Hm.
  destruct (http_s_inv _ _ _ Hm) as (w & t1 & Hrest & Hw & Hk1).
  destruct (m_lit_inv "://" ltac:(discriminate) _ _ _ Hk1) as (t2 & Ht1 & Hk2).
  cbn [Regex.rest Regex.pos Regex.caps] in *.
  destruct (m_plus_class_Some _ _ _ _ _ Hk2) as (c & t' & Ht & Hc & ->).
  cbn [Regex.pos].
  set (tail := String c (run url_char t')).
  assert (Hs : s = (w ++ "://" ++ tail) ++ afterRun url_char t').
  { rewrite Hrest, Ht1, Ht, !append_assoc. unfold tail.
    change (String c (run url_char t') ++ afterRun url_char t')
      with (String c (run url_char t' ++ afterRun url_char t')).
    rewrite <- run_split. reflexivity. }
  assert (Hsub : String.substring 0
                   (p + String.length w + String.length "://" + String.length tail - p) s
                 = w ++ "://" ++ tail).
  { replace (p + String.length w + String.length "://" + String.length tail - p)
      with (String.length (w ++ "://" ++ tail))
      by (rewrite !string_length_app; lia).
    rewrite Hs. apply substring_prefix. }
  rewrite Hsub. split; [reflexivity|].
  exists (afterRun url_char t'). split; [exact Hs|]. split; [|apply afterRun_halts].
  exists w, tail. repeat split; try assumption.
  - discriminate.
  - unfold tail. simpl. rewrite Hc. apply run_all.
Qed.

Lemma plain_exec_fwd s m v :
  plainAt s m v ->
  forall p, exists x, Regex.exec_at plainRe s p = Some x
                      /\ Regex.matched x = m /\ Regex.matched x = v.
Proof.
  intros (-> & post & -> & Hm & Hpost) p.
  exists (Regex.mkMatch p m []). split; [|split; reflexivity].
  apply exec_at_of. apply httpUrl_fwd; auto.
Qed.

(** What the Markdown pattern matches at an index. *)
Lemma mdReg_exec_inv s p x :
  Regex.exec_at mdReg s p = Some x ->
  mdAt s (Regex.matched x) (grp 1 x) /\ Regex.group 1 x = Some (grp 1 x).
Proof.
  intros Hx. destruct (exec_at_final _ _ _ _ Hx) as (st & Hm & ->). clear Hx.
  change (Regex.m (Regex.lit "[")
            (Regex.m (Regex.Plus (Regex.Chr (Regex.notc (Regex.ch "]"))))
               (Regex.m (Regex.lit "](")
                  (Regex.m (Regex.Grp 1 httpUrl) (Regex.m (Regex.lit ")") Some))))
            (Regex.mkM p s []) = Some st) in Hm.
  destruct (m_lit_inv "[" ltac:(discriminate) _ _ _ Hm) as (t1 & Hs & Hk1).
  cbn [Regex.rest Regex.pos Regex.caps] in *.
  destruct (m_plus_class_inv _ _ _ _ Hk1) as (label & t2 & Ht1 & Hne & Hlabel & Hk2).
  cbn [Regex.rest Regex.pos Regex.caps] in *.
  destruct (m_lit_inv "](" ltac:(discriminate) _ _ _ Hk2) as (t3 & Ht2 & Hk3).
  cbn [Regex.rest Regex.pos Regex.caps] in *.
  set (q := p + String.length "[" + String.length label + String.length "](") in *.
  change (Regex.m httpUrl
            (fun st' =>
               Regex.m (Regex.lit ")") Some
                 (Regex.mkM (Regex.pos st') (Regex.rest st')
                    ((1, String.substring 0 (Regex.pos st' - q) t3) :: Regex.caps st')))
            (Regex.mkM q t3 []) = Some st) in Hk3.
  destruct (httpUrl_inv _ _ _ Hk3) as (u & t4 & Ht3 & Hu & Hk4).
  cbn [Regex.rest Regex.pos Regex.caps] in *.
  destruct (m_lit_inv ")" ltac:(discriminate) _ _ _ Hk4) as (t5 & Ht4 & Hk5).
  cbn [Regex.rest Regex.pos Regex.caps] in *.
  inversion Hk5; subst st; clear Hk5.
  replace (q + String.length u - q) with (String.length u) by lia.
  assert (Hcap : String.substring 0 (String.length u) t3 = u).
  { rewrite Ht3. apply substring_prefix. }
  rewrite Hcap.
  assert (Hgrp : forall m0, grp 1 (Regex.mkMatch p m0 [(1, u)]) = u) by reflexivity.
  rewrite Hgrp. split; [|reflexivity]. cbn [Regex.matched Regex.pos].
  assert (Hs' : s = ("[" ++ label ++ "](" ++ u ++ ")") ++ t5).
  { rewrite Hs, Ht1, Ht2, Ht3, Ht4, !append_assoc. reflexivity. }
  match goal with
  | |- context [String.substring 0 ?n s] =>
      replace n with (String.length ("[" ++ label ++ "](" ++ u ++ ")"))
        by (unfold q; rewrite !string_length_app; simpl; lia)
  end.
  assert (Hsub : String.substring 0 (String.length ("[" ++ label ++ "](" ++ u ++ ")")) s
                 = "[" ++ label ++ "](" ++ u ++ ")").
  { rewrite Hs'. apply substring_prefix. }
  rewrite Hsub. exists label, t5. auto.
Qed.

Lemma mdReg_exec_fwd s m v :
  mdAt s m v ->
  forall p, exists x, Regex.exec_at mdReg s p = Some x
                      /\ Regex.matched x = m /\ grp 1 x = v.
Proof.
  intros (label & post & -> & -> & Hne & Hlabel & Hv) p.
  exists (Regex.mkMatch p ("[" ++ label ++ "](" ++ v ++ ")") [(1, v)]).
  split; [|split; reflexivity].
  apply exec_at_of.
  change (Regex.m (Regex.lit "[")
            (Regex.m (Regex.Plus (Regex.Chr (Regex.notc (Regex.ch "]"))))
               (Regex.m (Regex.lit "](")
                  (Regex.m (Regex.Grp 1 httpUrl) (Regex.m (Regex.lit ")") Some))))
            (Regex.mkM p (("[" ++ label ++ "](" ++ v ++ ")") ++ post) [])
          = Some (Regex.mkM (p + String.length ("[" ++ label ++ "](" ++ v ++ ")")) post
                    [(1, v)])).
  rewrite !append_assoc. rewrite m_lit_fwd.
  apply m_plus_class_fwd; [exact Hne|exact Hlabel|reflexivity|].
  rewrite m_lit_fwd.
  set (q := p + String.length "[" + String.length label + String.length "](").
  change (Regex.m httpUrl
            (fun st' =>
               Regex.m (Regex.lit ")") Some
                 (Regex.mkM (Regex.pos st') (Regex.rest st')
                    ((1, String.substring 0 (Regex.pos st' - q) (v ++ ")" ++ post))
                       :: Regex.caps st')))
            (Regex.mkM q (v ++ ")" ++ post) [])
          = Some (Regex.mkM
                    (p + String.length ("[" ++ label ++ "](" ++ v ++ ")")) post [(1, v)])).
  apply httpUrl_fwd; [exact Hv|reflexivity|].
  cbn [Regex.pos Regex.rest Regex.caps]. rewrite m_lit_fwd.
  replace (q + String.length v - q) with (String.length v) by lia.
  rewrite substring_prefix. do 2 f_equal.
  unfold q. rewrite !string_length_app. simpl. lia.
Qed.

(** A star over a class that fails: what follows it fails after every run
    of the class it could have read. *)
Lemma star_class_None_inv p k caps :
  forall fuel s pos,
    String.length s < fuel ->
    Regex.star_loop true (Regex.m (Regex.Chr p)) k fuel (Regex.mkM pos s caps) = None ->
    forall a t, s = a ++ t -> JS.all_chars p a = true ->
                k (Regex.mkM (pos + String.length a) t caps) = None.
Proof.
  induction fuel as [|f IH]; intros s pos Hfuel Hm a t Hs Ha; [lia|].
  rewrite star_class_step in Hm. unfold Regex.first_some in Hm.
  destruct a as [|c a].
  - simpl in Hs. subst t. simpl. rewrite Nat.add_0_r.
    destruct (match s with
              | String c t => if p c then _ else None
              | EmptyString => None
              end); [discriminate|exact Hm].
  - simpl in Hs, Ha. subst s. apply andb_prop in Ha. destruct Ha as [Hc Ha].
    rewrite Hc in Hm.
    destruct (Regex.star_loop true (Regex.m (Regex.Chr p)) k f
                (Regex.mkM (S pos) (a ++ t) caps)) eqn:Hin; [discriminate|].
    simpl in Hfuel.
    pose proof (IH (a ++ t) (S pos) ltac:(lia) Hin a t eq_refl Ha) as H.
    simpl. replace (pos + S (String.length a)) with (S pos + String.length a) by lia.
    exact H.
Qed.

(** A star over a class that succeeds read the longest run of the class
    after which what follows succeeds. *)
Lemma star_class_longest p k caps :
  forall fuel s pos res,
    String.length s < fuel ->
    Regex.star_loop true (Regex.m (Regex.Chr p)) k fuel (Regex.mkM pos s caps) = Some res ->
    exists a t,
      s = a ++ t /\ JS.all_chars p a = true
      /\ k (Regex.mkM (pos + String.length a) t caps) = Some res
      /\ forall a' t', s = a' ++ t' -> JS.all_chars p a' = true ->
                       String.length a < String.length a' ->
                       k (Regex.mkM (pos + String.length a') t' caps) = None.
Proof.
  induction fuel as [|f IH]; intros s pos res Hfuel Hm; [lia|].
  rewrite star_class_step in Hm. unfold Regex.first_some in Hm.
  destruct s as [|c s].
  - exists EmptyString, EmptyString. simpl. rewrite Nat.add_0_r.
    repeat split; try assumption.
    intros a' t' Hs _ Hlen. destruct a'; simpl in *; [lia|discriminate].
  - destruct (p c) eqn:Hc.
    + simpl in Hfuel.
      destruct (Regex.star_loop true (Regex.m (Regex.Chr p)) k f
                  (Regex.mkM (S pos) s caps)) as [r|] eqn:Hin.
      * inversion Hm; subst r; clear Hm.
        destruct (IH s (S pos) res ltac:(lia) Hin) as (a & t & Hs & Ha & Hk & Hmax).
        exists (String c a), t. split; [simpl; rewrite Hs; reflexivity|].
        split; [simpl; rewrite Hc; exact Ha|]. split.
        { simpl. replace (pos + S (String.length a)) with (S pos + String.length a)
            by lia. exact Hk. }
        intros a' t' Hs' Ha' Hlen. destruct a' as [|c' a']; simpl in Hlen; [lia|].
        simpl in Hs', Ha'. injection Hs' as <- Hs'.
        apply andb_prop in Ha'. destruct Ha' as [_ Ha'].
        pose proof (Hmax a' t' Hs' Ha' ltac:(lia)) as H.
        simpl. replace (pos + S (String.length a')) with (S pos + String.length a')
          by lia. exact H.
      * exists EmptyString, (String c s). simpl. rewrite Nat.add_0_r.
        repeat split; try assumption.
        intros a' t' Hs' Ha' Hlen. destruct a' as [|c' a']; simpl in Hlen; [lia|].
        simpl in Hs', Ha'. injection Hs' as <- Hs'.
        apply andb_prop in Ha'. destruct Ha' as [_ Ha'].
        pose proof (star_class_None_inv p k caps f s (S pos) ltac:(lia) Hin a' t' Hs' Ha')
          as H.
        simpl. replace (pos + S (String.length a')) with (S pos + String.length a')
          by lia. exact H.
    + exists EmptyString, (String c s). simpl. rewrite Nat.add_0_r.
      repeat split; try assumption.
      intros a' t' Hs' Ha' Hlen. destruct a' as [|c' a']; simpl in Hlen; [lia|].
      simpl in Hs', Ha'. injection Hs' as <- Hs'. rewrite Hc in Ha'. discriminate.
Qed.

(** The anchor pattern from [href] on: what it reads, and that it reads
    it. *)
Lemma hrefTail_inv q t caps res :
  Regex.m hrefTail Some (Regex.mkM q t caps) = Some res ->
  exists h v more post,
    t = h ++ dqs ++ v ++ dqs ++ more ++ ">" ++ post
    /\ JS.toLowerCase h = "href="
    /\ v <> EmptyString
    /\ JS.all_chars not_dq v = true
    /\ JS.all_chars not_gt more = true
    /\ res = Regex.mkM (q + String.length (h ++ dqs ++ v ++ dqs ++ more ++ ">")) post
               ((1, v) :: caps).
Proof.
  intros Hm.
  change (Regex.m (Regex.liti "href=")
            (Regex.m (Regex.Chr (Regex.ch dq))
               (Regex.m (Regex.Grp 1 (Regex.Plus (Regex.Chr not_dq)))
                  (Regex.m (Regex.Chr (Regex.ch dq))
                     (Regex.m (Regex.Star true (Regex.Chr not_gt))
                        (Regex.m (Regex.lit ">") Some)))))
            (Regex.mkM q t caps) = Some res) in Hm.
  destruct (m_liti_inv "href=" ltac:(discriminate) _ _ _ Hm) as (h & t3 & Ht2 & Hh & Hk3).
  cbn [Regex.rest Regex.pos Regex.caps] in *.
  apply same_ci_lower in Hh. change (JS.toLowerCase "href=") with "href=" in Hh.
  destruct (m_chr_inv _ _ _ _ Hk3) as (c1 & t4 & Ht3 & Hc1 & Hk4).
  cbn [Regex.rest Regex.pos Regex.caps] in *.
  unfold Regex.ch in Hc1. apply Ascii.eqb_eq in Hc1. subst c1.
  set (q' := S (q + String.length h)) in *.
  change (Regex.m (Regex.Plus (Regex.Chr not_dq))
            (fun st' =>
               Regex.m (Regex.Chr (Regex.ch dq))
                 (Regex.m (Regex.Star true (Regex.Chr not_gt))
                    (Regex.m (Regex.lit ">") Some))
                 (Regex.mkM (Regex.pos st') (Regex.rest st')
                    ((1, String.substring 0 (Regex.pos st' - q') t4) :: Regex.caps st')))
            (Regex.mkM q' t4 caps) = Some res) in Hk4.
  destruct (m_plus_class_inv _ _ _ _ Hk4) as (u & t5 & Ht4 & Hne & Hu & Hk5).
  cbn [Regex.rest Regex.pos Regex.caps] in *.
  destruct (m_chr_inv _ _ _ _ Hk5) as (c2 & t6 & Ht5 & Hc2 & Hk6).
  cbn [Regex.rest Regex.pos Regex.caps] in *.
  unfold Regex.ch in Hc2. apply Ascii.eqb_eq in Hc2. subst c2.
  destruct (m_star_class_inv _ _ _ _ _ Hk6) as (more & t7 & Ht6 & Hmore & Hk7).
  cbn [Regex.rest Regex.pos Regex.caps] in *.
  destruct (m_lit_inv ">" ltac:(discriminate) _ _ _ Hk7) as (t8 & Ht7 & Hk8).
  cbn [Regex.rest Regex.pos Regex.caps] in *.
  inversion Hk8; subst res; clear Hk8.
  exists h, u, more, t8.
  split; [rewrite Ht2, Ht3, Ht4, Ht5, Ht6, Ht7; reflexivity|].
  repeat (split; [assumption|]).
  match goal with
  | |- context [String.substring 0 ?n t4] =>
      replace n with (String.length u) by lia
  end.
  rewrite Ht4, substring_prefix. f_equal.
  unfold dqs. rewrite !string_length_app. simpl. lia.
Qed.

Lemma hrefTail_fwd q h v more post caps :
  JS.toLowerCase h = "href=" ->
  v <> EmptyString ->
  JS.all_chars not_dq v = true ->
  JS.all_chars not_gt more = true ->
  Regex.m hrefTail Some
    (Regex.mkM q (h ++ dqs ++ v ++ dqs ++ more ++ ">" ++ post) caps)
  = Some (Regex.mkM (q + String.length (h ++ dqs ++ v ++ dqs ++ more ++ ">")) post
            ((1, v) :: caps)).
Proof.
  intros Hh Hne Hv Hmore.
  change (Regex.m (Regex.liti "href=")
            (Regex.m (Regex.Chr (Regex.ch dq))
               (Regex.m (Regex.Grp 1 (Regex.Plus (Regex.Chr not_dq)))
                  (Regex.m (Regex.Chr (Regex.ch dq))
                     (Regex.m (Regex.Star true (Regex.Chr not_gt))
                        (Regex.m (Regex.lit ">") Some)))))
            (Regex.mkM q (h ++ dqs ++ v ++ dqs ++ more ++ ">" ++ post) caps)
          = Some (Regex.mkM (q + String.length (h ++ dqs ++ v ++ dqs ++ more ++ ">")) post
                    ((1, v) :: caps))).
  rewrite (m_liti_fwd "href=" h _ q _ caps (lower_same_ci h "href=" Hh)).
  set (q' := S (q + String.length h)).
  change (Regex.m (Regex.Plus (Regex.Chr not_dq))
            (fun st' =>
               Regex.m (Regex.Chr (Regex.ch dq))
                 (Regex.m (Regex.Star true (Regex.Chr not_gt))
                    (Regex.m (Regex.lit ">") Some))
                 (Regex.mkM (Regex.pos st') (Regex.rest st')
                    ((1, String.substring 0 (Regex.pos st' - q')
                           (v ++ dqs ++ more ++ ">" ++ post)) :: Regex.caps st')))
            (Regex.mkM q' (v ++ dqs ++ more ++ ">" ++ post) caps)
          = Some (Regex.mkM (q + String.length (h ++ dqs ++ v ++ dqs ++ more ++ ">")) post
                    ((1, v) :: caps))).
  apply m_plus_class_fwd; [exact Hne|exact Hv|reflexivity|].
  cbn [Regex.pos Regex.rest Regex.caps].
  replace (q' + String.length v - q') with (String.length v) by lia.
  rewrite substring_prefix.
  change (Regex.m (Regex.Star true (Regex.Chr not_gt)) (Regex.m (Regex.lit ">") Some)
            (Regex.mkM (S (q' + String.length v)) (more ++ ">" ++ post) ((1, v) :: caps))
          = Some (Regex.mkM (q + String.length (h ++ dqs ++ v ++ dqs ++ more ++ ">")) post
                    ((1, v) :: caps))).
  apply m_star_class_fwd; [exact Hmore|reflexivity|].
  rewrite m_lit_fwd. do 2 f_equal.
  unfold q', dqs. rewrite !string_length_app. simpl. lia.
Qed.

Lemma exec_at_split r p s m post caps :
  s = m ++ post ->
  Regex.m r Some (Regex.mkM p s []) = Some (Regex.mkM (p + String.length m) post caps) ->
  Regex.exec_at r s p = Some (Regex.mkMatch p m caps).
Proof. intros -> H. apply exec_at_of, H. Qed.

(** What the anchor pattern matches at an index: of the [href]s of the tag
    that can be read, the last. *)
Lemma htmlReg_exec_inv s p x :
  Regex.exec_at htmlReg s p = Some x -> anchorAt s (Regex.matched x) (grp 1 x).
Proof.
  intros Hx. destruct (exec_at_final _ _ _ _ Hx) as (st & Hm & ->). clear Hx.
  change (Regex.m (Regex.liti "<a ")
            (Regex.m (Regex.Star true (Regex.Chr not_gt)) (Regex.m hrefTail Some))
            (Regex.mkM p s []) = Some st) in Hm.
  destruct (m_liti_inv "<a " ltac:(discriminate) _ _ _ Hm) as (tag & t1 & Hs & Htag & Hk1).
  cbn [Regex.rest Regex.pos Regex.caps] in *.
  apply same_ci_lower in Htag. change (JS.toLowerCase "<a ") with "<a " in Htag.
  change (Regex.star_loop true (Regex.m (Regex.Chr not_gt)) (Regex.m hrefTail Some)
            (S (String.length t1)) (Regex.mkM (p + String.length tag) t1 []) = Some st)
    in Hk1.
  destruct (star_class_longest not_gt (Regex.m hrefTail Some) [] (S (String.length t1)) t1
              (p + String.length tag) st (Nat.lt_succ_diag_r _) Hk1)
    as (attrs & t2 & Ht1 & Hattrs & Hk2 & Hmax).
  destruct (hrefTail_inv _ _ _ _ Hk2)
    as (h & v & more & post & Ht2 & Hh & Hne & Hv & Hmore & ->).
  cbn [Regex.matched Regex.pos Regex.caps].
  assert (Hgrp : forall m0, grp 1 (Regex.mkMatch p m0 [(1, v)]) = v) by reflexivity.
  rewrite Hgrp.
  set (mm := tag ++ attrs ++ h ++ dqs ++ v ++ dqs ++ more ++ ">").
  assert (Hs' : s = mm ++ post).
  { rewrite Hs, Ht1, Ht2. unfold mm. rewrite !append_assoc. reflexivity. }
  match goal with
  | |- context [String.substring 0 ?n s] =>
      replace n with (String.length mm)
        by (unfold mm; rewrite !string_length_app; lia)
  end.
  assert (Hsub : String.substring 0 (String.length mm) s = mm).
  { rewrite Hs'. apply substring_prefix. }
  rewrite Hsub.
  exists tag, attrs, h, more, post. split; [|split; [reflexivity|]].
  - unfold anchorSplit. split; [rewrite Hs, Ht1, Ht2; reflexivity|].
    repeat split; assumption.
  - intros tag' attrs' h' v' more' post' (Hs2 & Htag' & Hattrs' & Hh' & Hne' & Hv' & Hmore').
    destruct (Nat.le_gt_cases (String.length attrs') (String.length attrs)) as [Hle|Hgt];
      [exact Hle|exfalso].
    assert (Hlen : String.length tag = String.length tag').
    { rewrite <- (lower_length tag), <- (lower_length tag'), Htag, Htag'. reflexivity. }
    rewrite Hs in Hs2. destruct (append_inv_length _ _ _ _ Hs2 Hlen) as [<- Ht1'].
    pose proof (Hmax attrs' _ Ht1' Hattrs' Hgt) as Hnone.
    rewrite (hrefTail_fwd _ h' v' more' post' [] Hh' Hne' Hv' Hmore') in Hnone.
    discriminate Hnone.
Qed.

Lemma htmlReg_exec_fwd s m v :
  anchorAt s m v ->
  forall p, exists x, Regex.exec_at htmlReg s p = Some x
                      /\ Regex.matched x = m /\ grp 1 x = v.
Proof.
  intros (tag & attrs & h & more & post & Hsplit & -> & Hmax) p.
  pose proof Hsplit as (Hs & Htag & Hattrs & Hh & Hne & Hv & Hmore).
  set (mm := tag ++ attrs ++ h ++ dqs ++ v ++ dqs ++ more ++ ">").
  exists (Regex.mkMatch p mm [(1, v)]). split; [|split; reflexivity].
  apply (exec_at_split _ _ _ _ post).
  { rewrite Hs. unfold mm. rewrite !append_assoc. reflexivity. }
  rewrite Hs.
  change (Regex.m (Regex.liti "<a ")
            (Regex.m (Regex.Star true (Regex.Chr not_gt)) (Regex.m hrefTail Some))
            (Regex.mkM p
               (tag ++ attrs ++ h ++ dqs ++ v ++ dqs ++ more ++ ">" ++ post) [])
          = Some (Regex.mkM (p + String.length mm) post [(1, v)])).
  rewrite (m_liti_fwd "<a " tag _ p _ [] (lower_same_ci tag "<a " Htag)).
  set (b := h ++ dqs ++ v ++ dqs ++ more ++ ">" ++ post).
  change (Regex.star_loop true (Regex.m (Regex.Chr not_gt)) (Regex.m hrefTail Some)
            (S (String.length (attrs ++ b)))
            (Regex.mkM (p + String.length tag) (attrs ++ b) [])
          = Some (Regex.mkM (p + String.length mm) post [(1, v)])).
  apply star_class_pick.
  - exact Hattrs.
  - rewrite string_length_app. lia.
  - intros a' b' Hb Hne' Ha'.
    destruct (Regex.m hrefTail Some
                (Regex.mkM (p + String.length tag + String.length attrs
                            + String.length a') b' [])) as [res|] eqn:Hq;
      [exfalso|reflexivity].
    destruct (hrefTail_inv _ _ _ _ Hq)
      as (h' & v' & more' & post' & Hb' & Hh' & Hv0 & Hv' & Hmore' & _).
    assert (Hsp : anchorSplit s tag (attrs ++ a') h' v' more' post').
    { unfold anchorSplit. split; [|repeat split; try assumption].
      - rewrite Hs. fold b. rewrite Hb, Hb', !append_assoc. reflexivity.
      - rewrite all_chars_app, Hattrs, Ha'. reflexivity. }
    pose proof (Hmax _ _ _ _ _ _ Hsp) as Hle. rewrite string_length_app in Hle.
    destruct a'; [congruence|simpl in Hle; lia].
  - unfold b. rewrite hrefTail_fwd by assumption. do 2 f_equal.
    unfold mm. rewrite !string_length_app. lia.
Qed.

(* ================================================================== *)
(** * The list of all matches is the reading from left to right *)
(* ================================================================== *)

Section ReadingScan.

Variable r : Regex.re.
Variable occ : string -> string -> string -> Prop.
Variable val : Regex.Match -> string.
Hypothesis Hne : NonEmpty r.
Hypothesis Hinv :
  forall s p x, Regex.exec_at r s p = Some x -> occ s (Regex.matched x) (val x).
Hypothesis Hfwd :
  forall s m v, occ s m v ->
    forall p, exists x, Regex.exec_at r s p = Some x
                        /\ Regex.matched x = m /\ val x = v.

Lemma scan_after_match c t p x :
  Regex.exec_at r (String c t) p = Some x ->
  exists post,
    String c t = Regex.matched x ++ post
    /\ Regex.matched x <> EmptyString
    /\ Regex.scan r (String c t) p 0
       = x :: Regex.scan r post (p + String.length (Regex.matched x)) 0.
Proof.
  intros Hx. destruct (exec_at_track r _ p x Hx) as (_ & (post & Hs) & _).
  destruct (Hne _ _ _ Hx) as (_ & Hlen & _).
  exists post. split; [exact Hs|].
  split; [destruct (Regex.matched x); simpl in Hlen; [lia|discriminate]|].
  cbn [Regex.scan]. rewrite Hx. f_equal.
  destruct (Regex.matched x) as [|c' m'] eqn:Hm; [simpl in Hlen; lia|].
  simpl in Hs. injection Hs as _ Ht. cbn [String.length pred].
  rewrite scan_skip by (rewrite Ht, string_length_app; lia).
  rewrite Ht, drop_app. f_equal. lia.
Qed.

Lemma scan_empty p : Regex.scan r EmptyString p 0 = [].
Proof.
  cbn [Regex.scan]. destruct (Regex.exec_at r EmptyString p) as [x|] eqn:Hx;
    [|reflexivity].
  destruct (Hne _ _ _ Hx) as (_ & H1 & H2). simpl in H2. lia.
Qed.

Lemma scan_Reading :
  forall n text p,
    String.length text <= n -> Reading occ text (map val (Regex.scan r text p 0)).
Proof.
  induction n as [|n IH]; intros text p Hlen.
  - destruct text; [|simpl in Hlen; lia]. rewrite scan_empty. constructor.
  - destruct text as [|c t]; [rewrite scan_empty; constructor|].
    destruct (Regex.exec_at r (String c t) p) as [x|] eqn:Hx.
    + destruct (scan_after_match _ _ _ _ Hx) as (post & Hs & Hm & Hscan).
      rewrite Hscan. cbn [map]. pose proof (Hinv _ _ _ Hx) as Hocc.
      assert (Hpost : String.length post <= n).
      { assert (Hl : String.length (String c t)
                     = String.length (Regex.matched x) + String.length post)
          by (rewrite Hs at 1; apply string_length_app).
        destruct (Regex.matched x); [congruence|]. simpl in *. lia. }
      revert Hocc. rewrite Hs. intros Hocc.
      apply Reading_take; [exact Hocc|exact Hm|apply IH, Hpost].
    + cbn [Regex.scan]. rewrite Hx. apply Reading_pass.
      * intros m v Hocc. destruct (Hfwd _ _ _ Hocc p) as (x & Hx' & _). congruence.
      * apply IH. simpl in Hlen. lia.
Qed.

Lemma Reading_scan text l :
  Reading occ text l -> forall p, map val (Regex.scan r text p 0) = l.
Proof.
  induction 1 as [|c s l Hno Hr IH|m v s l Hocc Hm Hr IH]; intros p.
  - rewrite scan_empty. reflexivity.
  - cbn [Regex.scan].
    destruct (Regex.exec_at r (String c s) p) as [x|] eqn:Hx;
      [exfalso; exact (Hno _ _ (Hinv _ _ _ Hx))|apply IH].
  - destruct (Hfwd _ _ _ Hocc p) as (x & Hx & Hmx & Hvx).
    destruct m as [|c m']; [congruence|].
    change (String c m' ++ s) with (String c (m' ++ s)) in *.
    destruct (scan_after_match _ _ _ _ Hx) as (post & Hs & _ & Hscan).
    rewrite Hscan. cbn [map]. rewrite Hvx. f_equal.
    rewrite Hmx in Hs. simpl in Hs. injection Hs as Hs.
    destruct (append_inv_length _ _ _ _ Hs eq_refl) as [_ <-]. apply IH.
Qed.

End ReadingScan.

(* ================================================================== *)
(** * What [extractAllUrls] collects *)
(* ================================================================== *)

Lemma extractAllUrls_members text :
  NoDup (extractAllUrls text)
  /\ forall u, In u (extractAllUrls text) <->
       In u (map Regex.matched (Regex.matchAll plainRe text))
       \/ In u (map (grp 1) (Regex.matchAll mdReg text))
       \/ In u (map (grp 1) (Regex.matchAll htmlReg text)).
Proof.
  unfold extractAllUrls.
  set (P := map Regex.matched (Regex.matchAll plainRe text)).
  destruct (fold_Set_add (fun u => u) P [] (NoDup_nil _)) as [Hn1 Hi1].
  change (fold_left (fun urls x => JS.Set_add urls x) P [])
    with (fold_left JS.Set_add P []) in *.
  destruct (fold_Set_add (grp 1) (Regex.matchAll mdReg text) _ Hn1) as [Hn2 Hi2].
  destruct (fold_Set_add (grp 1) (Regex.matchAll htmlReg text) _ Hn2) as [Hn3 Hi3].
  split; [exact Hn3|]. intros u. rewrite Hi3, Hi2, Hi1, map_id. simpl. tauto.
Qed.

Lemma search_from_Bos R :
  forall s n, Regex.search_from (Regex.Seq Regex.Bos R) s (S n) = None.
Proof.
  induction s as [|c s IH]; intros n; cbn [Regex.search_from]; unfold Regex.exec_at;
    cbn [Regex.m Regex.pos Nat.eqb]; [reflexivity|apply IH].
Qed.

(** The test of [safeGetDomainFromUrl] for a scheme. *)
Lemma test_schemeRe raw : Regex.test schemeRe raw = true <-> beginsWithScheme raw.
Proof.
  unfold Regex.test, Regex.exec.
  assert (Heq : Regex.search_from schemeRe raw 0 = Regex.exec_at schemeRe raw 0).
  { destruct raw as [|c t]; cbn [Regex.search_from];
      destruct (Regex.exec_at schemeRe _ 0) eqn:Hx; try reflexivity.
    apply (search_from_Bos
             (Regex.Seq (Regex.liti "http")
                (Regex.Seq (Regex.Opt (Regex.Chr (Regex.chi "s"))) (Regex.lit "://")))). }
  rewrite Heq. unfold Regex.exec_at.
  change (Regex.m schemeRe Some (Regex.mkM 0 raw []))
    with (Regex.m (Regex.liti "http")
            (Regex.m (Regex.Opt (Regex.Chr (Regex.chi "s")))
               (Regex.m (Regex.lit "://") Some)) (Regex.mkM 0 raw [])).
  split.
  - destruct (Regex.m (Regex.liti "http") _ (Regex.mkM 0 raw [])) as [st|] eqn:Hm;
      [intros _|discriminate].
    destruct (http_s_inv _ _ _ Hm) as (w & t1 & Hrest & Hw & Hk1).
    destruct (m_lit_inv "://" ltac:(discriminate) _ _ _ Hk1) as (t2 & Ht1 & _).
    cbn [Regex.rest] in *. exists w, t2. rewrite Hrest, Ht1. auto.
  - intros (w & t & -> & Hw).
    erewrite http_s_fwd; [reflexivity| |rewrite m_lit_fwd; reflexivity].
    destruct Hw as [Hw|Hw]; [left; split; [exact Hw|reflexivity]|right; exact Hw].
Qed.

Lemma safeGetDomainFromUrl_cases E raw target :
  (beginsWithScheme raw /\ target = raw)
  \/ (~ beginsWithScheme raw /\ target = "http://" ++ raw) ->
  safeGetDomainFromUrl E raw
  = match URL_hostname E target with
    | Some h => Some (JS.orElse (getDomain E h) h)
    | None => JS.nonEmpty (parseTld_domain E raw)
    end.
Proof.
  intros Hcase. unfold safeGetDomainFromUrl.
  destruct (Regex.test schemeRe raw) eqn:Ht.
  - apply test_schemeRe in Ht. destruct Hcase as [[_ ->]|[Hno _]]; [reflexivity|tauto].
  - destruct Hcase as [[Hyes _]|[_ ->]]; [|reflexivity].
    apply test_schemeRe in Hyes. congruence.
Qed.

(** Every match in the list of all matches was found at some index of the
    text. *)
Lemma scan_exec r :
  forall s p skip x,
    In x (Regex.scan r s p skip) ->
    exists a b, s = a ++ b /\ Regex.exec_at r b (p + String.length a) = Some x.
Proof.
  induction s as [|c s IH]; intros p skip x Hin.
  - destruct skip; simpl in Hin; [|contradiction].
    destruct (Regex.exec_at r EmptyString p) as [y|] eqn:Hy; [|contradiction].
    destruct Hin as [<-|[]]. exists EmptyString, EmptyString.
    simpl. rewrite Nat.add_0_r. auto.
  - assert (Htail : forall n, In x (Regex.scan r s (S p) n) ->
              exists a b, String c s = a ++ b
                          /\ Regex.exec_at r b (p + String.length a) = Some x).
    { intros n Hn. destruct (IH _ _ _ Hn) as (a & b & Hs & Hb).
      exists (String c a), b. split; [simpl; rewrite Hs; reflexivity|].
      simpl. replace (p + S (String.length a)) with (S p + String.length a) by lia.
      exact Hb. }
    destruct skip; simpl in Hin; [|exact (Htail _ Hin)].
    destruct (Regex.exec_at r (String c s) p) as [y|] eqn:Hy; [|exact (Htail _ Hin)].
    destruct Hin as [<-|Hin]; [|exact (Htail _ Hin)].
    exists EmptyString, (String c s). simpl. rewrite Nat.add_0_r. auto.
Qed.

Lemma matchAll_occursIn r occ val text u :
  (forall s p x, Regex.exec_at r s p = Some x -> occ s (Regex.matched x) (val x)) ->
  In u (map val (Regex.matchAll r text)) -> occursIn occ text u.
Proof.
  intros Hinv Hin. apply in_map_iff in Hin. destruct Hin as (x & <- & Hx).
  destruct (scan_exec _ _ _ _ _ Hx) as (a & b & Hs & Hb).
  exists a, b, (Regex.matched x). split; [exact Hs|exact (Hinv _ _ _ Hb)].
Qed.

(* ================================================================== *)
(** * Errors, unparsed URLs and blank fields *)
(* ================================================================== *)



(* ================================================================== *)
(** * Extraction, against a reading of the text *)
(* ================================================================== *)

(** C8, as the code has it.  For a text of ASCII characters:
    - the text can be read from left to right for plain http(s) URLs (each
      running up to white space, a closing parenthesis or the end), for
      Markdown links with an http(s) target, and for anchor tags with a
      double-quoted href, each reading taking an occurrence whole and going
      on behind it;
    - whatever such readings one takes, [extractAllUrls] returns exactly
      the plain URLs, the link targets and the href values they find;
    - it returns each once;
    - so every string it returns is one of the three in the text;
    - [safeGetDomainFromUrl] puts http:// before a text that does not begin
      with a scheme, and gives the registered domain of the host name, or
      the host name when [tldts] has none for it, or what [tldts] reads in
      the raw text when the URL cannot be parsed, or nothing. *)
Theorem extraction_collects_what_a_reading_from_the_left_finds (E : Env) (text : string) :
  ascii_text text = true ->
  (exists plain md html,
      Reading plainAt text plain /\ Reading mdAt text md /\ Reading anchorAt text html)
  /\ (forall plain md html,
        Reading plainAt text plain -> Reading mdAt text md ->
        Reading anchorAt text html ->
        forall u, In u (extractAllUrls text) <-> In u plain \/ In u md \/ In u html)
  /\ NoDup (extractAllUrls text)
  /\ (forall u, In u (extractAllUrls text) ->
        occursIn plainAt text u \/ occursIn mdAt text u \/ occursIn anchorAt text u)
  /\ (forall raw target,
        (beginsWithScheme raw /\ target = raw)
        \/ (~ beginsWithScheme raw /\ target = "http://" ++ raw) ->
        (forall h d, URL_hostname E target = Some h -> getDomain E h = Some d ->
                     d <> EmptyString -> safeGetDomainFromUrl E raw = Some d)
        /\ (forall h, URL_hostname E target = Some h ->
                      getDomain E h = None \/ getDomain E h = Some EmptyString ->
                      safeGetDomainFromUrl E raw = Some h)
        /\ (forall d, URL_hostname E target = None -> parseTld_domain E raw = Some d ->
                      d <> EmptyString -> safeGetDomainFromUrl E raw = Some d)
        /\ (URL_hostname E target = None ->
            parseTld_domain E raw = None \/ parseTld_domain E raw = Some EmptyString ->
            safeGetDomainFromUrl E raw = None)).
Proof.
  intros _.
  pose proof (readsOne_NonEmpty plainRe eq_refl) as Np.
  pose proof (readsOne_NonEmpty mdReg eq_refl) as Nm.
  pose proof (readsOne_NonEmpty htmlReg eq_refl) as Nh.
  assert (Im : forall s p x, Regex.exec_at mdReg s p = Some x ->
                             mdAt s (Regex.matched x) (grp 1 x))
    by (intros s p x H; exact (proj1 (mdReg_exec_inv s p x H))).
  destruct (extractAllUrls_members text) as [Hnd Hin].
  split; [|split; [|split; [exact Hnd|split]]].
  - exists (map Regex.matched (Regex.matchAll plainRe text)),
           (map (grp 1) (Regex.matchAll mdReg text)),
           (map (grp 1) (Regex.matchAll htmlReg text)).
    unfold Regex.matchAll. split; [|split].
    + exact (scan_Reading plainRe plainAt Regex.matched Np plain_exec_inv plain_exec_fwd
               _ text 0 (le_n _)).
    + exact (scan_Reading mdReg mdAt (grp 1) Nm Im mdReg_exec_fwd _ text 0 (le_n _)).
    + exact (scan_Reading htmlReg anchorAt (grp 1) Nh htmlReg_exec_inv htmlReg_exec_fwd
               _ text 0 (le_n _)).
  - intros plain md html R1 R2 R3 u. rewrite Hin. unfold Regex.matchAll.
    rewrite (Reading_scan plainRe plainAt Regex.matched Np plain_exec_inv plain_exec_fwd
               text plain R1 0).
    rewrite (Reading_scan mdReg mdAt (grp 1) Nm Im mdReg_exec_fwd text md R2 0).
    rewrite (Reading_scan htmlReg anchorAt (grp 1) Nh htmlReg_exec_inv htmlReg_exec_fwd
               text html R3 0).
    reflexivity.
  - intros u Hu. apply Hin in Hu. destruct Hu as [Hu|[Hu|Hu]].
    + left. exact (matchAll_occursIn plainRe plainAt Regex.matched text u plain_exec_inv Hu).
    + right. left. exact (matchAll_occursIn mdReg mdAt (grp 1) text u Im Hu).
    + right. right.
      exact (matchAll_occursIn htmlReg anchorAt (grp 1) text u htmlReg_exec_inv Hu).
  - intros raw target Hcase. rewrite (safeGetDomainFromUrl_cases E raw target Hcase).
    split; [|split; [|split]].
    + intros h d -> -> Hd. unfold JS.orElse. destruct d; [congruence|reflexivity].
    + intros h -> [-> | ->]; reflexivity.
    + intros d -> -> Hd. unfold JS.nonEmpty. destruct d; [congruence|reflexivity].
    + intros -> [-> | ->]; reflexivity.
Qed.

Lemma extraction_collects_what_a_reading_from_the_left_finds_witness :
  let text := "see http://a.com or [x](https://b.org/p) or <a href=" ++ dqs
              ++ "HTTP://c.net" ++ dqs ++ " id=" ++ dqs ++ "k" ++ dqs ++ ">c</a>" in
  ascii_text text = true
  /\ extractAllUrls text
     = ["http://a.com"; "https://b.org/p";
        "HTTP://c.net" ++ dqs; "HTTP://c.net"]
  /\ (exists plain md html,
         Reading plainAt text plain /\ Reading mdAt text md /\ Reading anchorAt text html
         /\ forall u, In u (extractAllUrls text) <-> In u plain \/ In u md \/ In u html)
  /\ (forall u, In u (extractAllUrls text) ->
        occursIn plainAt text u \/ occursIn mdAt text u \/ occursIn anchorAt text u)
  /\ safeGetDomainFromUrl Tldts.env "https://portal.legitvendor.com."
     = Some "legitvendor.com"
  /\ safeGetDomainFromUrl Tldts.env "portal.legitvendor.com" = Some "legitvendor.com".
Proof.
  intros text.
  pose proof (extraction_collects_what_a_reading_from_the_left_finds
                Tldts.env text eq_refl) as (Hex & Hall & _ & Hsound & Hdom).
  split; [reflexivity|]. split; [vm_compute; reflexivity|]. split; [|split; [exact Hsound|]].
  - destruct Hex as (plain & md & html & R1 & R2 & R3).
    exists plain, md, html.
    exact (conj R1 (conj R2 (conj R3 (Hall plain md html R1 R2 R3)))).
  - split.
    + apply (proj1 (Hdom "https://portal.legitvendor.com." "https://portal.legitvendor.com."
                      (or_introl (conj (ex_intro _ "https"
                                          (ex_intro _ "portal.legitvendor.com."
                                             (conj eq_refl (or_intror eq_refl))))
                                       eq_refl)))
               "portal.legitvendor.com." "legitvendor.com");
        [vm_compute; reflexivity|vm_compute; reflexivity|discriminate].
    + assert (Hno : ~ beginsWithScheme "portal.legitvendor.com").
      { intros H. apply test_schemeRe in H. vm_compute in H. discriminate H. }
      apply (proj1 (Hdom "portal.legitvendor.com" "http://portal.legitvendor.com"
                      (or_intror (conj Hno eq_refl)))
               "portal.legitvendor.com" "legitvendor.com");
        [vm_compute; reflexivity|vm_compute; reflexivity|discriminate].
Defined.

(** C8, against the spec: in an anchor, the plain pattern reads on from the
    URL through the closing quote, the end of the tag and the text of the
    link, and [extractAllUrls] returns that string as a URL next to the
    href value; it has characters that the URL checker of this repository
    lets no URL have. *)
Lemma anchor_text_is_collected_as_a_url :
  let text := "<a href=" ++ dqs ++ "http://login.com" ++ dqs ++ ">paypal.com</a>" in
  let read := "http://login.com" ++ dqs ++ ">paypal.com</a>" in
  ascii_text text = true
  /\ extractAllUrls text = [read; "http://login.com"]
  /\ JS.includes read dqs = true
  /\ JS.all_chars URLDetector.urlChar read = false
  /\ JS.all_chars URLDetector.urlChar "http://login.com" = true.
Proof. vm_compute. repeat split; reflexivity. Qed.

(* ================================================================== *)
(** * From one call to the next *)
(* ================================================================== *)

Lemma nth_error_fresh (h : Stateful.Store) o :
  nth_error (h ++ [o])%list (List.length h) = Some o.
Proof. induction h as [|x h IH]; simpl; [reflexivity|exact IH]. Qed.

Lemma store_fresh (h : Stateful.Store) o o' :
  Stateful.store (List.length h) o' (h ++ [o])%list = (h ++ [o'])%list.
Proof. induction h as [|x h IH]; simpl; [reflexivity|]. rewrite IH. reflexivity. Qed.

Lemma exec_pattern o text :
  Throwing.pattern (snd (Throwing.exec o text)) = Throwing.pattern o.
Proof.
  unfold Throwing.exec.
  destruct (if (Throwing.lastIndex o <=? String.length text)%nat
            then Regex.search_from (Throwing.pattern o)
                   (Throwing.drop (Throwing.lastIndex o) text) (Throwing.lastIndex o)
            else None); reflexivity.
Qed.

Lemma exec_null o text :
  fst (Throwing.exec o text) = None ->
  snd (Throwing.exec o text) = Throwing.mkRegExp (Throwing.pattern o) 0.
Proof.
  unfold Throwing.exec.
  destruct (if (Throwing.lastIndex o <=? String.length text)%nat
            then Regex.search_from (Throwing.pattern o)
                   (Throwing.drop (Throwing.lastIndex o) text) (Throwing.lastIndex o)
            else None); [discriminate|reflexivity].
Qed.

(** A loop on an object made for it runs as the loop on that object alone,
    and leaves the object with [lastIndex] 0 next to the objects that were
    there, untouched. *)
Lemma whileExec_fresh {S : Type} text (body : S -> Regex.Match -> S) :
  forall fuel (h : Stateful.Store) o st,
    Stateful.whileExec fuel (List.length h) text body st (h ++ [o])%list
    = Throwing.bind (Throwing.whileExec fuel o text body st)
        (fun x => Throwing.Returns
                    (x, (h ++ [Throwing.mkRegExp (Throwing.pattern o) 0])%list)).
Proof.
  induction fuel as [|fuel IH]; intros h o st; [reflexivity|].
  cbn [Stateful.whileExec Throwing.whileExec]. unfold Stateful.exec.
  rewrite nth_error_fresh. cbn [Throwing.bind fst snd]. rewrite store_fresh.
  pose proof (exec_pattern o text) as Hp. pose proof (exec_null o text) as Hn.
  destruct (Throwing.exec o text) as [[m|] o']; cbn [fst snd] in *.
  - rewrite IH, Hp. reflexivity.
  - rewrite (Hn eq_refl). reflexivity.
Qed.

Lemma extractAllUrls_from_store fuel text h :
  Stateful.extractAllUrls fuel text h
  = Throwing.bind (Throwing.extractAllUrls fuel text)
      (fun x => Throwing.Returns
                  (x, (h ++ [Throwing.mkRegExp mdReg 0; Throwing.mkRegExp htmlReg 0])%list)).
Proof.
  unfold Stateful.extractAllUrls, Throwing.extractAllUrls, Stateful.newRegExp.
  cbv zeta. cbn [fst snd]. rewrite whileExec_fresh.
  destruct (Throwing.whileExec fuel (Throwing.mkRegExp mdReg 0) text _ _) as [urls| |];
    cbn [Throwing.bind fst snd Throwing.pattern]; try reflexivity.
  rewrite whileExec_fresh.
  destruct (Throwing.whileExec fuel (Throwing.mkRegExp htmlReg 0) text _ _) as [urls'| |];
    cbn [Throwing.bind fst snd Throwing.pattern]; try reflexivity.
  rewrite <- app_assoc. reflexivity.
Qed.

Lemma extractLinkTextPairs_from_store fuel text h :
  Stateful.extractLinkTextPairs fuel text h
  = Throwing.bind (Throwing.extractLinkTextPairs fuel text)
      (fun x => Throwing.Returns
                  (x, (h ++ [Throwing.mkRegExp md 0; Throwing.mkRegExp html 0])%list)).
Proof.
  unfold Stateful.extractLinkTextPairs, Throwing.extractLinkTextPairs, Stateful.newRegExp.
  cbv zeta. cbn [fst snd]. rewrite whileExec_fresh.
  destruct (Throwing.whileExec fuel (Throwing.mkRegExp md 0) text _ _) as [pairs| |];
    cbn [Throwing.bind fst snd Throwing.pattern]; try reflexivity.
  rewrite whileExec_fresh.
  destruct (Throwing.whileExec fuel (Throwing.mkRegExp html 0) text _ _) as [pairs'| |];
    cbn [Throwing.bind fst snd Throwing.pattern]; try reflexivity.
  rewrite <- app_assoc. reflexivity.
Qed.

(** A call from any store runs as the call of the embedding without a
    store, and adds its four objects to the store. *)
Lemma detect_from_store fuel E i h :
  Stateful.detect fuel E i h
  = Throwing.bind (Throwing.detect fuel E i)
      (fun x => Throwing.Returns
                  (x, (h ++ [Throwing.mkRegExp mdReg 0; Throwing.mkRegExp htmlReg 0;
                             Throwing.mkRegExp md 0; Throwing.mkRegExp html 0])%list)).
Proof.
  unfold Stateful.detect, Throwing.detect. cbv zeta.
  rewrite extractAllUrls_from_store.
  destruct (Throwing.extractAllUrls fuel (body i)) as [urls| |];
    cbn [Throwing.bind fst snd]; try reflexivity.
  destruct (Throwing.forOf _ urls _) as [st| |]; cbn [Throwing.bind fst snd];
    try reflexivity.
  rewrite extractLinkTextPairs_from_store.
  destruct (Throwing.extractLinkTextPairs fuel (body i)) as [pairs| |];
    cbn [Throwing.bind fst snd]; try reflexivity.
  destruct (Throwing.forOf _ pairs _) as [st'| |]; cbn [Throwing.bind fst snd];
    try reflexivity.
  rewrite <- app_assoc. reflexivity.
Qed.

(** C3. Two calls of [detect] with the same input return the same result:
    the same score, the same reasons in the same order, the same category.
    The calls are run on a store of RegExp objects that is handed from call
    to call, with fuel for their loops, the two libraries taken as
    functions of their arguments.  Whatever the store holds when a call
    begins, the call returns the result of [detect]; so any two calls agree,
    and so do two calls in a row, where the second begins with what the
    first left.  A call leaves the objects it found as they were. *)
Theorem detect_deterministic_between_calls (E : Env) (i : DetectionInput) (fuel : nat) :
  String.length (body i) < fuel ->
  (forall h1 h2,
      exists r h1' h2',
        Stateful.detect fuel E i h1 = Throwing.Returns (r, h1')
        /\ Stateful.detect fuel E i h2 = Throwing.Returns (r, h2')
        /\ r = detect E i)
  /\ (forall h, exists r h', Stateful.twice fuel E i i h = Throwing.Returns (r, r, h'))
  /\ (forall h r h',
        Stateful.detect fuel E i h = Throwing.Returns (r, h') ->
        firstn (List.length h) h' = h).
Proof.
  intros Hfuel.
  assert (Hcall : forall h,
             Stateful.detect fuel E i h
             = Throwing.Returns
                 (detect E i,
                  (h ++ [Throwing.mkRegExp mdReg 0; Throwing.mkRegExp htmlReg 0;
                         Throwing.mkRegExp md 0; Throwing.mkRegExp html 0])%list)).
  { intros h. rewrite detect_from_store, (detect_returns E i fuel Hfuel). reflexivity. }
  split; [|split].
  - intros h1 h2. eexists; eexists; eexists.
    split; [apply Hcall|]. split; [apply Hcall|reflexivity].
  - intros h. unfold Stateful.twice. rewrite Hcall. cbn [Throwing.bind fst snd].
    rewrite Hcall. cbn [Throwing.bind fst snd]. eexists; eexists; reflexivity.
  - intros h r h' Hr. rewrite Hcall in Hr. inversion Hr; subst.
    rewrite firstn_app, Nat.sub_diag, firstn_all. simpl. apply app_nil_r.
Qed.

Lemma detect_deterministic_between_calls_witness :
  let i := inputOf (fillSuspiciousExample initialForm) in
  let used := [Throwing.mkRegExp mdReg 17; Throwing.mkRegExp html 3] in
  (exists r h1' h2',
      Stateful.detect 1000 Tldts.env i [] = Throwing.Returns (r, h1')
      /\ Stateful.detect 1000 Tldts.env i used = Throwing.Returns (r, h2')
      /\ r = detect Tldts.env i)
  /\ (exists r h', Stateful.twice 1000 Tldts.env i i used = Throwing.Returns (r, r, h')).
Proof.
  intros i used.
  assert (Hfuel : String.length (body i) < 1000)
    by (apply Nat.ltb_lt; vm_compute; reflexivity).
  pose proof (detect_deterministic_between_calls Tldts.env i 1000 Hfuel)
    as (Hany & Hrow & _).
  split; [exact (Hany [] used)|exact (Hrow used)].
Defined.
